(** * Outbound olm encryption of hydrogen-web: [matrix/e2ee/olm/Encryption.js]

    A shallow embedding of the [Encryption] class (the session orchestrator)
    and of the [EncryptionTarget] and [EncryptedMessage] helper classes, with
    the properties of the design document stated over it.

    Conventions of the embedding.
    - JavaScript values that travel on the wire (message content, the
      key-claim payload, the encrypted content) are [JsValue]s; an object is
      the list of its own enumerable properties in [Object.entries] order.
    - A string holds its text in UTF-8.  Where JavaScript goes by the
      UTF-16 code units of a string (the order [<]), the model decodes them
      ([code_units]).
    - [EncryptionTarget] objects are mutable and shared between arrays, so
      they live in a heap ([targets] of the [World]) and arrays hold
      references ([TargetRef]).
    - Every call that leaves the class (olm, storage, network) is logged in
      the [trace] of the [World]; what the collaborator answers is a field of
      the record that stands for it ([Account], [Olm], [Storage], [HsApi]).
    - A method is a function [World -> Result A * World]: a JavaScript
      exception is [Throw], and the effects that happened before it stay in
      the world.
    - [await e] runs [e] to its end.  A call of an async function that is
      not awaited runs the synchronous prefix of its body (up to the first
      [await]) and drops the promise.

    The tile that shows an event that could not be decrypted
    ([EncryptedEventTile.js]) is embedded after the class.  The last part
    of the file states further properties of the code. *)

From Stdlib Require Import String Ascii NArith ZArith List Lia Permutation Bool Arith.
From stdpp Require Import base option list strings.

Open Scope string_scope.
Open Scope list_scope.

(** ** JavaScript values and results *)

Inductive JsError : Type :=
| ReferenceError   (* a binding read inside its temporal dead zone *)
| TypeError        (* property access on null/undefined, failed destructuring *)
| StorageError     (* a rejected storage request or transaction *)
| NetworkError     (* a rejected homeserver request *)
| OlmError.        (* an exception thrown by the olm library *)

Inductive Result (A : Type) : Type :=
| Ok (a : A)
| Throw (e : JsError).
Arguments Ok {A} a.
Arguments Throw {A} e.

#[warnings="-register-all"]
Inductive JsValue : Type :=
| JsUndefined
| JsNull
| JsNum (z : Z)
| JsStr (s : string)
| JsObj (props : list (string * JsValue)).

(** The entries of an object (its own enumerable properties, as
    [Object.entries] and [JSON.stringify] list them) or of a [Map], in
    the order of enumeration. *)

(** [o[k]] for an own property, [m.get(k)] for a [Map]. *)
Fixpoint obj_get {V : Type} (k : string) (o : list (string * V)) : option V :=
  match o with
  | [] => None
  | (k', v) :: o' => if String.eqb k k' then Some v else obj_get k o'
  end.

(** [m.set(k, v)] on a [Map]: an existing key keeps its place, a new key
    goes last. *)
Fixpoint obj_set {V : Type} (k : string) (v : V) (o : list (string * V))
  : list (string * V) :=
  match o with
  | [] => [(k, v)]
  | (k', v') :: o' =>
      if String.eqb k k' then (k, v) :: o' else (k', v') :: obj_set k v o'
  end.

Fixpoint decimal (s : string) (acc : N) : option N :=
  match s with
  | EmptyString => Some acc
  | String c s' =>
      let n := N_of_ascii c in
      if ((48 <=? n) && (n <=? 57))%N then decimal s' (10 * acc + (n - 48))%N
      else None
  end.

(** The array index that a property name denotes: the name is the decimal
    numeral, without leading zeros, of an integer below 2^32 - 1. *)
Definition array_index (k : string) : option N :=
  match k with
  | EmptyString => None
  | String c rest =>
      if (N_of_ascii c =? 48)%N && negb (String.eqb rest "") then None
      else
        match decimal k 0 with
        | Some n => if (n <? 4294967295)%N then Some n else None
        | None => None
        end
  end.

(** A new property whose name is the array index [n]: the properties with
    an array index come first, in ascending order. *)
Fixpoint index_insert {V : Type} (n : N) (k : string) (v : V)
    (o : list (string * V)) : list (string * V) :=
  match o with
  | [] => [(k, v)]
  | (k', v') :: o' =>
      match array_index k' with
      | Some n' =>
          if (n' <? n)%N then (k', v') :: index_insert n k v o'
          else (k, v) :: o
      | None => (k, v) :: o
      end
  end.

(** [o[k] = v] on an object made by [{}] whose properties were all made by
    such assignments.  The name [__proto__] is the accessor property of
    [Object.prototype]: its setter sets the prototype (or does nothing for
    a value that is not an object) and makes no own property.  For any
    other name an existing property keeps its place; a new one whose name
    is an array index goes among the array indices, and any other new one
    goes last. *)
Definition prop_set {V : Type} (k : string) (v : V) (o : list (string * V))
  : list (string * V) :=
  if String.eqb k "__proto__" then o
  else
    match obj_get k o, array_index k with
    | None, Some n => index_insert n k v o
    | _, _ => obj_set k v o
    end.

(** A [const]/[let] binding of a block: hoisted to the top of its block and
    unreadable ([TDZ]) until its declaration has been evaluated. *)
Inductive Binding (A : Type) : Type :=
| TDZ
| Initialised (a : A).
Arguments TDZ {A}.
Arguments Initialised {A} a.

(** ** Data model *)

Module DeviceIdentity.
Record t : Type := mk {
  userId : string;
  deviceId : string;
  curve25519Key : string;
  ed25519Key : string
}.
End DeviceIdentity.

(** The value of one property of a device section of a key-claim response:
    [{key: <base64>, signatures: {...}}]. *)
Module KeySection.
Record t : Type := mk {
  key : string;
  signatures : list (string * list (string * string))
}.
End KeySection.

(** [Object.entries] views of the [one_time_keys] part of a claim response:
    user -> device -> key name -> key section. *)
Definition DeviceSection : Type := list (string * KeySection.t).
Definition UserSection : Type := list (string * DeviceSection).
Definition UserKeyMap : Type := list (string * UserSection).

(** What [createSessionEntry] builds and [olmSessions.set] stores. *)
Module SessionEntry.
Record t : Type := mk {
  session : string;      (* the pickled session *)
  sessionId : string;
  senderKey : string;    (* the curve25519 key of the device *)
  lastUsed : Z
}.
End SessionEntry.

(** Native sessions, [EncryptionTarget] objects and transactions are named by
    numbers handed out in the order of their creation. *)
Abbreviation SessionHandle := nat (only parsing).
Abbreviation TargetRef := nat (only parsing).
Abbreviation TxnId := nat (only parsing).

(** [class EncryptionTarget]: the fields set by its constructor; [session]
    is [null] until a session is assigned. *)
Module EncryptionTarget.
Record t : Type := mk {
  device : DeviceIdentity.t;
  oneTimeKey : option string;
  sessionId : option string;
  session : option SessionHandle
}.
End EncryptionTarget.

(** [class EncryptedMessage]. *)
Module EncryptedMessage.
Record t : Type := mk {
  content : JsValue;
  device : DeviceIdentity.t
}.
End EncryptedMessage.

(** ** The collaborators of the class *)

(** [this._account]: the own identity keys, and whether
    [createOutboundOlmSession(theirIdentityKey, theirOneTimeKey)] returns a
    session or throws. *)
Record Account : Type := {
  identityKeys_curve25519 : string;
  identityKeys_ed25519 : string;
  createOutbound_succeeds : string -> option string -> bool
}.

(** [this._olm] and the sessions it hands out: whether
    [unpickle(pickleKey, pickled)] succeeds, what [session.encrypt(plaintext)]
    returns, and what [pickle(pickleKey)] and [session_id()] return. *)
Record Olm : Type := {
  unpickle_succeeds : string -> string -> bool;
  session_encrypt : SessionHandle -> JsValue -> Result JsValue;
  session_pickle : SessionHandle -> string -> string;
  session_id : SessionHandle -> string
}.

(** [this._olmUtil], seen through [verifyEd25519Signature(olmUtil, userId,
    deviceId, ed25519Key, keySection)] of common.js, which answers with a
    boolean and does not throw. *)
Record OlmUtil : Type := {
  verifyEd25519Signature : string -> string -> string -> KeySection.t -> bool
}.

(** [this._storage]: the answers of the session store, and the order in
    which it answers the reads that [_loadSessions] issues in parallel:
    [load_order] permutes the requests, and [load_delay] counts the answers
    that are still delivered between the first rejection and the moment the
    rejection reaches the [catch] block of [_loadSessions]. *)
Record Storage : Type := {
  getSessionIds : string -> Result (option (list string));
  olmSessions_get : string -> option string -> Result (option SessionEntry.t);
  set_succeeds : SessionEntry.t -> bool;
  complete_succeeds : TxnId -> bool;
  load_order : list TargetRef -> list TargetRef;
  load_delay : nat
}.

(** [hsApi]: the payload goes to [claimKeys], and the model takes
    [(await hsApi.claimKeys(payload).response())?.["one_time_keys"]] as a
    whole: a rejection, [undefined], or the user key map. *)
Record HsApi : Type := {
  claimKeys : JsValue -> Result (option UserKeyMap)
}.

(** The fields the constructor of [Encryption] stores. *)
Record Encryption : Type := {
  _account : Account;
  _olm : Olm;
  _olmUtil : OlmUtil;
  _userId : string;
  _storage : Storage;
  _now : Z;
  _pickleKey : string
}.

(** ** The world: heap of targets, native sessions, log of outside calls *)

(** The calls that leave the class.  [owner] is the target a call is made
    for; it labels the event and is not passed to the collaborator. *)
Inductive Event : Type :=
| EvClaimKeys (payload : JsValue)              (* hsApi.claimKeys(payload) *)
| EvCreateOutbound (owner : TargetRef) (s : SessionHandle)
                                    (* account.createOutboundOlmSession *)
| EvNewSession (s : SessionHandle)             (* new olm.Session() *)
| EvUnpickle (s : SessionHandle) (pickled : string)
| EvSessionEncrypt (s : SessionHandle) (plaintext : JsValue)
| EvFree (s : SessionHandle)                   (* session.free() *)
| EvReadTxn (txn : TxnId)                      (* storage.readTxn *)
| EvReadWriteTxn (txn : TxnId)                 (* storage.readWriteTxn *)
| EvSet (txn : TxnId) (owner : TargetRef) (entry : SessionEntry.t)
                                    (* txn.olmSessions.set(entry) *)
| EvAbort (txn : TxnId)                        (* txn.abort() *)
| EvComplete (txn : TxnId)                     (* txn.complete() *)
| EvCommitted (txn : TxnId).     (* the awaited promise of complete() *)

Record World : Type := {
  targets : list EncryptionTarget.t;   (* address = index *)
  next_session : SessionHandle;
  next_txn : TxnId;
  trace : list Event                   (* oldest first *)
}.

Definition empty_world : World :=
  {| targets := []; next_session := 0; next_txn := 0; trace := [] |}.

Definition M (A : Type) : Type := World -> Result A * World.

Definition ret {A : Type} (a : A) : M A := fun w => (Ok a, w).

Definition throw {A : Type} (e : JsError) : M A := fun w => (Throw e, w).

Definition bind {A B : Type} (m : M A) (f : A -> M B) : M B :=
  fun w =>
    match m w with
    | (Ok a, w') => f a w'
    | (Throw e, w') => (Throw e, w')
    end.

Notation "'let*' x := m 'in' k" := (bind m (fun x => k))
  (at level 10, x pattern, m at level 100, k at level 200).
Notation "m ;; k" := (bind m (fun _ => k))
  (at level 100, k at level 200, right associativity).

(** [try { body } catch (err) { handler }]. *)
Definition try_catch {A : Type} (body : M A) (handler : JsError -> M A) : M A :=
  fun w =>
    match body w with
    | (Ok a, w') => (Ok a, w')
    | (Throw err, w') => handler err w'
    end.

(** A call of an async function whose promise is neither awaited nor
    otherwise used: [prefix] is the part of its body before the first
    [await]; a rejection stays in the dropped promise. *)
Definition unawaited {A : Type} (prefix : M A) : M unit :=
  fun w => (Ok tt, snd (prefix w)).

Definition lift {A : Type} (r : Result A) : M A := fun w => (r, w).

Definition log (ev : Event) : M unit :=
  fun w =>
    (Ok tt, {| targets := targets w; next_session := next_session w;
               next_txn := next_txn w; trace := trace w ++ [ev] |}).

(** [for (const x of xs) { body }]. *)
Fixpoint for_of {A : Type} (xs : list A) (body : A -> M unit) : M unit :=
  match xs with
  | [] => ret tt
  | x :: xs' => body x ;; for_of xs' body
  end.

(** [xs.map((x, i) => f)] for a callback that has effects; [i] counts from
    [start]. *)
Fixpoint map_i {A B : Type} (f : A -> nat -> M B) (start : nat) (xs : list A)
  : M (list B) :=
  match xs with
  | [] => ret []
  | x :: xs' =>
      let* y := f x start in
      let* ys := map_i f (S start) xs' in
      ret (y :: ys)
  end.

(** [xs.filter((x, i) => p)]. *)
Fixpoint filter_i {A : Type} (p : A -> nat -> bool) (start : nat) (xs : list A)
  : list A :=
  match xs with
  | [] => []
  | x :: xs' =>
      if p x start then x :: filter_i p (S start) xs'
      else filter_i p (S start) xs'
  end.

(** ** [class EncryptionTarget] *)

Definition new_EncryptionTarget (device : DeviceIdentity.t)
    (oneTimeKey sessionId : option string) : M TargetRef :=
  fun w =>
    (Ok (length (targets w)),
     {| targets := targets w ++
          [EncryptionTarget.mk device oneTimeKey sessionId None];
        next_session := next_session w; next_txn := next_txn w;
        trace := trace w |}).

Definition fromOTK (device : DeviceIdentity.t) (oneTimeKey : string)
  : M TargetRef :=
  new_EncryptionTarget device (Some oneTimeKey) None.

Definition fromSessionId (device : DeviceIdentity.t) (sessionId : option string)
  : M TargetRef :=
  new_EncryptionTarget device None sessionId.

(** Reading the fields of a target; a dangling reference behaves like
    [undefined]. *)
Definition deref (target : TargetRef) : M EncryptionTarget.t :=
  fun w =>
    match targets w !! target with
    | Some o => (Ok o, w)
    | None => (Throw TypeError, w)
    end.

(** [target.session = s]. *)
Definition set_session (target : TargetRef) (s : SessionHandle) : M unit :=
  fun w =>
    (Ok tt,
     {| targets :=
          alter (fun o => EncryptionTarget.mk (EncryptionTarget.device o)
                            (EncryptionTarget.oneTimeKey o)
                            (EncryptionTarget.sessionId o) (Some s))
                target (targets w);
        next_session := next_session w; next_txn := next_txn w;
        trace := trace w |}).

Definition dispose (target : TargetRef) : M unit :=
  let* this := deref target in
  match EncryptionTarget.session this with
  | Some s => log (EvFree s)
  | None => ret tt
  end.

(** ** [findFirstSessionId] *)

(** [!first] for the accumulator of the reduction: [null] and the empty
    string are the falsy values among [null] and the strings. *)
Definition falsy (first : option string) : bool :=
  match first with
  | None => true
  | Some s => String.eqb s ""
  end.

(** A string of the model holds its text as UTF-8, the way Rocq reads a
    string literal; a JavaScript string is a sequence of UTF-16 code units.
    [utf16_units] reads the code units off the bytes: one unit for a
    sequence of one, two or three bytes, a surrogate pair for a sequence of
    four.  A byte that does not start a well-formed sequence is read as
    U+FFFD; no JavaScript string has such an encoding. *)
Definition continuation (b : N) : bool := ((128 <=? b) && (b <? 192))%N.

Fixpoint utf16_units (bytes : list N) : list N :=
  match bytes with
  | [] => []
  | b0 :: rest =>
      if (b0 <? 128)%N then b0 :: utf16_units rest
      else
        match rest with
        | [] => [65533%N]
        | b1 :: rest1 =>
            if ((194 <=? b0) && (b0 <? 224))%N && continuation b1 then
              ((b0 - 192) * 64 + (b1 - 128))%N :: utf16_units rest1
            else
              match rest1 with
              | [] => 65533%N :: utf16_units rest
              | b2 :: rest2 =>
                  let point3 :=
                    ((b0 - 224) * 4096 + (b1 - 128) * 64 + (b2 - 128))%N in
                  if ((224 <=? b0) && (b0 <? 240))%N
                     && continuation b1 && continuation b2
                     && (2048 <=? point3)%N
                     && negb ((55296 <=? point3) && (point3 <? 57344))%N
                  then point3 :: utf16_units rest2
                  else
                    match rest2 with
                    | [] => 65533%N :: utf16_units rest
                    | b3 :: rest3 =>
                        let point4 :=
                          ((b0 - 240) * 262144 + (b1 - 128) * 4096
                           + (b2 - 128) * 64 + (b3 - 128))%N in
                        if ((240 <=? b0) && (b0 <? 248))%N
                           && continuation b1 && continuation b2
                           && continuation b3
                           && ((65536 <=? point4) && (point4 <? 1114112))%N
                        then
                          (55296 + (point4 - 65536) / 1024)%N
                          :: (56320 + (point4 - 65536) mod 1024)%N
                          :: utf16_units rest3
                        else 65533%N :: utf16_units rest
                    end
              end
        end
  end.

Definition code_units (s : string) : list N :=
  utf16_units (map N_of_ascii (list_ascii_of_string s)).

(** [<] on two sequences of code units: the first unit that differs
    decides, and a proper prefix comes first. *)
Fixpoint units_ltb (xs ys : list N) : bool :=
  match xs, ys with
  | _, [] => false
  | [], _ :: _ => true
  | x :: xs', y :: ys' => (x <? y)%N || ((x =? y)%N && units_ltb xs' ys')
  end.

(** [sessionId < first] on two strings ([first] is a string whenever this
    operand of [||] is evaluated): JavaScript compares them code unit by
    code unit. *)
Definition js_lt (sessionId : string) (first : option string) : bool :=
  match first with
  | Some f => units_ltb (code_units sessionId) (code_units f)
  | None => false
  end.

Definition findFirstSessionId (sessionIds : list string) : option string :=
  fold_left
    (fun first sessionId =>
       if falsy first || js_lt sessionId first then Some sessionId else first)
    sessionIds None.

Definition OTK_ALGORITHM : string := "signed_curve25519".

(** Modelled from the spec: the constant [OLM_ALGORITHM] of common.js, which
    is not part of the sources; the wire format names the algorithm
    identifier. *)
Definition OLM_ALGORITHM : string := "m.olm.v1.curve25519-aes-sha2".

(** Modelled from the spec: [groupByWithCreator] of utils/groupBy.js, which
    is not part of the sources.  The design document has it as a group-by
    with an accumulator that builds an ordered map: each element goes into
    the collection of its group, and the collection is created when the key
    of the group is first met.  [addCollectionFn] returns the collection it
    has extended. *)
Definition groupByWithCreator {V C : Type} (array : list V)
    (groupFn : V -> string) (createCollectionFn : unit -> C)
    (addCollectionFn : C -> V -> C) : list (string * C) :=
  fold_left
    (fun map value =>
       let key := groupFn value in
       let collection := default (createCollectionFn tt) (obj_get key map) in
       obj_set key (addCollectionFn collection value) map)
    array [].

(** Modelled from the spec: [createSessionEntry] of Session.js, which is not
    part of the sources.  The session record holds the session pickled with
    the pickle key, the id of the session, the curve25519 key of the device
    and the timestamp; pickle and id are asked of the session object, hence
    the [TypeError] on [null]. *)
Definition createSessionEntry (olm : Olm) (olmSession : option SessionHandle)
    (senderKey : string) (timestamp : Z) (pickleKey : string)
  : Result SessionEntry.t :=
  match olmSession with
  | Some s =>
      Ok (SessionEntry.mk (session_pickle olm s pickleKey) (session_id olm s)
            senderKey timestamp)
  | None => Throw TypeError
  end.

(** [firstPropName.split(":")[0]]. *)
Fixpoint before_colon (s : string) : string :=
  match s with
  | EmptyString => EmptyString
  | String c s' =>
      if Ascii.eqb c ":"%char then EmptyString else String c (before_colon s')
  end.

(** [sessionIds?.length], as a condition. *)
Definition has_length (sessionIds : option (list string)) : bool :=
  match sessionIds with
  | Some (_ :: _) => true
  | _ => false
  end.

(** Reading a binding of the enclosing block. *)
Definition read_binding {A : Type} (b : Binding A) : M A :=
  match b with
  | Initialised a => ret a
  | TDZ => throw ReferenceError
  end.

(** [for (const x of xs) { body }] where the body pushes onto an array
    declared outside the loop. *)
Fixpoint for_of_pushing {A S : Type} (xs : list A) (body : A -> S -> M S)
    (acc : S) : M S :=
  match xs with
  | [] => ret acc
  | x :: xs' => let* acc' := body x acc in for_of_pushing xs' body acc'
  end.

(** ** Storage and olm calls, logged *)

Definition fresh_txn (ev : TxnId -> Event) : M TxnId :=
  fun w =>
    (Ok (next_txn w),
     {| targets := targets w; next_session := next_session w;
        next_txn := S (next_txn w); trace := trace w ++ [ev (next_txn w)] |}).

Definition readTxn : M TxnId := fresh_txn EvReadTxn.
Definition readWriteTxn : M TxnId := fresh_txn EvReadWriteTxn.

Definition fresh_session (ev : SessionHandle -> Event) : M SessionHandle :=
  fun w =>
    (Ok (next_session w),
     {| targets := targets w; next_session := S (next_session w);
        next_txn := next_txn w; trace := trace w ++ [ev (next_session w)] |}).

(** ** [class Encryption] *)

Section Encryption_methods.

Variable this : Encryption.

(** [this._account.createOutboundOlmSession(theirIdentityKey,
    theirOneTimeKey)]; [owner] only labels the event. *)
Definition createOutboundOlmSession (owner : TargetRef)
    (theirIdentityKey : string) (theirOneTimeKey : option string)
  : M SessionHandle :=
  if createOutbound_succeeds (_account this) theirIdentityKey theirOneTimeKey
  then fresh_session (EvCreateOutbound owner)
  else throw OlmError.

(** [olmSession.unpickle(pickleKey, pickled)]. *)
Definition unpickle (olmSession : SessionHandle) (pickleKey pickled : string)
  : M unit :=
  log (EvUnpickle olmSession pickled) ;;
  if unpickle_succeeds (_olm this) pickleKey pickled then ret tt
  else throw OlmError.

(** [txn.olmSessions.set(sessionEntry)]; [owner] only labels the event. *)
Definition olmSessions_set (txn : TxnId) (owner : TargetRef)
    (sessionEntry : SessionEntry.t) : M unit :=
  if set_succeeds (_storage this) sessionEntry
  then log (EvSet txn owner sessionEntry)
  else throw StorageError.

(** [await p] for the promise [p] that [txn.complete()] returned. *)
Definition await_complete (txn : TxnId) : M unit :=
  if complete_succeeds (_storage this) txn then log (EvCommitted txn)
  else throw StorageError.

(** The reads of [Promise.all] have no effect on the world, so they are
    taken in the order of the array; a rejected read rejects the whole. *)
Definition _findExistingSessions (devices : list DeviceIdentity.t)
  : M (list DeviceIdentity.t * list TargetRef) :=
  let* txn := readTxn in
  let* sessionIdsForDevice :=
    map_i (fun device _ =>
             lift (getSessionIds (_storage this)
                     (DeviceIdentity.curve25519Key device)))
          0 devices in
  let devicesWithoutSession :=
    filter_i (fun _ i =>
                let sessionIds := mjoin (sessionIdsForDevice !! i) in
                negb (has_length sessionIds))
             0 devices in
  let* existingEncryptionTargets :=
    map_i (fun device i =>
             let sessionIds := mjoin (sessionIdsForDevice !! i) in
             if has_length sessionIds then
               let sessionId := findFirstSessionId (default [] sessionIds) in
               let* target := fromSessionId device sessionId in
               ret (Some target)
             else ret None)
          0 devices in
  ret (devicesWithoutSession, omap id existingEncryptionTargets).

Definition _buildPlainTextMessageForDevice (type : string)
    (content : JsValue) (device : DeviceIdentity.t) : JsValue :=
  JsObj
    [("keys", JsObj [("ed25519", JsStr (identityKeys_ed25519 (_account this)))]);
     ("recipient_keys",
      JsObj [("ed25519", JsStr (DeviceIdentity.ed25519Key device))]);
     ("recipient", JsStr (DeviceIdentity.userId device));
     ("sender", JsStr (_userId this));
     ("content", content);
     ("type", JsStr type)].

Definition _encryptForDevice (type : string) (content : JsValue)
    (target : TargetRef) : M JsValue :=
  let* o := deref target in
  let session := EncryptionTarget.session o in
  let device := EncryptionTarget.device o in
  let* message :=
    match session with
    | Some s =>
        let plaintext := _buildPlainTextMessageForDevice type content device in
        log (EvSessionEncrypt s plaintext) ;;
        lift (session_encrypt (_olm this) s plaintext)
    | None => throw TypeError
    end in
  let encryptedContent :=
    JsObj
      [("algorithm", JsStr OLM_ALGORITHM);
       ("sender_key", JsStr (identityKeys_curve25519 (_account this)));
       ("ciphertext", JsObj [(DeviceIdentity.curve25519Key device, message)])] in
  ret encryptedContent.

(** The body of the inner loop of [_verifyAndCreateOTKTargets]. *)
Definition verify_device_section
    (devicesByUser : list (string * list (string * DeviceIdentity.t)))
    (userId deviceId : string) (deviceSection : DeviceSection)
    (verifiedEncryptionTargets : list TargetRef) : M (list TargetRef) :=
  match deviceSection with
  | [] => throw TypeError   (* destructuring [Object.entries({})[0]] *)
  | (firstPropName, keySection) :: _ =>
      let keyAlgorithm := before_colon firstPropName in
      if String.eqb keyAlgorithm OTK_ALGORITHM then
        let device := obj_get userId devicesByUser ≫= obj_get deviceId in
        match device with
        | Some device =>
            let isValidSignature :=
              verifyEd25519Signature (_olmUtil this) userId deviceId
                (DeviceIdentity.ed25519Key device) keySection in
            if isValidSignature then
              let* target := fromOTK device (KeySection.key keySection) in
              ret (verifiedEncryptionTargets ++ [target])
            else ret verifiedEncryptionTargets
        | None => ret verifiedEncryptionTargets
        end
      else ret verifiedEncryptionTargets
  end.

Definition _verifyAndCreateOTKTargets (userKeyMap : option UserKeyMap)
    (devicesByUser : list (string * list (string * DeviceIdentity.t)))
  : M (list TargetRef) :=
  let verifiedEncryptionTargets := [] in
  match userKeyMap with
  | None => throw TypeError   (* [Object.entries(undefined)] *)
  | Some userKeyMap =>
      for_of_pushing userKeyMap
        (fun '(userId, userSection) =>
           for_of_pushing userSection
             (fun '(deviceId, deviceSection) =>
                verify_device_section devicesByUser userId deviceId
                  deviceSection))
        verifiedEncryptionTargets
  end.

(** The payload of the key claim, built from the grouped devices. *)
Definition claim_payload
    (devicesByUser : list (string * list (string * DeviceIdentity.t)))
  : JsValue :=
  let oneTimeKeys :=
    fold_left
      (fun usersObj '(userId, deviceMap) =>
         prop_set userId
           (JsObj
              (fold_left
                 (fun devicesObj device =>
                    prop_set (DeviceIdentity.deviceId device)
                      (JsStr OTK_ALGORITHM) devicesObj)
                 (map snd deviceMap) []))
           usersObj)
      devicesByUser [] in
  JsObj [("timeout", JsNum 10000); ("one_time_keys", JsObj oneTimeKeys)].

Definition _claimOneTimeKeys (hsApi : HsApi)
    (deviceIdentities : list DeviceIdentity.t) : M (list TargetRef) :=
  let devicesByUser :=
    groupByWithCreator deviceIdentities DeviceIdentity.userId
      (fun _ => [])
      (fun deviceMap device =>
         obj_set (DeviceIdentity.deviceId device) device deviceMap) in
  log (EvClaimKeys (claim_payload devicesByUser)) ;;
  let* userKeyMap := lift (claimKeys hsApi (claim_payload devicesByUser)) in
  _verifyAndCreateOTKTargets userKeyMap devicesByUser.

(** The body of [_storeSessions] up to its only [await]: the transaction
    is opened, the entries are written, and [txn.complete()] is called. *)
Definition _storeSessions_prefix (encryptionTargets : list TargetRef)
    (timestamp : Z) : M TxnId :=
  let* txn := readWriteTxn in
  try_catch
    (for_of encryptionTargets
       (fun target =>
          let* o := deref target in
          let* sessionEntry :=
            lift (createSessionEntry (_olm this) (EncryptionTarget.session o)
                    (DeviceIdentity.curve25519Key (EncryptionTarget.device o))
                    timestamp (_pickleKey this)) in
          olmSessions_set txn target sessionEntry))
    (fun err => log (EvAbort txn) ;; throw err) ;;
  log (EvComplete txn) ;;
  ret txn.

Definition _storeSessions (encryptionTargets : list TargetRef)
    (timestamp : Z) : M unit :=
  let* txn := _storeSessions_prefix encryptionTargets timestamp in
  await_complete txn.

Definition _createNewSessions (devicesWithoutSession : list DeviceIdentity.t)
    (hsApi : HsApi) (timestamp : Z) : M (list TargetRef) :=
  let* newEncryptionTargets := _claimOneTimeKeys hsApi devicesWithoutSession in
  try_catch
    (for_of newEncryptionTargets
       (fun target =>
          let* o := deref target in
          let device := EncryptionTarget.device o in
          let oneTimeKey := EncryptionTarget.oneTimeKey o in
          let* s := createOutboundOlmSession target
                      (DeviceIdentity.curve25519Key device) oneTimeKey in
          set_session target s) ;;
     (* no [await]: only the prefix runs before the next statement *)
     unawaited (_storeSessions_prefix newEncryptionTargets timestamp))
    (fun err => for_of newEncryptionTargets dispose) ;;
  ret newEncryptionTargets.

(** One callback of [encryptionTargets.map(async encryptionTarget => ...)]
    in [_loadSessions], from the moment the store answers its read;
    [failed] is the value the variable of the enclosing call has at that
    moment.  The read is issued with fields of the target that never
    change, so the model asks the store at this point. *)
Definition load_callback (failed : bool) (encryptionTarget : TargetRef)
  : M unit :=
  let* o := deref encryptionTarget in
  let* sessionEntry :=
    lift (olmSessions_get (_storage this)
            (DeviceIdentity.curve25519Key (EncryptionTarget.device o))
            (EncryptionTarget.sessionId o)) in
  match sessionEntry with
  | Some entry =>
      if negb failed then
        let* olmSession := fresh_session EvNewSession in
        unpickle olmSession (_pickleKey this) (SessionEntry.session entry) ;;
        set_session encryptionTarget olmSession
      else ret tt
  | None => ret tt
  end.

(** [await Promise.all(...)]: the callbacks settle in the order of the
    answers; the first one that rejects rejects the whole.  The result is
    that error with the callbacks still in flight, or [None] when all of
    them fulfilled. *)
Fixpoint settle_until_rejection (in_flight : list TargetRef) (w : World)
  : option (JsError * list TargetRef) * World :=
  match in_flight with
  | [] => (None, w)
  | encryptionTarget :: rest =>
      match load_callback false encryptionTarget w with
      | (Ok _, w') => settle_until_rejection rest w'
      | (Throw err, w') => (Some (err, rest), w')
      end
  end.

(** Callbacks that settle once [Promise.all] has rejected: nobody looks
    at their promises any more. *)
Fixpoint settle_unobserved (failed : bool) (in_flight : list TargetRef)
    (w : World) : World :=
  match in_flight with
  | [] => w
  | encryptionTarget :: rest =>
      settle_unobserved failed rest
        (snd (load_callback failed encryptionTarget w))
  end.

Definition _loadSessions (encryptionTargets : list TargetRef) : M unit :=
  fun w =>
    let (_, w) := readTxn w in
    let failed := false in
    match settle_until_rejection
            (load_order (_storage this) encryptionTargets) w with
    | (None, w) => (Ok tt, w)
    | (Some (err, in_flight), w) =>
        (* answers delivered before the rejection reaches the catch block *)
        let w :=
          settle_unobserved failed
            (take (load_delay (_storage this)) in_flight) w in
        (* catch (err) *)
        let failed := true in
        match for_of encryptionTargets dispose w with
        | (Throw err', w) => (Throw err', w)
        | (Ok _, w) =>
            (* throw err; the remaining answers arrive after it and find
               [failed] set *)
            (Throw err,
             settle_unobserved failed
               (drop (load_delay (_storage this)) in_flight) w)
        end
    end.

(** The callback of [encryptionTargets.map] in [encrypt].  Its block
    declares [const content], which shadows the parameter [content] of
    [encrypt] in the whole block: the argument [content] of
    [_encryptForDevice] is a read of the block's own binding, inside its
    initialiser. *)
Definition encrypt_map_callback (type : string) (content : JsValue)
    (target : TargetRef) : M EncryptedMessage.t :=
  let block_content : Binding JsValue := TDZ in
  let* argument := read_binding block_content in
  let* block_content := _encryptForDevice type argument target in
  let* o := deref target in
  ret (EncryptedMessage.mk block_content (EncryptionTarget.device o)).

(** The [try] block of [encrypt]; next to the outcome it gives the value
    the variable [encryptionTargets] has when the block is left. *)
Definition encrypt_try (type : string) (content : JsValue) (hsApi : HsApi)
    (devicesWithoutSession : list DeviceIdentity.t)
    (existingEncryptionTargets : list TargetRef) (timestamp : Z) (w : World)
  : Result (list EncryptedMessage.t) * list TargetRef * World :=
  let encryptionTargets := [] in
  match
    (if negb (Nat.eqb (length devicesWithoutSession) 0)
     then _createNewSessions devicesWithoutSession hsApi timestamp w
     else (Ok [], w))
  with
  | (Throw err, w) => (Throw err, encryptionTargets, w)
  | (Ok newEncryptionTargets, w) =>
      let encryptionTargets := encryptionTargets ++ newEncryptionTargets in
      match _loadSessions existingEncryptionTargets w with
      | (Throw err, w) => (Throw err, encryptionTargets, w)
      | (Ok _, w) =>
          let encryptionTargets :=
            encryptionTargets ++ existingEncryptionTargets in
          match map_i (fun target _ => encrypt_map_callback type content target)
                  0 encryptionTargets w with
          | (Throw err, w) => (Throw err, encryptionTargets, w)
          | (Ok messages, w) =>
              match _storeSessions encryptionTargets timestamp w with
              | (Throw err, w) => (Throw err, encryptionTargets, w)
              | (Ok _, w) => (Ok messages, encryptionTargets, w)
              end
          end
      end
  end.

Definition encrypt (type : string) (content : JsValue)
    (devices : list DeviceIdentity.t) (hsApi : HsApi)
  : M (list EncryptedMessage.t) :=
  let* (devicesWithoutSession, existingEncryptionTargets) :=
    _findExistingSessions devices in
  let timestamp := _now this in
  fun w =>
    let '(outcome, encryptionTargets, w) :=
      encrypt_try type content hsApi devicesWithoutSession
        existingEncryptionTargets timestamp w in
    (* finally *)
    match for_of encryptionTargets dispose w with
    | (Throw err, w) => (Throw err, w)
    | (Ok _, w) => (outcome, w)
    end.

End Encryption_methods.

(** * The tile of an encrypted event: [EncryptedEventTile.js] *)

(** [entry.decryptionError], as far as the tile reads it; a field that is
    not there is [None]. *)
Module DecryptionError.
Record t : Type := mk {
  code : option string;
  message : option string
}.
End DecryptionError.

(** A timeline entry, as far as the tile reads it. *)
Module EventEntry.
Record t : Type := mk {
  eventType : string;
  decryptionError : option DecryptionError.t
}.
End EventEntry.

(** The parent class [MessageTile] and [UpdateAction] are not part of the
    sources: what [super.updateEntry(entry, params)] returns,
    [UpdateAction.Replace] and the translation tag [this.i18n] are
    parameters of the tile. *)
Module EncryptedEventTile.

Section Tile.

Context {UpdateAction Params : Type}.
Variable Replace : string -> UpdateAction.
Variable super_updateEntry : EventEntry.t -> Params -> UpdateAction.
Variable i18n : string -> string.

Definition updateEntry (entry : EventEntry.t) (params : Params)
  : UpdateAction :=
  let parentResult := super_updateEntry entry params in
  if negb (String.eqb (EventEntry.eventType entry) "m.room.encrypted")
  then Replace "shape"
  else parentResult.

Definition shape : string := "message-status".

(** The text of the second template of [text]: the source has the double
    quotes inside the template, so they are part of the text. *)
Definition unknown_reason : string :=
  String "034"%char
    ("Could not decrypt message because of unknown reason."
     +:+ String "034"%char EmptyString).

(** [get text()], for the entry the tile holds. *)
Definition text (_entry : EventEntry.t) : string :=
  let decryptionError := EventEntry.decryptionError _entry in
  let code := decryptionError ≫= DecryptionError.code in
  if bool_decide (code = Some "MEGOLM_NO_SESSION") then
    i18n "The sender hasn't sent us the key for this message yet."
  else
    match decryptionError ≫= DecryptionError.message with
    | Some message =>
        (* [message || ...]: the empty string is falsy *)
        if String.eqb message "" then i18n unknown_reason else message
    | None => i18n unknown_reason
    end.

End Tile.

End EncryptedEventTile.

(** * Notions used in the statements *)

(** The world after [objs] have been constructed. *)
Definition alloc (objs : list EncryptionTarget.t) (w : World) : World :=
  {| targets := targets w ++ objs; next_session := next_session w;
     next_txn := next_txn w; trace := trace w |}.

(** The world after [evs] have been logged. *)
Definition add_events (evs : list Event) (w : World) : World :=
  {| targets := targets w; next_session := next_session w;
     next_txn := next_txn w; trace := trace w ++ evs |}.

(** The world once a transaction has been opened. *)
Definition txn_opened (w : World) : World :=
  {| targets := targets w; next_session := next_session w;
     next_txn := S (next_txn w); trace := trace w |}.

(** The step of the reduction of [findFirstSessionId] once the accumulator
    holds an id. *)
Definition smaller (first sessionId : string) : string :=
  if js_lt sessionId (Some first) then sessionId else first.

(** A string of ASCII characters, as the base64 ids of olm are. *)
Definition ascii_only (s : string) : Prop :=
  Forall (fun c => (N_of_ascii c < 128)%N) (list_ascii_of_string s).

(** The first argument that [_claimOneTimeKeys] gives to
    [_verifyAndCreateOTKTargets]. *)
Definition devicesByUser_of (deviceIdentities : list DeviceIdentity.t)
  : list (string * list (string * DeviceIdentity.t)) :=
  groupByWithCreator deviceIdentities DeviceIdentity.userId (fun _ => [])
    (fun deviceMap device =>
       obj_set (DeviceIdentity.deviceId device) device deviceMap).

(** [devicesByUser.get(userId)?.get(deviceId)]. *)
Definition lookup_device
    (devicesByUser : list (string * list (string * DeviceIdentity.t)))
    (userId deviceId : string) : option DeviceIdentity.t :=
  obj_get userId devicesByUser ≫= obj_get deviceId.

(** [map] groups [devices] by user id and then by device id. *)
Record grouped (devices : list DeviceIdentity.t)
    (map : list (string * list (string * DeviceIdentity.t))) : Prop := {
  grouped_sound : forall u d device,
    lookup_device map u d = Some device ->
    device ∈ devices /\ DeviceIdentity.userId device = u /\
    DeviceIdentity.deviceId device = d;
  grouped_complete : forall device,
    device ∈ devices ->
    is_Some (lookup_device map (DeviceIdentity.userId device)
               (DeviceIdentity.deviceId device));
  grouped_users : NoDup (map.*1);
  grouped_devices : forall u deviceMap,
    (u, deviceMap) ∈ map -> NoDup (deviceMap.*1) /\ deviceMap <> []
}.

(** The object under [one_time_keys] for one user. *)
Definition devices_obj (deviceMap : list (string * DeviceIdentity.t))
  : list (string * JsValue) :=
  fold_left
    (fun devicesObj device =>
       prop_set (DeviceIdentity.deviceId device) (JsStr OTK_ALGORITHM) devicesObj)
    (map snd deviceMap) [].

(** The object under [one_time_keys]. *)
Definition users_obj
    (devicesByUser : list (string * list (string * DeviceIdentity.t)))
  : list (string * JsValue) :=
  fold_left
    (fun usersObj entry => prop_set entry.1 (JsObj (devices_obj entry.2)) usersObj)
    devicesByUser [].

(** [o] is the target that an entry [deviceId: deviceSection] of the
    section of [userId] in a claim response gives rise to. *)
Definition accepted (this : Encryption)
    (devicesByUser : list (string * list (string * DeviceIdentity.t)))
    (userId deviceId : string) (deviceSection : DeviceSection)
    (o : EncryptionTarget.t) : Prop :=
  exists firstPropName keySection rest device,
    deviceSection = (firstPropName, keySection) :: rest /\
    before_colon firstPropName = OTK_ALGORITHM /\
    lookup_device devicesByUser userId deviceId = Some device /\
    verifyEd25519Signature (_olmUtil this) userId deviceId
      (DeviceIdentity.ed25519Key device) keySection = true /\
    o = EncryptionTarget.mk device (Some (KeySection.key keySection)) None None.

(** The response with only the first property of every device section. *)
Definition first_entries (userKeyMap : UserKeyMap) : UserKeyMap :=
  map (fun '(userId, userSection) =>
         (userId,
          map (fun '(deviceId, deviceSection) => (deviceId, take 1 deviceSection))
            userSection))
      userKeyMap.

(** The answer of the store for a device, [undefined] standing in for a
    rejected read. *)
Definition sessionIds_of (this : Encryption) (device : DeviceIdentity.t)
  : option (list string) :=
  match getSessionIds (_storage this) (DeviceIdentity.curve25519Key device) with
  | Ok sessionIds => sessionIds
  | Throw _ => None
  end.

(** The target [_findExistingSessions] constructs for a device. *)
Definition existing_target (this : Encryption) (device : DeviceIdentity.t)
  : option EncryptionTarget.t :=
  if has_length (sessionIds_of this device) then
    Some (EncryptionTarget.mk device None
            (findFirstSessionId (default [] (sessionIds_of this device))) None)
  else None.

(** The callback of the second [devices.map] of [_findExistingSessions]. *)
Definition construct_target (l : list (option (list string)))
    (device : DeviceIdentity.t) (i : nat) : M (option TargetRef) :=
  let sessionIds := mjoin (l !! i) in
  if has_length sessionIds then
    let sessionId := findFirstSessionId (default [] sessionIds) in
    let* target := fromSessionId device sessionId in
    ret (Some target)
  else ret None.

(** What the body of the loop of [_storeSessions] does for one target: the
    entry it hands to the store, or the exception. *)
Definition write_outcome (this : Encryption) (timestamp : Z) (w : World)
    (target : TargetRef) : Result SessionEntry.t :=
  match targets w !! target with
  | None => Throw TypeError
  | Some o =>
      match createSessionEntry (_olm this) (EncryptionTarget.session o)
              (DeviceIdentity.curve25519Key (EncryptionTarget.device o))
              timestamp (_pickleKey this) with
      | Throw err => Throw err
      | Ok sessionEntry =>
          if set_succeeds (_storage this) sessionEntry then Ok sessionEntry
          else Throw StorageError
      end
  end.

(** The body of the loop of [_storeSessions]. *)
Definition store_body (this : Encryption) (timestamp : Z) (txn : TxnId)
    (target : TargetRef) : M unit :=
  let* o := deref target in
  let* sessionEntry :=
    lift (createSessionEntry (_olm this) (EncryptionTarget.session o)
            (DeviceIdentity.curve25519Key (EncryptionTarget.device o))
            timestamp (_pickleKey this)) in
  olmSessions_set this txn target sessionEntry.

(** The body of the loop of [_createNewSessions]. *)
Definition create_body (this : Encryption) (target : TargetRef) : M unit :=
  let* o := deref target in
  let device := EncryptionTarget.device o in
  let oneTimeKey := EncryptionTarget.oneTimeKey o in
  let* s := createOutboundOlmSession this target
              (DeviceIdentity.curve25519Key device) oneTimeKey in
  set_session target s.

Definition is_abort (txn : TxnId) (ev : Event) : bool :=
  match ev with
  | EvAbort txn' => Nat.eqb txn txn'
  | _ => false
  end.

Definition is_complete (txn : TxnId) (ev : Event) : bool :=
  match ev with
  | EvComplete txn' => Nat.eqb txn txn'
  | _ => false
  end.

(** The entries that a log shows as durably written: set in a transaction
    that was not aborted, on which [complete()] was called, and whose
    commit the store carried out. *)
Definition durable_writes (storage : Storage) (log : list Event)
  : list SessionEntry.t :=
  omap (fun ev =>
          match ev with
          | EvSet txn _ sessionEntry =>
              if existsb (is_complete txn) log
                 && negb (existsb (is_abort txn) log)
                 && complete_succeeds storage txn
              then Some sessionEntry
              else None
          | _ => None
          end) log.

Definition session_of (w : World) (target : TargetRef) : option SessionHandle :=
  targets w !! target ≫= EncryptionTarget.session.

Definition is_free (s : SessionHandle) (ev : Event) : bool :=
  match ev with
  | EvFree s' => Nat.eqb s s'
  | _ => false
  end.

(** How often [free()] was called on the session [s]. *)
Definition count_free (s : SessionHandle) (log : list Event) : nat :=
  length (List.filter (is_free s) log).

(** Sessions are handed out in increasing order: what the heap holds and
    what has been freed lies below the next handle. *)
Record wf (w : World) : Prop := {
  wf_heap : forall target s, session_of w target = Some s -> s < next_session w;
  wf_freed : forall s, EvFree s ∈ trace w -> s < next_session w
}.

(** A step that reassigns the sessions of the targets in [touched] only,
    constructs no target, and logs events that satisfy [P]. *)
Record touches (touched : list TargetRef) (P : Event -> Prop) (w w' : World)
  : Prop := {
  touches_length : length (targets w') = length (targets w);
  touches_frame : forall target,
    target ∉ touched -> targets w' !! target = targets w !! target;
  touches_device : forall target,
    EncryptionTarget.device <$> targets w' !! target
    = EncryptionTarget.device <$> targets w !! target;
  touches_trace : exists evs, trace w' = trace w ++ evs /\ Forall P evs;
  touches_wf : wf w -> wf w'
}.

(** The events of [target.dispose()] for all of [encryptionTargets]. *)
Definition frees (heap : list EncryptionTarget.t)
    (encryptionTargets : list TargetRef) : list Event :=
  omap (fun target => EvFree <$> (heap !! target ≫= EncryptionTarget.session))
    encryptionTargets.

(** Events of the sessions made from a key claim: a session is created and
    an entry is set for one of the [owners] only. *)
Definition sets_only_for (owners : list TargetRef) (ev : Event) : Prop :=
  match ev with
  | EvSet _ owner _ => owner ∈ owners
  | EvCreateOutbound owner _ => owner ∈ owners
  | EvFree _ | EvReadWriteTxn _ | EvAbort _ | EvComplete _ => True
  | _ => False
  end.


Definition load_event (ev : Event) : Prop :=
  match ev with
  | EvReadTxn _ | EvNewSession _ | EvUnpickle _ _ => True
  | _ => False
  end.

(** The state of a load phase that started in [w0] for the targets of
    [batch]: only they have been given sessions, all of them new and no two
    the same, and nothing was freed or written. *)
Record loading (batch : list TargetRef) (w0 w : World) : Prop := {
  loading_length : length (targets w) = length (targets w0);
  loading_frame : forall target,
    target ∉ batch -> targets w !! target = targets w0 !! target;
  loading_sessions : forall target s,
    target ∈ batch -> session_of w target = Some s ->
    next_session w0 <= s < next_session w;
  loading_distinct : forall target target' s,
    target ∈ batch -> target' ∈ batch ->
    session_of w target = Some s -> session_of w target' = Some s ->
    target = target';
  loading_trace : exists evs, trace w = trace w0 ++ evs /\ Forall load_event evs;
  loading_next : next_session w0 <= next_session w
}.

(** ** Invariants of the world *)

(** The method [m] keeps the property [I] of the world, whether it returns
    or throws. *)
Definition preserves {A : Type} (I : World -> Prop) (m : M A) : Prop :=
  forall w, I w -> I (m w).2.

(** A target stands for a device with a claimed one-time key, or for a
    device with the id of a stored session. *)
Definition key_or_session_id (o : EncryptionTarget.t) : Prop :=
  (is_Some (EncryptionTarget.oneTimeKey o) /\ EncryptionTarget.sessionId o = None)
  \/ (EncryptionTarget.oneTimeKey o = None /\ is_Some (EncryptionTarget.sessionId o)).

(** [o] with its field [session] assigned. *)
Definition with_session (s : SessionHandle) (o : EncryptionTarget.t)
  : EncryptionTarget.t :=
  EncryptionTarget.mk (EncryptionTarget.device o) (EncryptionTarget.oneTimeKey o)
    (EncryptionTarget.sessionId o) (Some s).

(** Every target of the heap satisfies [P]. *)
Definition every_target (P : EncryptionTarget.t -> Prop) (w : World) : Prop :=
  Forall P (targets w).

(** The log has grown from [log0] by events that satisfy [P]. *)
Definition emitted (P : Event -> Prop) (log0 : list Event) (w : World) : Prop :=
  exists evs, trace w = log0 ++ evs /\ Forall P evs.

Definition is_claim (ev : Event) : bool :=
  match ev with
  | EvClaimKeys _ => true
  | _ => false
  end.

Definition is_session_encrypt (ev : Event) : bool :=
  match ev with
  | EvSessionEncrypt _ _ => true
  | _ => false
  end.

(** The events of a write transaction after it was opened. *)
Definition write_event (ev : Event) : Prop :=
  match ev with
  | EvSet _ _ _ | EvAbort _ | EvComplete _ | EvCommitted _ => True
  | _ => False
  end.

(** The second statement of the [try] block of [encrypt]: the sessions
    for the devices that have none. *)
Definition create_step (this : Encryption)
    (devicesWithoutSession : list DeviceIdentity.t) (hsApi : HsApi)
    (timestamp : Z) : M (list TargetRef) :=
  fun w =>
    if negb (Nat.eqb (length devicesWithoutSession) 0)
    then _createNewSessions this devicesWithoutSession hsApi timestamp w
    else (Ok [], w).

(** The [finally] block of [encrypt], entered with the outcome of the [try]
    block. *)
Definition finally_dispose {A : Type} (encryptionTargets : list TargetRef)
    (outcome : Result A) : M A :=
  fun w =>
    match for_of encryptionTargets dispose w with
    | (Throw err, w) => (Throw err, w)
    | (Ok _, w) => (outcome, w)
    end.

(** How many key claims a log holds. *)
Definition count_claims (log : list Event) : nat :=
  length (List.filter is_claim log).

(** The log has grown from [log0] by events with [n] key claims among
    them. *)
Definition claims_sent (n : nat) (log0 : list Event) (w : World) : Prop :=
  exists evs, trace w = log0 ++ evs /\ count_claims evs = n.

(** The log has grown from [log0] by events among which a claim with
    [payload] is the only key claim. *)
Definition claimed (payload : JsValue) (log0 : list Event) (w : World)
  : Prop :=
  exists before after,
    trace w = log0 ++ before ++ EvClaimKeys payload :: after /\
    Forall (fun ev => is_claim ev = false) before /\
    Forall (fun ev => is_claim ev = false) after.

(** The [try]/[catch] statement of [_createNewSessions]. *)
Definition create_block (this : Encryption)
    (newEncryptionTargets : list TargetRef) (timestamp : Z) : M unit :=
  try_catch
    (for_of newEncryptionTargets (create_body this) ;;
     unawaited (_storeSessions_prefix this newEncryptionTargets timestamp))
    (fun err => for_of newEncryptionTargets dispose).

(** Nothing has been freed, no two targets hold the same session, and the
    sessions the targets hold lie below the next handle. *)
Record clean (w : World) : Prop := {
  clean_fresh : forall target s,
    session_of w target = Some s -> s < next_session w;
  clean_distinct : forall target target' s,
    session_of w target = Some s -> session_of w target' = Some s ->
    target = target';
  clean_unfreed : forall s, EvFree s ∉ trace w
}.

(** No target holds a session. *)
Definition sessionless (o : EncryptionTarget.t) : Prop :=
  EncryptionTarget.session o = None.

(** The native sessions whose [unpickle] has thrown are orphans: no target
    holds them and [free()] has not been called on them. *)
Record orphans_kept (this : Encryption) (w : World) : Prop := {
  orphans_wf : wf w;
  orphans_below : forall s pickled,
    EvUnpickle s pickled ∈ trace w -> s < next_session w;
  orphans_lost : forall s pickled,
    EvUnpickle s pickled ∈ trace w ->
    unpickle_succeeds (_olm this) (_pickleKey this) pickled = false ->
    (forall target, session_of w target <> Some s) /\ EvFree s ∉ trace w
}.

(** What the store answers when [_loadSessions] reads the session of a
    target. *)
Definition load_answer (this : Encryption) (o : EncryptionTarget.t)
  : Result (option SessionEntry.t) :=
  olmSessions_get (_storage this)
    (DeviceIdentity.curve25519Key (EncryptionTarget.device o))
    (EncryptionTarget.sessionId o).

(** The callback of [_loadSessions] fulfils for [target]: the store
    answers, and the entry, if there is one, unpickles. *)
Definition loads (this : Encryption) (w : World) (target : TargetRef) : bool :=
  match targets w !! target with
  | Some o =>
      match load_answer this o with
      | Ok (Some entry) =>
          unpickle_succeeds (_olm this) (_pickleKey this)
            (SessionEntry.session entry)
      | Ok None => true
      | Throw _ => false
      end
  | None => false
  end.

(** The devices of a list that have a given user id and device id. *)
Definition same_ids (userId deviceId : string) (device : DeviceIdentity.t)
  : bool :=
  String.eqb (DeviceIdentity.userId device) userId
  && String.eqb (DeviceIdentity.deviceId device) deviceId.

(** Every write transaction of the log has been ended, by [abort()] or by
    [complete()]. *)
Definition write_txns_ended (w : World) : Prop :=
  forall txn,
    EvReadWriteTxn txn ∈ trace w ->
    EvAbort txn ∈ trace w \/ EvComplete txn ∈ trace w.

Definition is_readWriteTxn (ev : Event) : bool :=
  match ev with
  | EvReadWriteTxn _ => true
  | _ => false
  end.

(** * Example devices and collaborators *)

Definition alice_phone : DeviceIdentity.t :=
  DeviceIdentity.mk "@alice:example.org" "ALICEPHONE" "curve-alice" "ed-alice".

Definition bob_laptop : DeviceIdentity.t :=
  DeviceIdentity.mk "@bob:example.org" "BOBLAPTOP" "curve-bob" "ed-bob".

Definition carol_tablet : DeviceIdentity.t :=
  DeviceIdentity.mk "@carol:example.org" "CAROLTABLET" "curve-carol" "ed-carol".

Definition example_content : JsValue :=
  JsObj [("msgtype", JsStr "m.text"); ("body", JsStr "hello")].

(** An account for which session creation fails with the keys in
    [refused]. *)
Definition example_account (refused : list string) : Account :=
  {| identityKeys_curve25519 := "curve-own";
     identityKeys_ed25519 := "ed-own";
     createOutbound_succeeds := fun theirIdentityKey _ =>
       negb (existsb (String.eqb theirIdentityKey) refused) |}.

Definition example_olm : Olm :=
  {| unpickle_succeeds := fun _ _ => true;
     session_encrypt := fun _ _ =>
       Ok (JsObj [("type", JsNum 0); ("body", JsStr "ciphertext")]);
     session_pickle := fun s _ =>
       match s with 0 => "pickle-0" | _ => "pickle-n" end;
     session_id := fun s => match s with 0 => "sid-0" | _ => "sid-n" end |}.

(** A signature checks when the section carries, for the user and the
    device, the name of the signing key. *)
Definition example_olmUtil : OlmUtil :=
  {| verifyEd25519Signature := fun userId deviceId ed25519Key keySection =>
       match obj_get userId (KeySection.signatures keySection)
               ≫= obj_get ("ed25519:" +:+ deviceId) with
       | Some signature => String.eqb signature ed25519Key
       | None => false
       end |}.

(** A store with the session ids [ids] gives per curve25519 key; reading a
    session fails for the keys in [unreadable]. *)
Definition example_storage (ids : list (string * list string))
    (unreadable : list string) (delay : nat) : Storage :=
  {| getSessionIds := fun senderKey => Ok (obj_get senderKey ids);
     olmSessions_get := fun senderKey sessionId =>
       if existsb (String.eqb senderKey) unreadable then Throw StorageError
       else Ok (Some (SessionEntry.mk "pickled" (default "" sessionId)
                        senderKey 0));
     set_succeeds := fun _ => true;
     complete_succeeds := fun _ => true;
     load_order := fun encryptionTargets => encryptionTargets;
     load_delay := delay |}.

Definition example_encryption (refused : list string) (storage : Storage)
  : Encryption :=
  {| _account := example_account refused;
     _olm := example_olm;
     _olmUtil := example_olmUtil;
     _userId := "@me:example.org";
     _storage := storage;
     _now := 1600000000000;
     _pickleKey := "pickle-key" |}.

(** The device section of a claim response for [device]: one key of the
    algorithm [algorithm], signed by the device. *)
Definition claimed_key (algorithm : string) (device : DeviceIdentity.t)
  : string * DeviceSection :=
  (DeviceIdentity.deviceId device,
   [(algorithm +:+ ":AAAAAQ",
     KeySection.mk ("otk-" +:+ DeviceIdentity.deviceId device)
       [(DeviceIdentity.userId device,
         [("ed25519:" +:+ DeviceIdentity.deviceId device,
           DeviceIdentity.ed25519Key device)])])]).

(** A homeserver that answers every claim with [userKeyMap]. *)
Definition example_hsApi (userKeyMap : UserKeyMap) : HsApi :=
  {| claimKeys := fun _ => Ok (Some userKeyMap) |}.

(** The sessions of the scenario of the design document: one for the
    device of alice, two for the device of bob. *)
Definition known_sessions : list (string * list string) :=
  [("curve-alice", ["s1"]); ("curve-bob", ["s3"; "s1"])].

(** An olm library in which no stored session unpickles. *)
Definition corrupt_olm : Olm :=
  {| unpickle_succeeds := fun _ _ => false;
     session_encrypt := session_encrypt example_olm;
     session_pickle := session_pickle example_olm;
     session_id := session_id example_olm |}.

Definition corrupt_encryption (storage : Storage) : Encryption :=
  {| _account := example_account [];
     _olm := corrupt_olm;
     _olmUtil := example_olmUtil;
     _userId := "@me:example.org";
     _storage := storage;
     _now := 1600000000000;
     _pickleKey := "pickle-key" |}.

(** A store that rejects the read of the session ids of every device. *)
Definition unreadable_storage : Storage :=
  {| getSessionIds := fun _ => Throw StorageError;
     olmSessions_get := fun _ _ => Throw StorageError;
     set_succeeds := fun _ => true;
     complete_succeeds := fun _ => true;
     load_order := fun encryptionTargets => encryptionTargets;
     load_delay := 0 |}.

(** A store with the session ids [ids] that has lost the entries of the
    sessions of the keys in [missing]. *)
Definition forgetful_storage (ids : list (string * list string))
    (missing : list string) : Storage :=
  {| getSessionIds := fun senderKey => Ok (obj_get senderKey ids);
     olmSessions_get := fun senderKey sessionId =>
       if existsb (String.eqb senderKey) missing then Ok None
       else Ok (Some (SessionEntry.mk "pickled" (default "" sessionId)
                        senderKey 0));
     set_succeeds := fun _ => true;
     complete_succeeds := fun _ => true;
     load_order := fun encryptionTargets => encryptionTargets;
     load_delay := 0 |}.

(** A store that has no session and rejects the write of every session
    of the keys in [rejected]. *)
Definition picky_storage (rejected : list string) : Storage :=
  {| getSessionIds := fun _ => Ok None;
     olmSessions_get := fun _ _ => Ok None;
     set_succeeds := fun sessionEntry =>
       negb (existsb (String.eqb (SessionEntry.senderKey sessionEntry))
               rejected);
     complete_succeeds := fun _ => true;
     load_order := fun encryptionTargets => encryptionTargets;
     load_delay := 0 |}.

(** A world in which the devices of alice, bob and carol have each a target
    with a new session. *)
Definition three_new_sessions : World :=
  {| targets :=
       [EncryptionTarget.mk alice_phone (Some "otk-a") None (Some 0);
        EncryptionTarget.mk bob_laptop (Some "otk-b") None (Some 1);
        EncryptionTarget.mk carol_tablet (Some "otk-c") None (Some 2)];
     next_session := 3; next_txn := 0; trace := [] |}.

(** A homeserver that rejects every claim. *)
Definition unreachable_hsApi : HsApi :=
  {| claimKeys := fun _ => Throw NetworkError |}.

(** * Properties *)

(** ** The order of session ids *)

Section Code_unit_order.

Lemma units_ltb_irrefl (xs : list N) : units_ltb xs xs = false.
Proof.
  induction xs as [|x xs IH]; [done|]. cbn.
  by rewrite N.ltb_irrefl, N.eqb_refl, IH.
Qed.

Lemma units_ltb_trans (xs ys zs : list N) :
  units_ltb xs ys = true -> units_ltb ys zs = true -> units_ltb xs zs = true.
Proof.
  revert ys zs. induction xs as [|x xs IH]; intros [|y ys] [|z zs]; cbn;
    try done.
  rewrite !orb_true_iff, !andb_true_iff, !N.ltb_lt, !N.eqb_eq.
  intros [Hxy|[-> Hxs]] [Hyz|[-> Hys]].
  - left. lia.
  - by left.
  - by left.
  - right. split; [done|]. by apply (IH ys).
Qed.

(** Of two different sequences one is below the other. *)
Lemma units_ltb_total (xs ys : list N) :
  units_ltb xs ys = false -> units_ltb ys xs = true \/ xs = ys.
Proof.
  revert ys. induction xs as [|x xs IH]; intros [|y ys]; cbn; try done.
  - by right.
  - by left.
  - rewrite orb_false_iff, andb_false_iff, N.ltb_ge, N.eqb_neq.
    rewrite orb_true_iff, andb_true_iff, N.ltb_lt, N.eqb_eq.
    intros [Hle [Hne|Hxs]].
    + left. left. lia.
    + destruct (N.eq_dec x y) as [->|Hne]; [| left; left; lia].
      destruct (IH ys Hxs) as [Hlt| ->]; [left; by right | by right].
Qed.

Lemma units_ltb_antisym (xs ys : list N) :
  units_ltb xs ys = false -> units_ltb ys xs = false -> xs = ys.
Proof.
  intros Hxy Hyx. destruct (units_ltb_total xs ys Hxy) as [H|H]; [| done].
  by rewrite H in Hyx.
Qed.

Lemma js_lt_irrefl (s : string) : js_lt s (Some s) = false.
Proof. apply units_ltb_irrefl. Qed.

Lemma js_lt_trans (s t u : string) :
  js_lt s (Some t) = true -> js_lt t (Some u) = true -> js_lt s (Some u) = true.
Proof. apply units_ltb_trans. Qed.

(** An id that is not below [t] is above everything [t] is above. *)
Lemma js_lt_not_below (s t u : string) :
  js_lt s (Some t) = false -> js_lt s (Some u) = true ->
  js_lt t (Some u) = true.
Proof.
  unfold js_lt. intros Hst Hsu.
  destruct (units_ltb_total _ _ Hst) as [Hts|Heq].
  - by apply (units_ltb_trans _ (code_units s)).
  - by rewrite <- Heq.
Qed.

(** An ASCII character is its own code unit, so ASCII strings with the
    same code units are the same string. *)
Lemma utf16_units_ascii (bytes : list N) :
  Forall (fun b => (b < 128)%N) bytes -> utf16_units bytes = bytes.
Proof.
  induction 1 as [|b bytes Hb _ IH]; [done|]. cbn [utf16_units].
  apply N.ltb_lt in Hb. by rewrite Hb, IH.
Qed.

Lemma code_units_ascii (s : string) :
  ascii_only s -> code_units s = map N_of_ascii (list_ascii_of_string s).
Proof.
  intros Hs. unfold code_units. apply utf16_units_ascii.
  by apply Forall_map.
Qed.

Lemma code_units_inj_ascii (s t : string) :
  ascii_only s -> ascii_only t -> code_units s = code_units t -> s = t.
Proof.
  intros Hs Ht. rewrite !code_units_ascii by done. intros E.
  rewrite <- (string_of_list_ascii_of_string s),
    <- (string_of_list_ascii_of_string t). f_equal.
  revert E. generalize (list_ascii_of_string s) (list_ascii_of_string t).
  induction l as [|a l IH]; intros [|b l']; cbn; try done.
  intros [= Hab Hl]. f_equal; [| by apply IH].
  by rewrite <- (ascii_N_embedding a), <- (ascii_N_embedding b), Hab.
Qed.

End Code_unit_order.

(** ** [findFirstSessionId] on ids that are not empty *)

Lemma falsy_nonempty (s : string) : s <> "" -> falsy (Some s) = false.
Proof. intros Hs. simpl. now apply String.eqb_neq. Qed.

Lemma smaller_nonempty (f s : string) : f <> "" -> s <> "" -> smaller f s <> "".
Proof. unfold smaller. now destruct (js_lt s (Some f)). Qed.

Lemma reduce_from_id (ids : list string) (first : string) :
  first <> "" -> Forall (fun s => s <> "") ids ->
  fold_left
    (fun first sessionId =>
       if falsy first || js_lt sessionId first then Some sessionId else first)
    ids (Some first)
  = Some (fold_left smaller ids first).
Proof.
  revert first. induction ids as [|s ids IH]; intros first Hf Hall; [done|].
  inversion Hall as [|? ? Hs Hids]; subst. cbn [fold_left].
  rewrite (falsy_nonempty first Hf). cbn [orb].
  replace (if js_lt s (Some first) then Some s else Some first)
    with (Some (smaller first s))
    by (unfold smaller; now destruct (js_lt s (Some first))).
  apply IH; [now apply smaller_nonempty | done].
Qed.

Lemma findFirstSessionId_cons (s : string) (ids : list string) :
  Forall (fun s => s <> "") (s :: ids) ->
  findFirstSessionId (s :: ids) = Some (fold_left smaller ids s).
Proof.
  intros Hall. inversion Hall; subst.
  unfold findFirstSessionId. cbn [fold_left falsy orb].
  now apply reduce_from_id.
Qed.

Lemma fold_smaller_elem (ids : list string) (first : string) :
  fold_left smaller ids first ∈ first :: ids.
Proof.
  revert first. induction ids as [|s ids IH]; intros first; cbn [fold_left].
  - apply list_elem_of_here.
  - specialize (IH (smaller first s)).
    apply elem_of_cons in IH as [IH|IH].
    + rewrite IH. unfold smaller.
      destruct (js_lt s (Some first)); repeat constructor.
    + now do 2 constructor.
Qed.

(** No id is below the one the reduction ends with. *)
Lemma fold_smaller_lower_bound (ids : list string) (first : string) :
  Forall (fun s => js_lt s (Some (fold_left smaller ids first)) = false)
    (first :: ids).
Proof.
  revert first. induction ids as [|s ids IH]; intros first; cbn [fold_left].
  - repeat constructor. apply js_lt_irrefl.
  - specialize (IH (smaller first s)).
    inversion IH as [|? ? Hhd Htl]; subst.
    set (m := fold_left smaller ids (smaller first s)) in *.
    assert (js_lt first (Some m) = false /\ js_lt s (Some m) = false)
      as [H1 H2].
    { revert Hhd. unfold smaller.
      destruct (js_lt s (Some first)) eqn:Hlt; intros Hhd.
      - split; [| done].
        destruct (js_lt first (Some m)) eqn:Hfm; [| done].
        by rewrite (js_lt_trans s first m Hlt Hfm) in Hhd.
      - split; [done|].
        destruct (js_lt s (Some m)) eqn:Hsm; [| done].
        by rewrite (js_lt_not_below s first m Hlt Hsm) in Hhd. }
    by repeat constructor.
Qed.

(** What [findFirstSessionId] returns on a non-empty array of non-empty
    ids: an element of the array that none of the others is below. *)
Lemma findFirstSessionId_least (ids : list string) :
  ids <> [] -> Forall (fun s => s <> "") ids ->
  exists m, findFirstSessionId ids = Some m /\ m ∈ ids /\
            Forall (fun s => js_lt s (Some m) = false) ids.
Proof.
  destruct ids as [|s ids]; [done|]. intros _ Hall.
  exists (fold_left smaller ids s). split; [now apply findFirstSessionId_cons|].
  split; [apply fold_smaller_elem | apply fold_smaller_lower_bound].
Qed.

(** From a reordering it returns an id with the same code units, that is,
    the same JavaScript string. *)
Lemma findFirstSessionId_permutation (ids ids' : list string) (m : string) :
  Forall (fun s => s <> "") ids -> ids' ≡ₚ ids ->
  findFirstSessionId ids = Some m ->
  exists m', findFirstSessionId ids' = Some m' /\ m' ∈ ids' /\
             code_units m' = code_units m.
Proof.
  intros Hall Hperm Hm.
  assert (ids <> []) as Hne by (by intros ->).
  assert (ids' <> []) as Hne'.
  { intros ->. apply Permutation_nil in Hperm. done. }
  assert (Forall (fun s => s <> "") ids') as Hall' by now rewrite Hperm.
  destruct (findFirstSessionId_least ids Hne Hall) as (m0 & Hm0 & Hin & Hle).
  rewrite Hm in Hm0. injection Hm0 as <-.
  destruct (findFirstSessionId_least ids' Hne' Hall') as (m' & -> & Hin' & Hle').
  exists m'. split; [done|]. split; [done|].
  apply units_ltb_antisym.
  - rewrite Forall_forall in Hle. apply (Hle m'). now rewrite <- Hperm.
  - rewrite Forall_forall in Hle'. apply (Hle' m). now rewrite Hperm.
Qed.

(** ** Objects and maps as entry lists *)

Lemma obj_get_set {V : Type} (k k' : string) (v : V) (o : list (string * V)) :
  obj_get k (obj_set k' v o) = if String.eqb k k' then Some v else obj_get k o.
Proof.
  induction o as [|[k0 v0] o IH]; cbn [obj_set obj_get].
  - reflexivity.
  - destruct (String.eqb k' k0) eqn:Hk'; cbn [obj_get].
    + apply String.eqb_eq in Hk'. subst k0.
      now destruct (String.eqb k k').
    + rewrite IH. destruct (String.eqb k k0) eqn:Hk; [|reflexivity].
      apply String.eqb_eq in Hk. subst k0.
      destruct (String.eqb k k') eqn:Hkk'; [|reflexivity].
      apply String.eqb_eq in Hkk'. subst k'.
      rewrite String.eqb_refl in Hk'. discriminate.
Qed.

Lemma obj_set_keys {V : Type} (k k0 : string) (v : V) (o : list (string * V)) :
  k0 ∈ (obj_set k v o).*1 -> k0 = k \/ k0 ∈ o.*1.
Proof.
  induction o as [|[k1 v1] o IH]; cbn [obj_set fmap list_fmap].
  - intros Hin. apply list_elem_of_singleton in Hin. now left.
  - destruct (String.eqb k k1) eqn:Hk; cbn [fmap list_fmap fst];
      intros Hin; apply elem_of_cons in Hin as [Hin|Hin].
    + now left.
    + right. now right.
    + right. subst. now left.
    + destruct (IH Hin) as [?|?]; [now left|]. right. now right.
Qed.

Lemma obj_set_keys_NoDup {V : Type} (k : string) (v : V) (o : list (string * V)) :
  NoDup (o.*1) -> NoDup ((obj_set k v o).*1).
Proof.
  induction o as [|[k0 v0] o IH]; cbn [obj_set fmap list_fmap]; intros Hnd.
  - repeat constructor. inversion 1.
  - apply NoDup_cons in Hnd as [Hnotin Hnd].
    destruct (String.eqb k k0) eqn:Hk.
    + apply String.eqb_eq in Hk. subst k0. now constructor.
    + apply String.eqb_neq in Hk. cbn. constructor; [|now apply IH].
      intros Hin. apply obj_set_keys in Hin as [Hin|Hin]; [congruence|done].
Qed.

Lemma obj_get_elem {V : Type} (k : string) (v : V) (o : list (string * V)) :
  obj_get k o = Some v -> (k, v) ∈ o.
Proof.
  induction o as [|[k0 v0] o IH]; cbn [obj_get]; [done|].
  destruct (String.eqb k k0) eqn:Hk.
  - apply String.eqb_eq in Hk. intros [= ->]. subst. now left.
  - intros H. right. now apply IH.
Qed.

Lemma obj_get_NoDup {V : Type} (k : string) (v : V) (o : list (string * V)) :
  NoDup (o.*1) -> (k, v) ∈ o -> obj_get k o = Some v.
Proof.
  induction o as [|[k0 v0] o IH]; cbn [obj_get fmap list_fmap]; intros Hnd Hin.
  - inversion Hin.
  - apply NoDup_cons in Hnd as [Hnotin Hnd].
    apply elem_of_cons in Hin as [Hin|Hin].
    + injection Hin as -> ->. now rewrite String.eqb_refl.
    + destruct (String.eqb k k0) eqn:Hk; [|now apply IH].
      apply String.eqb_eq in Hk. subst k0. exfalso. apply Hnotin.
      apply list_elem_of_fmap. now exists (k, v).
Qed.

(** Folding assignments into an object. *)
Section Fold_set.

Context {X V : Type} (fk : X -> string) (fv : X -> V).

Lemma fold_set_other (k : string) (xs : list X) (o : list (string * V)) :
  Forall (fun x => fk x <> k) xs ->
  obj_get k (fold_left (fun o x => obj_set (fk x) (fv x) o) xs o) = obj_get k o.
Proof.
  revert o. induction xs as [|x xs IH]; intros o Hall; [done|].
  inversion Hall as [|? ? Hx Hxs]; subst. cbn [fold_left].
  rewrite IH by done. rewrite obj_get_set.
  destruct (String.eqb k (fk x)) eqn:Hk; [|done].
  apply String.eqb_eq in Hk. congruence.
Qed.

Lemma fold_set_found (k : string) (v : V) (xs : list X) (o : list (string * V)) :
  Exists (fun x => fk x = k) xs ->
  Forall (fun x => fk x = k -> fv x = v) xs ->
  obj_get k (fold_left (fun o x => obj_set (fk x) (fv x) o) xs o) = Some v.
Proof.
  revert o. induction xs as [|x xs IH]; intros o Hex Hall;
    [inversion Hex|].
  inversion Hall as [|? ? Hx Hxs]; subst. cbn [fold_left].
  destruct (decide (Exists (fun x => fk x = k) xs)) as [Hin|Hnotin].
  - now apply IH.
  - inversion Hex as [? ? Hhd|? ? Htl]; subst; [|done].
    rewrite fold_set_other.
    + rewrite obj_get_set, String.eqb_refl. f_equal. auto.
    + apply Forall_forall. intros y Hy Hk. apply Hnotin.
      apply Exists_exists. eauto.
Qed.

Lemma fold_set_keys (k : string) (xs : list X) (o : list (string * V)) :
  k ∈ (fold_left (fun o x => obj_set (fk x) (fv x) o) xs o).*1 -> k ∈ o.*1 \/ Exists (fun x => fk x = k) xs.
Proof.
  revert o. induction xs as [|x xs IH]; intros o; cbn [fold_left];
    [now left|].
  intros Hin. destruct (IH _ Hin) as [Hk|Hk].
  - apply obj_set_keys in Hk as [->|Hk];
      [right; now left | now left].
  - right. now right.
Qed.

Lemma fold_set_NoDup (xs : list X) (o : list (string * V)) :
  NoDup (o.*1) -> NoDup ((fold_left (fun o x => obj_set (fk x) (fv x) o) xs o).*1).
Proof.
  revert o. induction xs as [|x xs IH]; intros o Hnd; [done|].
  cbn [fold_left]. apply IH. now apply obj_set_keys_NoDup.
Qed.

End Fold_set.

(** ** Grouping the devices by user and device id *)

Lemma grouped_nil : grouped [] [].
Proof.
  split.
  - intros u d device H. discriminate H.
  - intros device H. inversion H.
  - constructor.
  - intros u m H. inversion H.
Qed.

Lemma obj_set_elem {V : Type} (k k0 : string) (v v0 : V) (o : list (string * V)) :
  (k0, v0) ∈ obj_set k v o -> (k0 = k /\ v0 = v) \/ (k0, v0) ∈ o.
Proof.
  induction o as [|[k1 v1] o IH]; cbn [obj_set].
  - intros Hin. apply list_elem_of_singleton in Hin. left. now inversion Hin.
  - destruct (String.eqb k k1) eqn:Hk; intros Hin;
      apply elem_of_cons in Hin as [Hin|Hin].
    + left. now inversion Hin.
    + right. now right.
    + right. rewrite Hin. now left.
    + destruct (IH Hin) as [?|?]; [now left|]. right. now right.
Qed.

Lemma obj_set_nonempty {V : Type} (k : string) (v : V) (o : list (string * V)) :
  obj_set k v o <> [].
Proof. destruct o as [|[k0 v0] o]; cbn; [done|]. now destruct (String.eqb k k0). Qed.

Lemma grouped_step (devices : list DeviceIdentity.t)
    (map : list (string * list (string * DeviceIdentity.t)))
    (device : DeviceIdentity.t) :
  grouped devices map ->
  grouped (devices ++ [device])
    (obj_set (DeviceIdentity.userId device)
       (obj_set (DeviceIdentity.deviceId device) device
          (default [] (obj_get (DeviceIdentity.userId device) map)))
       map).
Proof.
  intros [Hsound Hcomplete Husers Hdevices].
  set (u0 := DeviceIdentity.userId device).
  set (d0 := DeviceIdentity.deviceId device).
  assert (forall u d,
    lookup_device
      (obj_set u0 (obj_set d0 device (default [] (obj_get u0 map))) map) u d
    = if String.eqb u u0 && String.eqb d d0 then Some device
      else lookup_device map u d) as Hlookup.
  { intros u d. unfold lookup_device. rewrite obj_get_set.
    destruct (String.eqb u u0) eqn:Hu; cbn [mbind option_bind andb]; [|done].
    apply String.eqb_eq in Hu. subst u. rewrite obj_get_set.
    destruct (String.eqb d d0); [done|].
    now destruct (obj_get u0 map). }
  split.
  - intros u d dev. rewrite Hlookup.
    destruct (String.eqb u u0 && String.eqb d d0) eqn:Hud.
    + apply andb_true_iff in Hud as [Hu Hd].
      apply String.eqb_eq in Hu, Hd. intros [= <-].
      split; [apply elem_of_app; right; now left | done].
    + intros H. destruct (Hsound _ _ _ H) as (? & ? & ?).
      split; [apply elem_of_app; now left | done].
  - intros dev Hin. rewrite Hlookup.
    destruct (String.eqb _ u0 && String.eqb _ d0) eqn:H; [done|].
    apply elem_of_app in Hin as [Hin|Hin]; [now apply Hcomplete|].
    apply list_elem_of_singleton in Hin. subst dev. fold u0 d0 in H.
    rewrite !String.eqb_refl in H. discriminate.
  - now apply obj_set_keys_NoDup.
  - intros u m Hin. apply obj_set_elem in Hin as [[-> ->]|Hin]; [|eauto].
    split; [|apply obj_set_nonempty]. apply obj_set_keys_NoDup.
    destruct (obj_get u0 map) as [m0|] eqn:Hget; cbn; [|constructor].
    apply obj_get_elem in Hget. now apply (Hdevices u0).
Qed.

Lemma devicesByUser_grouped (deviceIdentities : list DeviceIdentity.t) :
  grouped deviceIdentities (devicesByUser_of deviceIdentities).
Proof.
  unfold devicesByUser_of, groupByWithCreator.
  assert (forall l done map, grouped done map ->
    grouped (done ++ l)
      (fold_left
         (fun map value =>
            let key := DeviceIdentity.userId value in
            let collection := default [] (obj_get key map) in
            obj_set key (obj_set (DeviceIdentity.deviceId value) value collection)
              map) l map)) as Hgen.
  { induction l as [|device l IH]; intros done map Hg; cbn [fold_left].
    - now rewrite app_nil_r.
    - replace (done ++ device :: l) with ((done ++ [device]) ++ l)
        by now rewrite <- app_assoc.
      apply IH. now apply grouped_step. }
  apply (Hgen deviceIdentities [] []), grouped_nil.
Qed.

(** ** Targets created from a claim response *)

Lemma alloc_nil (w : World) : alloc [] w = w.
Proof. destruct w. unfold alloc. cbn. now rewrite app_nil_r. Qed.

Lemma alloc_alloc (a b : list EncryptionTarget.t) (w : World) :
  alloc b (alloc a w) = alloc (a ++ b) w.
Proof. unfold alloc. cbn. now rewrite app_assoc. Qed.

Lemma bind_run {A B : Type} (m : M A) (f : A -> M B) (w : World) :
  bind m f w =
  match m w with
  | (Ok a, w') => f a w'
  | (Throw e, w') => (Throw e, w')
  end.
Proof. reflexivity. Qed.

Section Claim_response.

Variable this : Encryption.
Variable devicesByUser : list (string * list (string * DeviceIdentity.t)).

Lemma verify_device_section_spec (userId deviceId : string)
    (deviceSection : DeviceSection) (acc : list TargetRef) (w : World) :
  exists objs,
    (verify_device_section this devicesByUser userId deviceId deviceSection
       acc w).2 = alloc objs w /\
    Forall (accepted this devicesByUser userId deviceId deviceSection) objs /\
    forall ts,
      (verify_device_section this devicesByUser userId deviceId deviceSection
         acc w).1 = Ok ts ->
      ts = acc ++ seq (length (targets w)) (length objs).
Proof.
  unfold verify_device_section.
  assert (exists objs : list EncryptionTarget.t,
    w = alloc objs w /\ Forall (accepted this devicesByUser userId deviceId deviceSection) objs /\
    forall ts, Ok acc = Ok ts -> ts = acc ++ seq (length (targets w)) (length objs))
    as Hskip.
  { exists []. rewrite alloc_nil. repeat split; [constructor|].
    intros ts [= <-]. cbn. now rewrite app_nil_r. }
  destruct deviceSection as [|[firstPropName keySection] rest].
  { exists []. rewrite alloc_nil. repeat split; [constructor|]. discriminate. }
  destruct (String.eqb (before_colon firstPropName) OTK_ALGORITHM) eqn:Halg;
    [|exact Hskip].
  fold (lookup_device devicesByUser userId deviceId).
  destruct (lookup_device devicesByUser userId deviceId) as [device|] eqn:Hdev;
    [|exact Hskip].
  destruct (verifyEd25519Signature _ _ _ _ _) eqn:Hsig; [|exact Hskip].
  exists [EncryptionTarget.mk device (Some (KeySection.key keySection)) None None].
  repeat split.
  - repeat constructor. exists firstPropName, keySection, rest, device.
    apply String.eqb_eq in Halg. done.
  - intros ts [= <-]. done.
Qed.

Lemma user_section_spec (userId : string) (userSection : UserSection)
    (acc : list TargetRef) (w : World) :
  let run :=
    for_of_pushing userSection
      (fun '(deviceId, deviceSection) =>
         verify_device_section this devicesByUser userId deviceId
           deviceSection) acc w in
  exists objs,
    run.2 = alloc objs w /\
    Forall (fun o => exists deviceId deviceSection,
              (deviceId, deviceSection) ∈ userSection /\
              accepted this devicesByUser userId deviceId deviceSection o) objs /\
    forall ts, run.1 = Ok ts ->
               ts = acc ++ seq (length (targets w)) (length objs).
Proof.
  revert acc w. induction userSection as [|[deviceId deviceSection] rest IH];
    intros acc w; cbn [for_of_pushing].
  - exists []. rewrite alloc_nil. repeat split; [constructor|].
    intros ts [= <-]. cbn. now rewrite app_nil_r.
  - rewrite bind_run.
    destruct (verify_device_section_spec userId deviceId deviceSection acc w)
      as (objs & Hw & Hobjs & Hts).
    destruct (verify_device_section _ _ _ _ _ _ _) as [[acc'|err] w'];
      cbn [fst snd] in *.
    + specialize (Hts _ eq_refl). subst acc' w'.
      destruct (IH (acc ++ seq (length (targets w)) (length objs))
                  (alloc objs w)) as (objs' & Hw' & Hobjs' & Hts').
      exists (objs ++ objs'). rewrite Hw', alloc_alloc. split; [done|]. split.
      * apply Forall_app. split.
        -- eapply Forall_impl; [exact Hobjs|]. intros o Ho.
           exists deviceId, deviceSection. split; [now left | done].
        -- eapply Forall_impl; [exact Hobjs'|].
           intros o (d & sec & Hin & Ho). exists d, sec.
           split; [now right | done].
      * intros ts Hrun. rewrite (Hts' _ Hrun). cbn [alloc targets].
        rewrite length_app, length_app, seq_app, app_assoc. done.
    + exists objs. split; [done|]. split; [|discriminate].
      eapply Forall_impl; [exact Hobjs|]. intros o Ho.
      exists deviceId, deviceSection. split; [now left | done].
Qed.

Lemma user_key_map_spec (entries : UserKeyMap) (acc : list TargetRef)
    (w : World) :
  let run :=
    for_of_pushing entries
      (fun '(userId, userSection) =>
         for_of_pushing userSection
           (fun '(deviceId, deviceSection) =>
              verify_device_section this devicesByUser userId deviceId
                deviceSection)) acc w in
  exists objs,
    run.2 = alloc objs w /\
    Forall (fun o => exists userId userSection deviceId deviceSection,
              (userId, userSection) ∈ entries /\
              (deviceId, deviceSection) ∈ userSection /\
              accepted this devicesByUser userId deviceId deviceSection o) objs /\
    forall ts, run.1 = Ok ts ->
               ts = acc ++ seq (length (targets w)) (length objs).
Proof.
  revert acc w. induction entries as [|[userId userSection] rest IH];
    intros acc w; cbn [for_of_pushing].
  - exists []. rewrite alloc_nil. repeat split; [constructor|].
    intros ts [= <-]. cbn. now rewrite app_nil_r.
  - rewrite bind_run.
    destruct (user_section_spec userId userSection acc w)
      as (objs & Hw & Hobjs & Hts). cbn zeta in *.
    destruct (for_of_pushing userSection _ acc w) as [[acc'|err] w'];
      cbn [fst snd] in *.
    + specialize (Hts _ eq_refl). subst acc' w'.
      destruct (IH (acc ++ seq (length (targets w)) (length objs))
                  (alloc objs w)) as (objs' & Hw' & Hobjs' & Hts').
      exists (objs ++ objs'). rewrite Hw', alloc_alloc. split; [done|]. split.
      * apply Forall_app. split.
        -- eapply Forall_impl; [exact Hobjs|]. intros o (d & sec & Hin & Ho).
           exists userId, userSection, d, sec. split; [now left | done].
        -- eapply Forall_impl; [exact Hobjs'|].
           intros o (u & us & d & sec & Hin & Ho). exists u, us, d, sec.
           split; [now right | done].
      * intros ts Hrun. rewrite (Hts' _ Hrun). cbn [alloc targets].
        rewrite length_app, length_app, seq_app, app_assoc. done.
    + exists objs. split; [done|]. split; [|discriminate].
      eapply Forall_impl; [exact Hobjs|]. intros o (d & sec & Hin & Ho).
      exists userId, userSection, d, sec. split; [now left | done].
Qed.

(** Every target that [_verifyAndCreateOTKTargets] constructs comes from
    an entry of the response that passed both checks, and nothing else in
    the world changes. *)
Lemma verifyAndCreateOTKTargets_spec (userKeyMap : option UserKeyMap)
    (w : World) :
  let run := _verifyAndCreateOTKTargets this userKeyMap devicesByUser w in
  exists objs,
    run.2 = alloc objs w /\
    Forall (fun o => exists entries userId userSection deviceId deviceSection,
              userKeyMap = Some entries /\
              (userId, userSection) ∈ entries /\
              (deviceId, deviceSection) ∈ userSection /\
              accepted this devicesByUser userId deviceId deviceSection o) objs /\
    forall ts, run.1 = Ok ts -> ts = seq (length (targets w)) (length objs).
Proof.
  unfold _verifyAndCreateOTKTargets.
  destruct userKeyMap as [entries|].
  2:{ exists []. rewrite alloc_nil. repeat split; [constructor|]. discriminate. }
  destruct (user_key_map_spec entries [] w) as (objs & Hw & Hobjs & Hts).
  exists objs. split; [done|]. split; [|exact Hts].
  eapply Forall_impl; [exact Hobjs|].
  intros o (u & us & d & sec & ?). exists entries, u, us, d, sec. done.
Qed.

End Claim_response.

Lemma claimOneTimeKeys_spec (this : Encryption) (hsApi : HsApi)
    (deviceIdentities : list DeviceIdentity.t) (w : World) :
  let devicesByUser := devicesByUser_of deviceIdentities in
  let payload := claim_payload devicesByUser in
  let run := _claimOneTimeKeys this hsApi deviceIdentities w in
  exists objs,
    run.2 = alloc objs (add_events [EvClaimKeys payload] w) /\
    Forall (fun o => exists entries userId userSection deviceId deviceSection,
              claimKeys hsApi payload = Ok (Some entries) /\
              (userId, userSection) ∈ entries /\
              (deviceId, deviceSection) ∈ userSection /\
              accepted this devicesByUser userId deviceId deviceSection o) objs /\
    forall ts, run.1 = Ok ts -> ts = seq (length (targets w)) (length objs).
Proof.
  cbn zeta. unfold _claimOneTimeKeys. fold (devicesByUser_of deviceIdentities).
  set (devicesByUser := devicesByUser_of deviceIdentities).
  set (payload := claim_payload devicesByUser).
  rewrite bind_run. cbn [log]. fold (add_events [EvClaimKeys payload] w).
  rewrite bind_run. unfold lift.
  destruct (claimKeys hsApi payload) as [userKeyMap|err] eqn:Hclaim.
  - destruct (verifyAndCreateOTKTargets_spec this devicesByUser userKeyMap
                (add_events [EvClaimKeys payload] w)) as (objs & Hw & Hobjs & Hts).
    exists objs. split; [done|]. split; [|exact Hts].
    eapply Forall_impl; [exact Hobjs|].
    intros o (entries & u & us & d & sec & -> & ?).
    exists entries, u, us, d, sec. done.
  - exists []. rewrite alloc_nil. repeat split; [constructor|]. discriminate.
Qed.

Lemma for_of_pushing_ext {A S : Type} (xs : list A) (f g : A -> S -> M S)
    (acc : S) (w : World) :
  (forall x acc w, x ∈ xs -> f x acc w = g x acc w) ->
  for_of_pushing xs f acc w = for_of_pushing xs g acc w.
Proof.
  revert acc w. induction xs as [|x xs IH]; intros acc w Hfg; [done|].
  cbn [for_of_pushing]. rewrite !bind_run, Hfg by now left.
  destruct (g x acc w) as [[acc'|err] w']; [|done].
  apply IH. intros y acc0 w0 Hy. apply Hfg. now right.
Qed.

Lemma for_of_pushing_map {A B S : Type} (h : A -> B) (xs : list A)
    (f : B -> S -> M S) (acc : S) (w : World) :
  for_of_pushing (map h xs) f acc w = for_of_pushing xs (fun x => f (h x)) acc w.
Proof.
  revert acc w. induction xs as [|x xs IH]; intros acc w; [done|].
  cbn [for_of_pushing map]. rewrite !bind_run.
  destruct (f (h x) acc w) as [[acc'|err] w']; [apply IH | done].
Qed.

Lemma for_of_pushing_app {A S : Type} (xs ys : list A) (f : A -> S -> M S)
    (acc : S) (w : World) :
  for_of_pushing (xs ++ ys) f acc w =
  bind (for_of_pushing xs f acc) (for_of_pushing ys f) w.
Proof.
  revert acc w. induction xs as [|x xs IH]; intros acc w.
  - reflexivity.
  - cbn [for_of_pushing app]. rewrite !bind_run.
    destruct (f x acc w) as [[acc'|err] w']; [|done].
    rewrite IH. now rewrite bind_run.
Qed.

Lemma verify_first_entry_only (this : Encryption)
    (devicesByUser : list (string * list (string * DeviceIdentity.t)))
    (userKeyMap : UserKeyMap) (w : World) :
  _verifyAndCreateOTKTargets this (Some userKeyMap) devicesByUser w =
  _verifyAndCreateOTKTargets this (Some (first_entries userKeyMap))
    devicesByUser w.
Proof.
  unfold _verifyAndCreateOTKTargets, first_entries.
  rewrite for_of_pushing_map. apply for_of_pushing_ext.
  intros [userId userSection] acc w0 _.
  rewrite for_of_pushing_map. apply for_of_pushing_ext.
  intros [deviceId deviceSection] acc1 w1 _.
  now destruct deviceSection as [|[firstPropName keySection] rest].
Qed.

(** A device section whose first property names another algorithm, or
    whose signature does not verify with the key of the device that was
    asked for, leaves the loop as it found it. *)
Lemma verify_device_section_dropped (this : Encryption)
    (devices : list DeviceIdentity.t) (userId deviceId firstPropName : string)
    (keySection : KeySection.t) (rest : DeviceSection) (acc : list TargetRef) :
  before_colon firstPropName <> OTK_ALGORITHM \/
  (forall device, device ∈ devices ->
     DeviceIdentity.userId device = userId ->
     DeviceIdentity.deviceId device = deviceId ->
     verifyEd25519Signature (_olmUtil this) userId deviceId
       (DeviceIdentity.ed25519Key device) keySection = false) ->
  verify_device_section this (devicesByUser_of devices) userId deviceId
    ((firstPropName, keySection) :: rest) acc = ret acc.
Proof.
  intros Hfail. unfold verify_device_section.
  destruct (String.eqb (before_colon firstPropName) OTK_ALGORITHM) eqn:Halg;
    [|done].
  apply String.eqb_eq in Halg. destruct Hfail as [Hfail|Hfail]; [done|].
  fold (lookup_device (devicesByUser_of devices) userId deviceId).
  destruct (lookup_device _ userId deviceId) as [device|] eqn:Hdev; [|done].
  destruct (grouped_sound _ _ (devicesByUser_grouped devices) _ _ _ Hdev)
    as (Hin & Hu & Hd).
  now rewrite (Hfail device Hin Hu Hd).
Qed.

(** ** [_findExistingSessions] *)

Section Find_existing.

Variable this : Encryption.

Lemma read_session_ids (devices : list DeviceIdentity.t) (start : nat)
    (w w' : World) (r : Result (list (option (list string)))) :
  map_i (fun device (_ : nat) =>
           lift (getSessionIds (_storage this)
                   (DeviceIdentity.curve25519Key device)))
        start devices w = (r, w') ->
  w' = w /\
  forall l, r = Ok l ->
    Forall2 (fun device sessionIds =>
               getSessionIds (_storage this)
                 (DeviceIdentity.curve25519Key device) = Ok sessionIds)
      devices l.
Proof.
  revert start r w'. induction devices as [|device devices IH];
    intros start r w'; cbn [map_i].
  - intros [= <- <-]. split; [done|]. intros l [= <-]. constructor.
  - rewrite bind_run. unfold lift at 1.
    destruct (getSessionIds _ _) as [sessionIds|err] eqn:Hget.
    2:{ intros [= <- <-]. split; [done | intros ? [=]]. }
    rewrite bind_run.
    destruct (map_i _ (S start) devices w) as [[l|err] w1] eqn:Hrun;
      destruct (IH _ _ _ Hrun) as [-> Hl]; intros [= <- <-];
      (split; [done|]); [|intros ? [=]].
    intros l' [= <-]. constructor; [done | now apply Hl].
Qed.

Lemma read_session_ids_lookup (devices : list DeviceIdentity.t)
    (l : list (option (list string))) (i : nat) (device : DeviceIdentity.t) :
  Forall2 (fun device sessionIds =>
             getSessionIds (_storage this)
               (DeviceIdentity.curve25519Key device) = Ok sessionIds)
    devices l ->
  devices !! i = Some device ->
  mjoin (l !! i) = sessionIds_of this device.
Proof.
  intros Hall Hi.
  destruct (Forall2_lookup_l _ _ _ _ _ Hall Hi) as (sessionIds & -> & Hget).
  unfold sessionIds_of. now rewrite Hget.
Qed.

Lemma filter_without_session (devices all : list DeviceIdentity.t)
    (l : list (option (list string))) (start : nat) :
  (forall k device, devices !! k = Some device ->
     mjoin (l !! (start + k)) = sessionIds_of this device) ->
  filter_i (fun (_ : DeviceIdentity.t) i => negb (has_length (mjoin (l !! i))))
    start devices
  = List.filter (fun device => negb (has_length (sessionIds_of this device)))
      devices.
Proof.
  revert start. induction devices as [|device devices IH]; intros start Hl;
    [done|].
  cbn [filter_i List.filter].
  rewrite <- (Hl 0 device eq_refl), Nat.add_0_r.
  rewrite (IH (S start)); [done|].
  intros k d Hk. rewrite <- (Hl (S k) d Hk). f_equal. f_equal. lia.
Qed.

Lemma construct_existing_targets (devices : list DeviceIdentity.t)
    (l : list (option (list string))) (start : nat) (w : World) :
  (forall k device, devices !! k = Some device ->
     mjoin (l !! (start + k)) = sessionIds_of this device) ->
  exists res,
    map_i (construct_target l) start devices w
    = (Ok res, alloc (omap (existing_target this) devices) w) /\
    omap id res =
      seq (length (targets w)) (length (omap (existing_target this) devices)).
Proof.
  revert start w. induction devices as [|device devices IH]; intros start w Hl.
  - exists []. cbn. now rewrite alloc_nil.
  - cbn [map_i]. rewrite bind_run.
    pose proof (Hl 0 device eq_refl) as H0. rewrite Nat.add_0_r in H0.
    assert (forall k d, devices !! k = Some d ->
              mjoin (l !! (S start + k)) = sessionIds_of this d) as Hl'.
    { intros k d Hk. rewrite <- (Hl (S k) d Hk). f_equal. f_equal. lia. }
    unfold construct_target at 1. cbn zeta. rewrite H0.
    cbn [omap list_omap].
    pose proof (eq_refl : existing_target this device = _) as Hex.
    unfold existing_target at 2 in Hex.
    destruct (has_length (sessionIds_of this device)) eqn:Hlen; rewrite Hex.
    + rewrite bind_run. cbn [fromSessionId new_EncryptionTarget ret].
      rewrite bind_run.
      match goal with
      | |- context [map_i _ (S start) devices ?w1] =>
          destruct (IH (S start) w1 Hl') as (res & Hrun & Hres)
      end.
      rewrite Hrun. cbn [ret]. eexists. split.
      * f_equal. unfold alloc. cbn. now rewrite <- app_assoc.
      * cbn [omap list_omap id]. rewrite Hres. cbn [targets length].
        rewrite length_app. cbn [length seq]. f_equal. f_equal. lia.
    + cbn [ret]. rewrite bind_run.
      destruct (IH (S start) w Hl') as (res & Hrun & Hres).
      rewrite Hrun. cbn [ret]. eexists. split; [done|]. exact Hres.
Qed.

Lemma findExistingSessions_spec (devices : list DeviceIdentity.t)
    (devicesWithoutSession : list DeviceIdentity.t)
    (existingEncryptionTargets : list TargetRef) (w w' : World) :
  _findExistingSessions this devices w
    = (Ok (devicesWithoutSession, existingEncryptionTargets), w') ->
  w' = alloc (omap (existing_target this) devices)
         (add_events [EvReadTxn (next_txn w)]
            {| targets := targets w; next_session := next_session w;
               next_txn := S (next_txn w); trace := trace w |}) /\
  devicesWithoutSession =
    List.filter (fun device => negb (has_length (sessionIds_of this device)))
      devices /\
  existingEncryptionTargets =
    seq (length (targets w)) (length (omap (existing_target this) devices)) /\
  Forall (fun device =>
            getSessionIds (_storage this)
              (DeviceIdentity.curve25519Key device)
            = Ok (sessionIds_of this device)) devices.
Proof.
  unfold _findExistingSessions. rewrite bind_run.
  cbn [readTxn fresh_txn]. rewrite bind_run.
  match goal with
  | |- context [map_i ?f 0 devices ?w1] =>
      destruct (map_i f 0 devices w1) as [[l|err] w1'] eqn:Hrun
  end; [|discriminate].
  destruct (read_session_ids _ _ _ _ _ Hrun) as [-> Hl].
  specialize (Hl l eq_refl).
  assert (forall k device, devices !! k = Some device ->
            mjoin (l !! (0 + k)) = sessionIds_of this device) as Hlookup.
  { intros k device Hk. now apply (read_session_ids_lookup devices). }
  rewrite bind_run.
  match goal with
  | |- context [map_i ?f 0 devices ?w1] =>
      change f with (construct_target l);
      destruct (construct_existing_targets devices l 0 w1 Hlookup)
        as (res & Hrun' & Hres)
  end.
  rewrite Hrun'. cbn [ret]. intros [= <- <- <-].
  split; [done|]. split; [now apply (filter_without_session devices devices)|].
  split; [exact Hres|].
  apply Forall_forall. intros device Hin.
  apply list_elem_of_lookup in Hin as [i Hi].
  destruct (Forall2_lookup_l _ _ _ _ _ Hl Hi) as (sessionIds & _ & Hget).
  unfold sessionIds_of. now rewrite Hget.
Qed.

End Find_existing.

(** ** A dropped device is as good as absent from the response *)

Section Dropped_entry.

Variable this : Encryption.
Variable devices : list DeviceIdentity.t.
Variables (userId deviceId firstPropName : string).
Variable keySection : KeySection.t.
Variable rest : DeviceSection.

Hypothesis check_fails :
  before_colon firstPropName <> OTK_ALGORITHM \/
  (forall device, device ∈ devices ->
     DeviceIdentity.userId device = userId ->
     DeviceIdentity.deviceId device = deviceId ->
     verifyEd25519Signature (_olmUtil this) userId deviceId
       (DeviceIdentity.ed25519Key device) keySection = false).

Lemma check_fails_on (deviceIdentities : list DeviceIdentity.t) :
  deviceIdentities ⊆ devices ->
  before_colon firstPropName <> OTK_ALGORITHM \/
  (forall device, device ∈ deviceIdentities ->
     DeviceIdentity.userId device = userId ->
     DeviceIdentity.deviceId device = deviceId ->
     verifyEd25519Signature (_olmUtil this) userId deviceId
       (DeviceIdentity.ed25519Key device) keySection = false).
Proof.
  intros Hsub. destruct check_fails as [H|H]; [now left|]. right.
  intros device Hin. apply H. now apply Hsub.
Qed.

Lemma verify_without_entry (deviceIdentities : list DeviceIdentity.t)
    (before after : UserKeyMap) (before_d after_d : UserSection) (w : World) :
  deviceIdentities ⊆ devices ->
  _verifyAndCreateOTKTargets this
    (Some (before ++
           (userId,
            before_d ++ (deviceId, (firstPropName, keySection) :: rest)
              :: after_d) :: after))
    (devicesByUser_of deviceIdentities) w
  = _verifyAndCreateOTKTargets this
      (Some (before ++ (userId, before_d ++ after_d) :: after))
      (devicesByUser_of deviceIdentities) w.
Proof.
  intros Hsub. unfold _verifyAndCreateOTKTargets.
  rewrite !for_of_pushing_app, !bind_run.
  destruct (for_of_pushing before _ [] w) as [[acc|err] w1]; [|done].
  cbn [for_of_pushing]. rewrite !bind_run.
  rewrite !for_of_pushing_app, !bind_run.
  destruct (for_of_pushing before_d _ acc w1) as [[acc'|err] w2]; [|done].
  cbn [for_of_pushing]. rewrite bind_run.
  rewrite (verify_device_section_dropped this deviceIdentities)
    by now apply check_fails_on.
  reflexivity.
Qed.

End Dropped_entry.

Lemma filter_i_subseteq {A : Type} (p : A -> nat -> bool) (start : nat)
    (xs : list A) :
  filter_i p start xs ⊆ xs.
Proof.
  revert start. induction xs as [|x xs IH]; intros start; cbn [filter_i];
    [done|].
  destruct (p x start).
  - intros y Hy. apply elem_of_cons in Hy as [->|Hy]; [now left|].
    right. now apply (IH (S start)).
  - intros y Hy. right. now apply (IH (S start)).
Qed.

Lemma findExistingSessions_without_session (this : Encryption)
    (devices devicesWithoutSession : list DeviceIdentity.t)
    (existingEncryptionTargets : list TargetRef) (w w' : World) :
  _findExistingSessions this devices w
    = (Ok (devicesWithoutSession, existingEncryptionTargets), w') ->
  devicesWithoutSession ⊆ devices.
Proof.
  intros Hrun.
  destruct (findExistingSessions_spec _ _ _ _ _ _ Hrun) as (_ & -> & _).
  intros device Hin. apply list_elem_of_In, filter_In in Hin as [Hin _].
  now apply list_elem_of_In.
Qed.

(** [encrypt] uses [hsApi] for the key claim only. *)
Lemma encrypt_hsApi (this : Encryption) (type : string) (content : JsValue)
    (devices : list DeviceIdentity.t) (hsApi hsApi' : HsApi) (w : World) :
  (forall deviceIdentities w0,
     deviceIdentities ⊆ devices ->
     _claimOneTimeKeys this hsApi deviceIdentities w0
     = _claimOneTimeKeys this hsApi' deviceIdentities w0) ->
  encrypt this type content devices hsApi w
  = encrypt this type content devices hsApi' w.
Proof.
  intros Hclaim. unfold encrypt. rewrite !bind_run.
  destruct (_findExistingSessions this devices w)
    as [[[devicesWithoutSession existing]|err] w1] eqn:Hfind; [|done].
  apply findExistingSessions_without_session in Hfind.
  unfold encrypt_try, _createNewSessions. rewrite !bind_run.
  now rewrite (Hclaim devicesWithoutSession w1 Hfind).
Qed.

(** ** [_storeSessions] *)

Section Store_sessions.

Variable this : Encryption.
Variable timestamp : Z.

Lemma store_body_run (txn : TxnId) (target : TargetRef) (w : World) :
  store_body this timestamp txn target w =
  match write_outcome this timestamp w target with
  | Ok sessionEntry => (Ok tt, add_events [EvSet txn target sessionEntry] w)
  | Throw err => (Throw err, w)
  end.
Proof.
  unfold store_body, write_outcome, deref, olmSessions_set.
  rewrite bind_run. destruct (targets w !! target) as [o|]; [|done].
  rewrite bind_run. unfold lift.
  destruct (createSessionEntry _ _ _ _ _) as [sessionEntry|err]; [|done].
  now destruct (set_succeeds _ _).
Qed.

Lemma write_outcome_add_events (evs : list Event) (w : World)
    (target : TargetRef) :
  write_outcome this timestamp (add_events evs w) target = write_outcome this timestamp w target.
Proof. reflexivity. Qed.

Lemma add_events_app (evs evs' : list Event) (w : World) :
  add_events evs' (add_events evs w) = add_events (evs ++ evs') w.
Proof. unfold add_events. cbn. now rewrite app_assoc. Qed.

Lemma add_events_nil (w : World) : add_events [] w = w.
Proof. destruct w. unfold add_events. cbn. now rewrite app_nil_r. Qed.

(** The loop writes the entries of a prefix of the targets and stops at
    the first write that fails. *)
Lemma store_loop_run (txn : TxnId) (encryptionTargets : list TargetRef)
    (w : World) :
  exists sets,
    (for_of encryptionTargets (store_body this timestamp txn) w).2 = add_events sets w /\
    ((for_of encryptionTargets (store_body this timestamp txn) w).1 = Ok tt /\
     Forall2 (fun target ev =>
                exists sessionEntry,
                  write_outcome this timestamp w target = Ok sessionEntry /\
                  ev = EvSet txn target sessionEntry)
       encryptionTargets sets
     \/
     (exists err, (for_of encryptionTargets (store_body this timestamp txn) w).1 = Throw err) /\
     Exists (fun target => exists err, write_outcome this timestamp w target = Throw err)
       encryptionTargets /\
     Forall (fun ev => exists owner sessionEntry,
               owner ∈ encryptionTargets /\
               ev = EvSet txn owner sessionEntry) sets).
Proof.
  revert w. induction encryptionTargets as [|target rest IH]; intros w;
    cbn [for_of].
  - exists []. rewrite add_events_nil. split; [done|]. left.
    split; [done | constructor].
  - rewrite bind_run, store_body_run.
    destruct (write_outcome this timestamp w target) as [sessionEntry|err] eqn:Hout.
    + destruct (IH (add_events [EvSet txn target sessionEntry] w))
        as (sets & Hw & Hcases).
      exists (EvSet txn target sessionEntry :: sets).
      rewrite Hw, add_events_app. split; [done|].
      destruct Hcases as [[Hok Hall]|(Herr & Hex & Hsets)].
      * left. split; [done|]. constructor; [eauto|].
        eapply Forall2_impl; [exact Hall|]. intros t ev (e & He & ->).
        rewrite write_outcome_add_events in He. eauto.
      * right. split; [done|]. split.
        -- right. eapply Exists_impl; [exact Hex|]. intros t [e He].
           rewrite write_outcome_add_events in He. eauto.
        -- constructor; [exists target, sessionEntry; split; [now left|done]|].
           eapply Forall_impl; [exact Hsets|].
           intros ev (o & e & Hin & ->). exists o, e. split; [now right|done].
    + exists []. rewrite add_events_nil. split; [done|]. right.
      split; [eauto|]. split; [left; eauto | constructor].
Qed.

End Store_sessions.

Lemma durable_writes_aborted (storage : Storage) (txn : TxnId)
    (sets : list Event) :
  Forall (fun ev => exists owner sessionEntry, ev = EvSet txn owner sessionEntry)
    sets ->
  durable_writes storage (EvReadWriteTxn txn :: sets ++ [EvAbort txn]) = [].
Proof.
  intros Hsets. unfold durable_writes.
  set (log := EvReadWriteTxn txn :: sets ++ [EvAbort txn]).
  assert (existsb (is_abort txn) log = true) as Habort.
  { apply existsb_exists. exists (EvAbort txn). split.
    - right. apply in_or_app. right. now left.
    - cbn. apply Nat.eqb_refl. }
  assert (Forall (fun ev => match ev with
                            | EvSet txn' _ _ => txn' = txn
                            | _ => True
                            end) log) as Hlog.
  { constructor; [done|]. apply Forall_app. split; [|now repeat constructor].
    eapply Forall_impl; [exact Hsets|]. now intros ev (o & e & ->). }
  revert Hlog. generalize log at 1 4 as l. clearbody log.
  induction 1 as [|ev l Hev Hl IH]; [done|].
  cbn [omap list_omap]. rewrite IH.
  destruct ev; try done. subst. now rewrite Habort, andb_false_r.
Qed.

Section Store_sessions_run.

Variable this : Encryption.
Variable timestamp : Z.

Lemma storeSessions_prefix_run (encryptionTargets : list TargetRef)
    (w : World) :
  let txn := next_txn w in
  exists sets,
    Forall (fun ev => exists owner sessionEntry,
              owner ∈ encryptionTargets /\
              ev = EvSet txn owner sessionEntry) sets /\
    (Exists (fun target => exists err,
               write_outcome this timestamp w target = Throw err)
       encryptionTargets /\
     (exists err,
        _storeSessions_prefix this encryptionTargets timestamp w
        = (Throw err,
           add_events (EvReadWriteTxn txn :: sets ++ [EvAbort txn])
             (txn_opened w)))
     \/
     Forall2 (fun target ev =>
                exists sessionEntry,
                  write_outcome this timestamp w target = Ok sessionEntry /\
                  ev = EvSet txn target sessionEntry)
       encryptionTargets sets /\
     _storeSessions_prefix this encryptionTargets timestamp w
     = (Ok txn,
        add_events (EvReadWriteTxn txn :: sets ++ [EvComplete txn])
          (txn_opened w))).
Proof.
  cbn zeta. unfold _storeSessions_prefix. rewrite bind_run.
  cbn [readWriteTxn fresh_txn].
  set (w0 := add_events [EvReadWriteTxn (next_txn w)] (txn_opened w)).
  rewrite bind_run. unfold try_catch.
  match goal with
  | |- context [for_of encryptionTargets ?body ?w1] =>
      change (for_of encryptionTargets body w1)
        with (for_of encryptionTargets
                (store_body this timestamp (next_txn w)) w0)
  end.
  destruct (store_loop_run this timestamp (next_txn w) encryptionTargets w0)
    as (sets & Hw & Hcases).
  exists sets.
  destruct (for_of encryptionTargets _ w0) as [[[]|err] w1]; cbn [fst snd] in *;
    subst w1; destruct Hcases as [[Hok Hall]|([err' Herr] & Hex & Hsets)];
    try discriminate.
  - split.
    { clear -Hall. induction Hall as [|t ev ts evs (e & _ & ->) _ IH];
        constructor.
      - exists t, e. split; [now left | done].
      - eapply Forall_impl; [exact IH|].
        intros ev (o & e' & Hin & ->). exists o, e'. split; [now right|done]. }
    right. split; [exact Hall|].
    rewrite bind_run. cbn [log ret]. unfold w0.
    rewrite !add_events_app. unfold add_events. cbn.
    now rewrite <- !app_assoc.
  - split; [exact Hsets|]. left. split; [exact Hex|]. exists err.
    rewrite bind_run. cbn [log throw]. unfold w0.
    rewrite !add_events_app. unfold add_events. cbn.
    now rewrite <- !app_assoc.
Qed.

End Store_sessions_run.

(** ** Sessions and their release *)

Lemma count_free_app (s : SessionHandle) (log log' : list Event) :
  count_free s (log ++ log') = count_free s log + count_free s log'.
Proof. unfold count_free. now rewrite List.filter_app, length_app. Qed.

Lemma count_free_absent (s : SessionHandle) (log : list Event) :
  EvFree s ∉ log -> count_free s log = 0.
Proof.
  unfold count_free. induction log as [|ev log IH]; intros Hnotin; [done|].
  cbn [List.filter]. destruct (is_free s ev) eqn:Hev.
  - destruct ev; try discriminate. apply Nat.eqb_eq in Hev. subst.
    exfalso. apply Hnotin. now left.
  - apply IH. intros Hin. apply Hnotin. now right.
Qed.

Lemma wf_empty : wf empty_world.
Proof. split; [intros t s H; discriminate H | intros s H; inversion H]. Qed.


Lemma touches_refl (touched : list TargetRef) (P : Event -> Prop) (w : World) :
  touches touched P w w.
Proof.
  split; try done. exists []. now rewrite app_nil_r.
Qed.

Lemma touches_trans (touched : list TargetRef) (P : Event -> Prop)
    (w1 w2 w3 : World) :
  touches touched P w1 w2 -> touches touched P w2 w3 -> touches touched P w1 w3.
Proof.
  intros [Hl1 Hf1 Hd1 (evs1 & Ht1 & HP1) Hw1] [Hl2 Hf2 Hd2 (evs2 & Ht2 & HP2) Hw2].
  split.
  - congruence.
  - intros t Ht. now rewrite Hf2, Hf1.
  - intros t. now rewrite Hd2, Hd1.
  - exists (evs1 ++ evs2). rewrite Ht2, Ht1, app_assoc. split; [done|].
    now apply Forall_app.
  - auto.
Qed.

Lemma touches_weaken (touched touched' : list TargetRef) (P Q : Event -> Prop)
    (w w' : World) :
  touched ⊆ touched' -> (forall ev, P ev -> Q ev) ->
  touches touched P w w' -> touches touched' Q w w'.
Proof.
  intros Hsub HPQ [Hl Hf Hd (evs & Ht & HP) Hw]. split; try done.
  - intros t Ht'. apply Hf. intros Hin. apply Ht'. now apply Hsub.
  - exists evs. split; [done|]. eapply Forall_impl; eauto.
Qed.

Lemma touches_add_events (touched : list TargetRef) (P : Event -> Prop)
    (evs : list Event) (w : World) :
  Forall P evs -> Forall (fun ev => forall s, ev = EvFree s -> s < next_session w) evs ->
  touches touched P w (add_events evs w).
Proof.
  intros HP Hfree. split; try done.
  - now exists evs.
  - intros [Hheap Hfreed]. split; [exact Hheap|].
    intros s Hin. cbn [add_events trace next_session] in *.
    apply elem_of_app in Hin as [Hin|Hin]; [now apply Hfreed|].
    rewrite Forall_forall in Hfree. now apply (Hfree _ Hin).
Qed.

Lemma dispose_all_run (encryptionTargets : list TargetRef) (w : World) :
  Forall (fun target => target < length (targets w)) encryptionTargets ->
  for_of encryptionTargets dispose w
  = (Ok tt, add_events (frees (targets w) encryptionTargets) w).
Proof.
  revert w. induction encryptionTargets as [|target rest IH]; intros w Hvalid.
  - cbn. now rewrite add_events_nil.
  - inversion Hvalid as [|? ? Ht Hrest]; subst.
    cbn [for_of]. rewrite bind_run. unfold dispose at 1, deref.
    rewrite bind_run.
    destruct (lookup_lt_is_Some_2 _ _ Ht) as [o Ho].
    cbn [frees omap list_omap]. rewrite Ho. cbn [mbind option_bind].
    destruct (EncryptionTarget.session o) as [s|]; cbn [fmap option_fmap option_map].
    + cbn [log]. fold (add_events [EvFree s] w).
      rewrite (IH (add_events [EvFree s] w)) by done.
      now rewrite add_events_app.
    + cbn [ret]. now rewrite IH.
Qed.

(** [dispose()] on a target that was never given a session does nothing. *)
Lemma dispose_unassigned (target : TargetRef) (w : World) :
  target < length (targets w) -> session_of w target = None ->
  dispose target w = (Ok tt, w).
Proof.
  intros Hvalid Hnone. unfold dispose, deref. rewrite bind_run.
  destruct (lookup_lt_is_Some_2 _ _ Hvalid) as [o Ho].
  unfold session_of in Hnone. rewrite Ho in *. cbn in Hnone. now rewrite Hnone.
Qed.

Lemma frees_are_frees (heap : list EncryptionTarget.t)
    (encryptionTargets : list TargetRef) (ev : Event) :
  ev ∈ frees heap encryptionTargets ->
  exists target s,
    target ∈ encryptionTargets /\
    heap !! target ≫= EncryptionTarget.session = Some s /\ ev = EvFree s.
Proof.
  unfold frees. intros Hin. apply list_elem_of_omap in Hin as (t & Hin & Hev).
  destruct (heap !! t ≫= EncryptionTarget.session) as [s|] eqn:Hs;
    [|discriminate].
  injection Hev as <-. eauto.
Qed.

Lemma touches_dispose_all (encryptionTargets : list TargetRef) (w : World) :
  Forall (fun target => target < length (targets w)) encryptionTargets ->
  touches [] (fun ev => exists s, ev = EvFree s) w
    (for_of encryptionTargets dispose w).2.
Proof.
  intros Hvalid. rewrite dispose_all_run by done. cbn [snd].
  split; try done.
  - exists (frees (targets w) encryptionTargets). split; [done|].
    apply Forall_forall. intros ev Hin.
    apply frees_are_frees in Hin as (t & s & _ & _ & ->). eauto.
  - intros Hwf. split; [apply Hwf|]. intros s Hin.
    cbn [add_events trace next_session] in *.
    apply elem_of_app in Hin as [Hin|Hin]; [now apply Hwf|].
    apply frees_are_frees in Hin as (t & s' & _ & Hs & [= ->]).
    now apply (wf_heap w Hwf t).
Qed.

(** ** [_createNewSessions] *)

Lemma bind_snd {A B : Type} (m : M A) (f : A -> M B) (w : World) :
  (bind m f w).2 =
  match (m w).1 with
  | Ok a => (f a (m w).2).2
  | Throw _ => (m w).2
  end.
Proof. rewrite bind_run. now destruct (m w) as [[a|e] w']. Qed.

Lemma for_of_touches (touched : list TargetRef) (P : Event -> Prop)
    (body : TargetRef -> M unit) (ts : list TargetRef) (w : World) :
  (forall t w0, t ∈ ts -> length (targets w0) = length (targets w) ->
     touches touched P w0 (body t w0).2) ->
  touches touched P w (for_of ts body w).2.
Proof.
  revert w. induction ts as [|t ts IH]; intros w Hbody; cbn [for_of].
  - apply touches_refl.
  - rewrite bind_snd.
    assert (touches touched P w (body t w).2) as Hstep
      by (apply Hbody; [now left | done]).
    destruct (body t w).1; [|exact Hstep].
    eapply touches_trans; [exact Hstep|]. apply IH.
    intros t' w0 Hin Hlen. apply Hbody; [now right|].
    rewrite Hlen. apply (touches_length _ _ _ _ Hstep).
Qed.

Section Create_new_sessions.

Variable this : Encryption.

Lemma create_body_touches (owners : list TargetRef) (target : TargetRef)
    (w : World) :
  target ∈ owners ->
  touches owners (sets_only_for owners) w (create_body this target w).2.
Proof.
  intros Hin. unfold create_body, deref. rewrite bind_run.
  destruct (targets w !! target) as [o|] eqn:Ho; [|apply touches_refl].
  cbn zeta. rewrite bind_run. unfold createOutboundOlmSession.
  destruct (createOutbound_succeeds _ _ _); [|apply touches_refl].
  cbn [fresh_session set_session snd]. split; cbn [targets trace].
  - apply length_alter.
  - intros t Ht. apply list_lookup_alter_ne. intros ->. now apply Ht.
  - intros t. destruct (decide (t = target)) as [->|Hne].
    + rewrite list_lookup_alter_eq, Ho. done.
    + now rewrite list_lookup_alter_ne.
  - exists [EvCreateOutbound target (next_session w)]. split; [done|].
    now repeat constructor.
  - intros [Hheap Hfreed]. split; cbn [next_session trace].
    + intros t s. unfold session_of. cbn [targets].
      destruct (decide (t = target)) as [->|Hne].
      * rewrite list_lookup_alter_eq, Ho. cbn. intros [= <-]. lia.
      * rewrite list_lookup_alter_ne by done. intros Hs.
        specialize (Hheap t s Hs). lia.
    + intros s Hfree. apply elem_of_app in Hfree as [Hfree|Hfree].
      * specialize (Hfreed s Hfree). lia.
      * apply list_elem_of_singleton in Hfree. discriminate.
Qed.

Lemma storeSessions_prefix_touches (encryptionTargets : list TargetRef)
    (timestamp : Z) (w : World) :
  touches [] (sets_only_for encryptionTargets) w
    (_storeSessions_prefix this encryptionTargets timestamp w).2.
Proof.
  destruct (storeSessions_prefix_run this timestamp encryptionTargets w)
    as (sets & Hsets & [(_ & err & ->)|(_ & ->)]); cbn [snd];
    (split; cbn [add_events txn_opened targets trace next_session]; try done;
     [eexists; split; [reflexivity|]
     |intros [Hheap Hfreed]; split; [exact Hheap|]; cbn [trace next_session];
      intros s Hin; apply elem_of_app in Hin as [Hin|Hin];
      [now apply Hfreed|exfalso]]).
  1,3: constructor; [done|]; apply Forall_app; split;
       [|now repeat constructor];
       eapply Forall_impl; [exact Hsets|]; now intros ev (o & e & Hin & ->).
  all: apply elem_of_cons in Hin as [Hin|Hin]; [discriminate|];
       apply elem_of_app in Hin as [Hin|Hin];
       [rewrite Forall_forall in Hsets;
        destruct (Hsets _ Hin) as (o & e & _ & [=])
       |apply list_elem_of_singleton in Hin; discriminate].
Qed.

End Create_new_sessions.


Lemma accepted_session (this : Encryption)
    (devicesByUser : list (string * list (string * DeviceIdentity.t)))
    (userId deviceId : string) (deviceSection : DeviceSection)
    (o : EncryptionTarget.t) :
  accepted this devicesByUser userId deviceId deviceSection o ->
  EncryptionTarget.session o = None.
Proof. now intros (? & ? & ? & ? & _ & _ & _ & _ & ->). Qed.

Section Create_new_sessions_spec.

Variable this : Encryption.

Lemma create_block_run (owners : list TargetRef) (timestamp : Z)
    (w : World) :
  Forall (fun t => t < length (targets w)) owners ->
  let block :=
    try_catch
      (for_of owners (create_body this) ;;
       unawaited (_storeSessions_prefix this owners timestamp))
      (fun err => for_of owners dispose) in
  (block w).1 = Ok tt /\
  touches owners (sets_only_for owners) w (block w).2.
Proof.
  intros Hvalid. cbn zeta. unfold try_catch. rewrite bind_run.
  assert (touches owners (sets_only_for owners) w
            (for_of owners (create_body this) w).2) as Hloop.
  { apply for_of_touches. intros t w0 Hin _. now apply create_body_touches. }
  destruct (for_of owners (create_body this) w) as [[[]|err] wl];
    cbn [fst snd] in *.
  - unfold unawaited. cbn [fst snd]. split; [done|].
    eapply touches_trans; [exact Hloop|].
    eapply touches_weaken; [| |apply storeSessions_prefix_touches]; [|done].
    intros t Ht. inversion Ht.
  - assert (Forall (fun t => t < length (targets wl)) owners) as Hvalid'
      by now rewrite (touches_length _ _ _ _ Hloop).
    pose proof (touches_dispose_all owners wl Hvalid') as Hdispose.
    rewrite dispose_all_run in * by done. cbn [fst snd] in *.
    split; [done|]. eapply touches_trans; [exact Hloop|].
    eapply touches_weaken; [| |exact Hdispose].
    + intros t Ht. inversion Ht.
    + now intros ev [s ->].
Qed.

Lemma createNewSessions_spec (devicesWithoutSession : list DeviceIdentity.t)
    (hsApi : HsApi) (timestamp : Z) (w : World) :
  let run := _createNewSessions this devicesWithoutSession hsApi timestamp w in
  let devicesByUser := devicesByUser_of devicesWithoutSession in
  exists objs,
    let owners := seq (length (targets w)) (length objs) in
    (forall ts, run.1 = Ok ts -> ts = owners) /\
    Forall (fun o => exists entries userId userSection deviceId deviceSection,
              claimKeys hsApi (claim_payload devicesByUser) = Ok (Some entries) /\
              (userId, userSection) ∈ entries /\
              (deviceId, deviceSection) ∈ userSection /\
              accepted this devicesByUser userId deviceId deviceSection o)
      objs /\
    touches owners (sets_only_for owners)
      (alloc objs (add_events [EvClaimKeys (claim_payload devicesByUser)] w))
      run.2.
Proof.
  cbn zeta. unfold _createNewSessions. rewrite bind_run.
  destruct (claimOneTimeKeys_spec this hsApi devicesWithoutSession w)
    as (objs & Hw & Hobjs & Hts). cbn zeta in *.
  exists objs.
  destruct (_claimOneTimeKeys _ _ _ _) as [[newT|err] wc];
    cbn [fst snd] in *; subst wc.
  2:{ split; [discriminate|]. split; [exact Hobjs | apply touches_refl]. }
  rewrite (Hts _ eq_refl). clear Hts newT.
  set (wc := alloc objs _).
  set (owners := seq (length (targets w)) (length objs)).
  assert (Forall (fun t => t < length (targets wc)) owners) as Hvalid.
  { apply Forall_forall. intros t Ht. apply elem_of_seq in Ht.
    unfold wc. cbn [alloc add_events targets]. rewrite length_app. lia. }
  destruct (create_block_run owners timestamp wc Hvalid) as [Hok Htouch].
  cbn zeta in *. rewrite bind_run.
  match goal with
  | |- context [try_catch (bind (for_of owners ?body) _)] =>
      change body with (create_body this)
  end.
  destruct (try_catch _ _ wc) as [[[]|err] w1]; cbn [fst snd] in *;
    [|discriminate].
  cbn [ret fst snd]. split; [now intros ts [= <-]|]. split; done.
Qed.

End Create_new_sessions_spec.

(** ** [_loadSessions] *)

Section Load_sessions.

Variable this : Encryption.

Lemma load_callback_failed (target : TargetRef) (w : World) :
  (load_callback this true target w).2 = w.
Proof.
  unfold load_callback, deref. rewrite bind_run.
  destruct (targets w !! target) as [o|]; [|done].
  rewrite bind_run. unfold lift.
  now destruct (olmSessions_get _ _ _) as [[entry|]|err].
Qed.

(** Once [failed] is set, the answers that still arrive change nothing. *)
Lemma settle_unobserved_failed (in_flight : list TargetRef) (w : World) :
  settle_unobserved this true in_flight w = w.
Proof.
  revert w. induction in_flight as [|t rest IH]; intros w; [done|].
  cbn [settle_unobserved]. now rewrite load_callback_failed, IH.
Qed.

Lemma loading_start (batch : list TargetRef) (w0 : World) :
  (forall target, target ∈ batch -> session_of w0 target = None) ->
  loading batch w0 (readTxn w0).2.
Proof.
  intros Hnone. cbn [readTxn fresh_txn snd]. split; cbn [targets trace next_session];
    try done.
  - intros t s Hin Hs. unfold session_of in *. cbn [targets] in Hs.
    specialize (Hnone t Hin). unfold session_of in Hnone. congruence.
  - intros t t' s Hin _ Hs. unfold session_of in *. cbn [targets] in Hs.
    specialize (Hnone t Hin). unfold session_of in Hnone. congruence.
  - exists [EvReadTxn (next_txn w0)]. split; [done|]. now repeat constructor.
Qed.

Lemma loading_callback (batch : list TargetRef) (w0 w : World)
    (target : TargetRef) :
  target ∈ batch -> loading batch w0 w ->
  loading batch w0 (load_callback this false target w).2.
Proof.
  intros Hin Hload. unfold load_callback, deref. rewrite bind_run.
  destruct (targets w !! target) as [o|] eqn:Ho; [|done].
  rewrite bind_run. unfold lift.
  destruct (olmSessions_get _ _ _) as [[entry|]|err]; [|done|done].
  cbn [negb]. rewrite bind_run. cbn [fresh_session].
  rewrite bind_run. unfold unpickle. rewrite bind_run. cbn [log].
  destruct Hload as [Hlen Hframe Hsess Hdist (evs & Htrace & Hevs) Hnext].
  assert (forall t s, t ∈ batch ->
            session_of w t = Some s -> s < S (next_session w)) as Hbelow.
  { intros t s Ht Hs. specialize (Hsess t s Ht Hs). lia. }
  destruct (unpickle_succeeds _ _ _); cbn [ret throw set_session snd].
  - split; cbn [targets trace next_session].
    + now rewrite length_alter.
    + intros t Ht. rewrite list_lookup_alter_ne; [now apply Hframe|].
      intros ->. now apply Ht.
    + intros t s Ht. unfold session_of. cbn [targets].
      destruct (decide (t = target)) as [->|Hne].
      * rewrite list_lookup_alter_eq, Ho. cbn. intros [= <-]. lia.
      * rewrite list_lookup_alter_ne by done. intros Hs.
        specialize (Hsess t s Ht Hs). lia.
    + intros t t' s Ht Ht'. unfold session_of. cbn [targets].
      destruct (decide (t = target)) as [->|Hne];
        destruct (decide (t' = target)) as [->|Hne']; [done| | |].
      * rewrite list_lookup_alter_eq, Ho, list_lookup_alter_ne by done.
        cbn. intros [= <-] Hs. specialize (Hsess t' _ Ht' Hs). lia.
      * rewrite list_lookup_alter_eq, Ho, list_lookup_alter_ne by done.
        cbn. intros Hs [= <-]. specialize (Hsess t _ Ht Hs). lia.
      * rewrite !list_lookup_alter_ne by done. now apply Hdist.
    + eexists. rewrite Htrace, <- !app_assoc. split; [reflexivity|].
      apply Forall_app. split; [done|]. now repeat constructor.
    + lia.
  - split; cbn [targets trace next_session]; try done.
    + intros t s Ht Hs. specialize (Hsess t s Ht Hs). lia.
    + eexists. rewrite Htrace, <- !app_assoc. split; [reflexivity|].
      apply Forall_app. split; [done|]. now repeat constructor.
    + lia.
Qed.

Lemma loading_until_rejection (batch in_flight : list TargetRef)
    (w0 w w' : World) (outcome : option (JsError * list TargetRef)) :
  in_flight ⊆ batch -> loading batch w0 w ->
  settle_until_rejection this in_flight w = (outcome, w') ->
  loading batch w0 w' /\
  forall err rest, outcome = Some (err, rest) -> rest ⊆ in_flight.
Proof.
  revert w. induction in_flight as [|t rest IH]; intros w Hsub Hload;
    cbn [settle_until_rejection].
  - intros [= <- <-]. split; [done | discriminate].
  - pose proof (loading_callback batch w0 w t) as Hstep.
    destruct (load_callback this false t w) as [[[]|err] w1]; cbn [snd] in Hstep.
    + intros Hrun. destruct (IH w1) as [Hload' Hrest]; try done.
      * intros x Hx. apply Hsub. now right.
      * apply Hstep; [|done]. apply Hsub. now left.
      * split; [done|]. intros err rest' ->. intros x Hx. right.
        now apply (Hrest err rest').
    + intros [= <- <-]. split.
      * apply Hstep; [|done]. apply Hsub. now left.
      * intros err' rest' [= <- <-]. intros x Hx. now right.
Qed.


End Load_sessions.

Lemma count_free_frees_none (s : SessionHandle) (w : World)
    (ts : list TargetRef) :
  (forall t, t ∈ ts -> session_of w t <> Some s) ->
  count_free s (frees (targets w) ts) = 0.
Proof.
  intros Hnone. apply count_free_absent. intros Hin.
  apply frees_are_frees in Hin as (t & s' & Ht & Hs & [= <-]).
  now apply (Hnone t Ht).
Qed.

Lemma count_free_frees_one (s : SessionHandle) (w : World)
    (ts : list TargetRef) (target : TargetRef) :
  NoDup ts -> target ∈ ts -> session_of w target = Some s ->
  (forall t, t ∈ ts -> session_of w t = Some s -> t = target) ->
  count_free s (frees (targets w) ts) = 1.
Proof.
  induction ts as [|a ts IH]; intros Hnd Hin Hs Huniq; [inversion Hin|].
  apply NoDup_cons in Hnd as [Hnotin Hnd].
  replace (frees (targets w) (a :: ts))
    with (from_option (fun ev => [ev]) [] (EvFree <$> session_of w a)
          ++ frees (targets w) ts).
  2:{ unfold frees, session_of. cbn [omap list_omap].
      now destruct (targets w !! a ≫= EncryptionTarget.session). }
  rewrite count_free_app.
  destruct (decide (a = target)) as [->|Hne].
  - rewrite Hs. cbn [fmap option_fmap option_map from_option].
    rewrite count_free_frees_none.
    + unfold count_free. cbn. now rewrite Nat.eqb_refl.
    + intros t Ht Hst. apply Hnotin. rewrite <- (Huniq t); [done| |done].
      now right.
  - apply elem_of_cons in Hin as [->|Hin]; [done|].
    rewrite IH; try done.
    + destruct (session_of w a) as [s'|] eqn:Hsa; [|done].
      cbn. unfold count_free. cbn.
      destruct (Nat.eqb s s') eqn:Heq; [|done].
      apply Nat.eqb_eq in Heq. subst s'. exfalso. apply Hne.
      apply Huniq; [now left | done].
    + intros t Ht. apply Huniq. now right.
Qed.

Section Load_failure.

Variable this : Encryption.


End Load_failure.



Section Create_step.

Variable this : Encryption.


End Create_step.

Section Fail_together.

Variable this : Encryption.
Variables (type : string) (content : JsValue).
Variable devices : list DeviceIdentity.t.
Variable hsApi : HsApi.


End Fail_together.

(** ** The payload of the key claim *)

Lemma fold_left_ext {A B : Type} (f g : A -> B -> A) (l : list B) (a : A) :
  (forall a b, f a b = g a b) -> fold_left f l a = fold_left g l a.
Proof.
  intros Hfg. revert a. induction l as [|b l IH]; intros a; [done|].
  cbn [fold_left]. now rewrite Hfg, IH.
Qed.

Lemma fold_set_elem {X V : Type} (fk : X -> string) (fv : X -> V) (k : string)
    (v : V) (xs : list X) (o : list (string * V)) :
  (k, v) ∈ fold_left (fun o x => obj_set (fk x) (fv x) o) xs o ->
  (k, v) ∈ o \/ exists x, x ∈ xs /\ fk x = k /\ fv x = v.
Proof.
  revert o. induction xs as [|x xs IH]; intros o; cbn [fold_left]; [now left|].
  intros Hin. destruct (IH _ Hin) as [Hk|(y & Hy & Hky & Hvy)].
  - apply obj_set_elem in Hk as [[-> ->]|Hk]; [|now left].
    right. exists x. split; [now left | done].
  - right. exists y. split; [now right | done].
Qed.

(** Assignments to the properties of an object. *)
Section Prop_set.

Context {V : Type}.
Implicit Types (k : string) (v : V) (o : list (string * V)).

Lemma obj_get_None_keys k o : obj_get k o = None -> k ∉ o.*1.
Proof.
  induction o as [|[k0 v0] o IH]; cbn [obj_get fmap list_fmap fst].
  - intros _ H. inversion H.
  - destruct (String.eqb k k0) eqn:Hk; [done|]. apply String.eqb_neq in Hk.
    intros Hget Hin. apply elem_of_cons in Hin as [Hin|Hin]; [done|].
    by apply IH.
Qed.

Lemma index_insert_Permutation (n : N) k v o :
  index_insert n k v o ≡ₚ (k, v) :: o.
Proof.
  induction o as [|[k0 v0] o IH]; cbn [index_insert]; [done|].
  destruct (array_index k0) as [n0|]; [| done].
  destruct (n0 <? n)%N; [| done].
  rewrite IH. apply Permutation_swap.
Qed.

Lemma obj_get_index_insert (n : N) k0 k v o :
  obj_get k o = None ->
  obj_get k0 (index_insert n k v o)
  = if String.eqb k0 k then Some v else obj_get k0 o.
Proof.
  induction o as [|[k1 v1] o IH]; cbn [index_insert obj_get]; [done|].
  destruct (String.eqb k k1) eqn:Hk; [done|]. intros Hget.
  assert (forall b : bool,
            obj_get k0 (if b then (k1, v1) :: index_insert n k v o
                        else (k, v) :: (k1, v1) :: o)
            = if String.eqb k0 k then Some v
              else if String.eqb k0 k1 then Some v1 else obj_get k0 o) as H.
  { intros [|]; cbn [obj_get]; [| done].
    rewrite IH by done.
    destruct (String.eqb k0 k1) eqn:H1, (String.eqb k0 k) eqn:H2; try done.
    apply String.eqb_eq in H1, H2. subst k1 k0.
    by rewrite String.eqb_refl in Hk. }
  destruct (array_index k1) as [n1|]; [apply H | apply (H false)].
Qed.

Lemma obj_get_prop_set k0 k v o :
  obj_get k0 (prop_set k v o)
  = if String.eqb k "__proto__" then obj_get k0 o
    else if String.eqb k0 k then Some v else obj_get k0 o.
Proof.
  unfold prop_set. destruct (String.eqb k "__proto__"); [done|].
  destruct (obj_get k o) as [v'|] eqn:Hget; [apply obj_get_set|].
  destruct (array_index k) as [n|];
    [by apply obj_get_index_insert | apply obj_get_set].
Qed.

Lemma prop_set_elem k k0 v v0 o :
  (k0, v0) ∈ prop_set k v o ->
  (k0 = k /\ v0 = v /\ k <> "__proto__") \/ (k0, v0) ∈ o.
Proof.
  unfold prop_set. destruct (String.eqb k "__proto__") eqn:Hk; [by right|].
  apply String.eqb_neq in Hk. intros Hin.
  enough ((k0 = k /\ v0 = v) \/ (k0, v0) ∈ o) as [[-> ->]|Hin'];
    [by left | by right |].
  destruct (obj_get k o) as [v'|] eqn:Hget; [by apply obj_set_elem|].
  destruct (array_index k) as [n|]; [| by apply obj_set_elem].
  rewrite index_insert_Permutation in Hin.
  apply elem_of_cons in Hin as [[= -> ->]|Hin]; [by left | by right].
Qed.

Lemma prop_set_keys_NoDup k v o :
  NoDup (o.*1) -> NoDup ((prop_set k v o).*1).
Proof.
  intros Hnd. unfold prop_set. destruct (String.eqb k "__proto__"); [done|].
  destruct (obj_get k o) as [v'|] eqn:Hget; [by apply obj_set_keys_NoDup|].
  destruct (array_index k) as [n|]; [| by apply obj_set_keys_NoDup].
  rewrite index_insert_Permutation. cbn. constructor; [| done].
  by apply obj_get_None_keys.
Qed.

End Prop_set.

(** Folding assignments into an object. *)
Section Fold_prop_set.

Context {X V : Type} (fk : X -> string) (fv : X -> V).

Lemma fold_prop_other (k : string) (xs : list X) (o : list (string * V)) :
  Forall (fun x => fk x <> k) xs ->
  obj_get k (fold_left (fun o x => prop_set (fk x) (fv x) o) xs o)
  = obj_get k o.
Proof.
  revert o. induction xs as [|x xs IH]; intros o Hall; [done|].
  inversion Hall as [|? ? Hx Hxs]; subst. cbn [fold_left].
  rewrite IH by done. rewrite obj_get_prop_set.
  destruct (String.eqb (fk x) "__proto__"); [done|].
  destruct (String.eqb k (fk x)) eqn:Hk; [|done].
  apply String.eqb_eq in Hk. congruence.
Qed.

Lemma fold_prop_found (k : string) (v : V) (xs : list X)
    (o : list (string * V)) :
  k <> "__proto__" ->
  Exists (fun x => fk x = k) xs ->
  Forall (fun x => fk x = k -> fv x = v) xs ->
  obj_get k (fold_left (fun o x => prop_set (fk x) (fv x) o) xs o) = Some v.
Proof.
  intros Hproto. revert o. induction xs as [|x xs IH]; intros o Hex Hall;
    [inversion Hex|].
  inversion Hall as [|? ? Hx Hxs]; subst. cbn [fold_left].
  destruct (decide (Exists (fun x => fk x = k) xs)) as [Hin|Hnotin].
  - now apply IH.
  - inversion Hex as [? ? Hhd|? ? Htl]; subst; [|done].
    rewrite fold_prop_other.
    + rewrite obj_get_prop_set, String.eqb_refl.
      apply String.eqb_neq in Hproto. rewrite Hproto. f_equal. auto.
    + apply Forall_forall. intros y Hy Hk. apply Hnotin.
      apply Exists_exists. eauto.
Qed.

Lemma fold_prop_elem (k : string) (v : V) (xs : list X)
    (o : list (string * V)) :
  (k, v) ∈ fold_left (fun o x => prop_set (fk x) (fv x) o) xs o ->
  (k, v) ∈ o \/
  exists x, x ∈ xs /\ fk x = k /\ fv x = v /\ k <> "__proto__".
Proof.
  revert o. induction xs as [|x xs IH]; intros o; cbn [fold_left]; [now left|].
  intros Hin. destruct (IH _ Hin) as [Hk|(y & Hy & Hky)].
  - apply prop_set_elem in Hk as [(-> & -> & Hproto)|Hk]; [|now left].
    right. exists x. split; [now left | done].
  - right. exists y. split; [now right | done].
Qed.

Lemma fold_prop_NoDup (xs : list X) (o : list (string * V)) :
  NoDup (o.*1) ->
  NoDup ((fold_left (fun o x => prop_set (fk x) (fv x) o) xs o).*1).
Proof.
  revert o. induction xs as [|x xs IH]; intros o Hnd; [done|].
  cbn [fold_left]. apply IH. now apply prop_set_keys_NoDup.
Qed.

(** No assignment gives the object a property named [__proto__]. *)
Lemma fold_prop_proto (xs : list X) (o : list (string * V)) :
  obj_get "__proto__"
    (fold_left (fun o x => prop_set (fk x) (fv x) o) xs o)
  = obj_get "__proto__" o.
Proof.
  revert o. induction xs as [|x xs IH]; intros o; [done|].
  cbn [fold_left]. rewrite IH, obj_get_prop_set.
  destruct (String.eqb (fk x) "__proto__") eqn:Hk; [done|].
  rewrite String.eqb_sym, Hk. done.
Qed.

End Fold_prop_set.

Lemma claim_payload_eq
    (devicesByUser : list (string * list (string * DeviceIdentity.t))) :
  claim_payload devicesByUser =
  JsObj [("timeout", JsNum 10000);
         ("one_time_keys", JsObj (users_obj devicesByUser))].
Proof.
  unfold claim_payload, users_obj, devices_obj. do 5 f_equal.
  apply fold_left_ext. now intros usersObj [userId deviceMap].
Qed.

Section Claim_payload.

Variable deviceIdentities : list DeviceIdentity.t.

Lemma grouped_section (u : string) (deviceMap : list (string * DeviceIdentity.t))
  (d : string) (device : DeviceIdentity.t) :
(u, deviceMap) ∈ devicesByUser_of deviceIdentities ->
(d, device) ∈ deviceMap ->
device ∈ deviceIdentities /\ DeviceIdentity.userId device = u /\
DeviceIdentity.deviceId device = d.
Proof.
intros Hu Hd.
pose proof (devicesByUser_grouped deviceIdentities) as Hg.
apply (grouped_sound _ _ Hg). unfold lookup_device.
rewrite (obj_get_NoDup u deviceMap); [|apply (grouped_users _ _ Hg)|done].
cbn. apply obj_get_NoDup; [|done].
now apply (grouped_devices _ _ Hg u).
Qed.

(** A requested device has its entry, unless its user id or its device id
    is the name [__proto__]. *)
Lemma users_obj_requested (device : DeviceIdentity.t) :
device ∈ deviceIdentities ->
DeviceIdentity.userId device <> "__proto__" ->
DeviceIdentity.deviceId device <> "__proto__" ->
exists devs,
  obj_get (DeviceIdentity.userId device)
    (users_obj (devicesByUser_of deviceIdentities)) = Some (JsObj devs) /\
  obj_get (DeviceIdentity.deviceId device) devs = Some (JsStr OTK_ALGORITHM).
Proof.
intros Hin Huser Hdevice.
pose proof (devicesByUser_grouped deviceIdentities) as Hg.
destruct (grouped_complete _ _ Hg device Hin) as [device' Hlookup].
unfold lookup_device in Hlookup.
destruct (obj_get _ (devicesByUser_of deviceIdentities)) as [deviceMap|]
  eqn:Hu; [|discriminate].
cbn in Hlookup. apply obj_get_elem in Hu, Hlookup.
exists (devices_obj deviceMap). split.
- unfold users_obj.
  apply (fold_prop_found fst (fun entry => JsObj (devices_obj entry.2)));
    [done| |].
  + apply Exists_exists. now exists (DeviceIdentity.userId device, deviceMap).
  + apply Forall_forall. intros [u m] Hm. cbn. intros ->.
    enough (m = deviceMap) as -> by done.
    pose proof (obj_get_NoDup _ _ _ (grouped_users _ _ Hg) Hm) as Hm'.
    pose proof (obj_get_NoDup _ _ _ (grouped_users _ _ Hg) Hu) as Hu'.
    congruence.
- unfold devices_obj.
  apply (fold_prop_found DeviceIdentity.deviceId (fun _ => JsStr OTK_ALGORITHM));
    [done| |].
  + apply Exists_exists. exists device'. split.
    * apply list_elem_of_fmap. now exists (DeviceIdentity.deviceId device, device').
    * now destruct (grouped_section _ _ _ _ Hu Hlookup) as (_ & _ & ?).
  + now apply Forall_forall.
Qed.

Lemma users_obj_only_requested (u : string) (v : JsValue) :
(u, v) ∈ users_obj (devicesByUser_of deviceIdentities) ->
exists devs,
  v = JsObj devs /\ NoDup (devs.*1) /\
  forall d x, (d, x) ∈ devs ->
    x = JsStr OTK_ALGORITHM /\
    exists device, device ∈ deviceIdentities /\
                   DeviceIdentity.userId device = u /\
                   DeviceIdentity.deviceId device = d.
Proof.
intros Hin. unfold users_obj in Hin.
apply fold_prop_elem in Hin as [Hin|([u' m] & Hm & Hk & Hv & _)];
  [inversion Hin|].
cbn in Hk, Hv. subst u' v. exists (devices_obj m).
split; [done|]. split.
- unfold devices_obj. apply fold_prop_NoDup. constructor.
- intros d x Hdx. unfold devices_obj in Hdx.
  apply fold_prop_elem in Hdx as [Hdx|(device & Hdev & Hd & Hx & _)];
    [inversion Hdx|].
  split; [done|]. exists device.
  apply list_elem_of_fmap in Hdev as ([d' device'] & -> & Hdev). cbn in *.
  destruct (grouped_section _ _ _ _ Hm Hdev) as (? & ? & ?).
  split; [done|]. split; [done|]. exact Hd.
Qed.

Lemma users_obj_NoDup :
NoDup ((users_obj (devicesByUser_of deviceIdentities)).*1).
Proof. unfold users_obj. apply fold_prop_NoDup. constructor. Qed.

(** Neither the object under [one_time_keys] nor the object of a user has
    a property named [__proto__]. *)
Lemma users_obj_proto :
obj_get "__proto__" (users_obj (devicesByUser_of deviceIdentities)) = None /\
forall u devs,
  (u, JsObj devs) ∈ users_obj (devicesByUser_of deviceIdentities) ->
  obj_get "__proto__" devs = None.
Proof.
split.
- unfold users_obj. by rewrite fold_prop_proto.
- intros u devs Hin. unfold users_obj in Hin.
  apply fold_prop_elem in Hin as [Hin|([u' m] & _ & _ & Hv & _)];
    [inversion Hin|].
  cbn in Hv. injection Hv as <-. unfold devices_obj.
  by rewrite fold_prop_proto.
Qed.

End Claim_payload.

(** ** [_storeSessions], awaited *)

Lemma write_outcomes_exclusive (this : Encryption) (timestamp : Z) (w : World)
    (ts : list TargetRef) :
  Exists (fun target => exists err,
            write_outcome this timestamp w target = Throw err) ts ->
  Forall (fun target => exists sessionEntry,
            write_outcome this timestamp w target = Ok sessionEntry) ts ->
  False.
Proof.
  intros Hex Hall. apply Exists_exists in Hex as (t & Hin & err & Herr).
  rewrite Forall_forall in Hall. destruct (Hall t Hin) as [e He]. congruence.
Qed.

Lemma storeSessions_run (this : Encryption) (encryptionTargets : list TargetRef)
    (timestamp : Z) (w : World) :
  let txn := next_txn w in
  let run := _storeSessions this encryptionTargets timestamp w in
  exists sets,
    Forall (fun ev => exists owner sessionEntry,
              owner ∈ encryptionTargets /\
              ev = EvSet txn owner sessionEntry) sets /\
    (Exists (fun target => exists err,
               write_outcome this timestamp w target = Throw err)
       encryptionTargets /\
     (exists err, run.1 = Throw err) /\
     trace run.2 = trace w ++ EvReadWriteTxn txn :: sets ++ [EvAbort txn]
     \/
     Forall2 (fun target ev =>
                exists sessionEntry,
                  write_outcome this timestamp w target = Ok sessionEntry /\
                  ev = EvSet txn target sessionEntry)
       encryptionTargets sets /\
     trace run.2 =
       trace w ++ EvReadWriteTxn txn :: sets ++ EvComplete txn ::
         (if complete_succeeds (_storage this) txn then [EvCommitted txn]
          else []) /\
     run.1 = (if complete_succeeds (_storage this) txn then Ok tt
              else Throw StorageError)).
Proof.
  cbn zeta. unfold _storeSessions. rewrite bind_run.
  destruct (storeSessions_prefix_run this timestamp encryptionTargets w)
    as (sets & Hsets & [(Hex & err & ->)|(Hall & ->)]); exists sets;
    (split; [exact Hsets|]).
  - left. split; [exact Hex|]. split; [eauto|]. done.
  - right. split; [exact Hall|]. unfold await_complete.
    destruct (complete_succeeds _ _); cbn [log throw fst snd add_events trace].
    + split; [|done]. rewrite <- !app_assoc. cbn. now rewrite <- app_assoc.
    + done.
Qed.

(** ** The callback of [encryptionTargets.map] *)

Lemma encrypt_map_callback_throws (this : Encryption) (type : string)
    (content : JsValue) (target : TargetRef) (w : World) :
  encrypt_map_callback this type content target w = (Throw ReferenceError, w).
Proof. reflexivity. Qed.

Lemma encrypt_returns_no_message (this : Encryption) (type : string)
    (content : JsValue) (devices : list DeviceIdentity.t) (hsApi : HsApi)
    (w : World) (messages : list EncryptedMessage.t) :
  (encrypt this type content devices hsApi w).1 = Ok messages -> messages = [].
Proof.
  unfold encrypt. rewrite bind_run.
  destruct (_findExistingSessions this devices w)
    as [[[devicesWithoutSession existing]|err] w1]; [|discriminate].
  unfold encrypt_try.
  destruct (if negb _ then _ else _) as [[newT|err] w2].
  2:{ cbn. now destruct (ret tt w2). }
  destruct (_loadSessions this existing w2) as [[[]|err] w3].
  2:{ destruct (for_of _ dispose w3) as [[[]|err'] w4]; discriminate. }
  destruct (([] ++ newT) ++ existing) as [|target rest].
  - cbn [map_i ret].
    destruct (_storeSessions this [] (_now this) w3) as [[[]|err] w4];
      cbn [for_of ret]; [now intros [= <-] | discriminate].
  - cbn [map_i]. rewrite bind_run, encrypt_map_callback_throws.
    destruct (for_of _ dispose w3) as [[[]|err'] w4]; discriminate.
Qed.

(** ** What [_createNewSessions] constructs and logs *)

Section New_sessions.

Variable this : Encryption.
Variable devicesWithoutSession : list DeviceIdentity.t.
Variable hsApi : HsApi.
Variable timestamp : Z.

(** A target constructed by [_createNewSessions] stands for a requested
  device whose entry in the response passed both checks. *)
Lemma new_target_provenance (w : World) (t : TargetRef)
  (o : EncryptionTarget.t) :
let run := _createNewSessions this devicesWithoutSession hsApi timestamp w in
length (targets w) <= t -> targets run.2 !! t = Some o ->
exists entries userId userSection deviceId firstPropName keySection rest,
  claimKeys hsApi (claim_payload (devicesByUser_of devicesWithoutSession))
    = Ok (Some entries) /\
  (userId, userSection) ∈ entries /\
  (deviceId, (firstPropName, keySection) :: rest) ∈ userSection /\
  before_colon firstPropName = OTK_ALGORITHM /\
  verifyEd25519Signature (_olmUtil this) userId deviceId
    (DeviceIdentity.ed25519Key (EncryptionTarget.device o)) keySection = true /\
  EncryptionTarget.device o ∈ devicesWithoutSession /\
  DeviceIdentity.userId (EncryptionTarget.device o) = userId /\
  DeviceIdentity.deviceId (EncryptionTarget.device o) = deviceId.
Proof.
cbn zeta. intros Ht Ho.
destruct (createNewSessions_spec this devicesWithoutSession hsApi timestamp w)
  as (objs & _ & Hobjs & Htouch). cbn zeta in *.
pose proof (touches_device _ _ _ _ Htouch t) as Hdev.
rewrite Ho in Hdev. cbn [alloc add_events targets] in Hdev.
rewrite lookup_app_r in Hdev by done.
destruct (objs !! (t - length (targets w))) as [o0|] eqn:Ho0;
  [|discriminate].
cbn in Hdev. injection Hdev as Hdev.
rewrite Forall_forall in Hobjs.
destruct (Hobjs o0) as (entries & u & us & d & sec & Hclaim & Hu & Hd & Hacc).
{ eapply list_elem_of_lookup_2; eauto. }
destruct Hacc as (prop & ks & rest & device & -> & Halg & Hlookup & Hsig & ->).
cbn in Hdev. subst device.
destruct (grouped_sound _ _ (devicesByUser_grouped devicesWithoutSession)
            _ _ _ Hlookup) as (Hin & Hu' & Hd').
exists entries, u, us, d, prop, ks, rest. done.
Qed.

(** Next to the one key claim, [_createNewSessions] creates sessions only
  for targets it has constructed itself. *)
Lemma createNewSessions_events (w : World) :
let run := _createNewSessions this devicesWithoutSession hsApi timestamp w in
exists evs,
  trace run.2 =
    trace w ++
    EvClaimKeys (claim_payload (devicesByUser_of devicesWithoutSession)) :: evs /\
  Forall (fun ev =>
            (forall payload, ev <> EvClaimKeys payload) /\
            forall owner s,
              ev = EvCreateOutbound owner s ->
              length (targets w) <= owner < length (targets run.2)) evs.
Proof.
cbn zeta.
destruct (createNewSessions_spec this devicesWithoutSession hsApi timestamp w)
  as (objs & _ & _ & [Hlen _ _ (evs & Htrace & Hevs) _]). cbn zeta in *.
cbn [alloc add_events targets trace] in *.
exists evs. split; [now rewrite Htrace, <- app_assoc|].
eapply Forall_impl; [exact Hevs|]. intros ev Hev. split.
- intros payload ->. exact Hev.
- intros owner s ->. cbn in Hev. apply elem_of_seq in Hev.
  rewrite Hlen, length_app. lia.
Qed.

End New_sessions.

(** * The properties of the design document *)

(** ** C1: a device with a live session *)

(** C1 (the code departs from the claim): [encrypt] is called for the
    device of alice, whose one session is stored and loads.  The target
    holds the session 0, yet the call throws a [ReferenceError] instead of
    returning one message: the callback of [encryptionTargets.map] reads
    its own [const content] before it is initialised. *)
Theorem encrypt_throws_with_a_live_session :
  let run :=
    encrypt (example_encryption [] (example_storage known_sessions [] 0))
      "m.room_key" example_content [alice_phone] (example_hsApi [])
      empty_world in
  session_of run.2 0 = Some 0 /\
  EncryptionTarget.device <$> targets run.2 !! 0 = Some alice_phone /\
  run.1 = Throw ReferenceError.
Proof. repeat split. Qed.

(** ** C2: releasing the sessions *)

(** C2 (the code departs from the claim): [encrypt] is called for the
    devices of alice and bob, both without a session and both with a
    signed key in the response; creating the session succeeds for alice
    and throws for bob.  The [catch] block of [_createNewSessions] frees
    the session 0 of the target of alice and returns the targets, and the
    [finally] block of [encrypt] frees it again. *)
Theorem session_freed_twice :
  let run :=
    encrypt (example_encryption ["curve-bob"] (example_storage [] [] 0))
      "m.room_key" example_content [alice_phone; bob_laptop]
      (example_hsApi
         [("@alice:example.org", [claimed_key "signed_curve25519" alice_phone]);
          ("@bob:example.org", [claimed_key "signed_curve25519" bob_laptop])])
      empty_world in
  session_of run.2 0 = Some 0 /\
  count_free 0 (trace run.2) = 2.
Proof. repeat split. Qed.

(** ** C3: the current session of a device *)

(** Session ids are made by olm and are never empty.  The reduction of
    [findFirstSessionId] would treat an empty accumulator like [null]: for
    ["", "s1"] it answers "s1", and for the same ids in the other order it
    answers "".  Hence the condition on the ids below. *)
Lemma findFirstSessionId_empty_id :
  findFirstSessionId [""; "s1"] = Some "s1" /\
  js_lt "" (Some "s1") = true /\
  findFirstSessionId ["s1"; ""] = Some "".
Proof. repeat split. Qed.

(** C3: when the store answers for a device with one or more session ids
    (none of them the empty string), [_findExistingSessions] constructs for
    that device a target whose session id is an id of the answer that no id
    of the answer is below, in the order of [<] on JavaScript strings (code
    unit by code unit); and from every reordering of the answer
    [findFirstSessionId] picks an id with the same code units, that is, the
    same JavaScript string: for ASCII ids, the same id. *)
Theorem findExistingSessions_selects_smallest (this : Encryption)
    (devices devicesWithoutSession : list DeviceIdentity.t)
    (existingEncryptionTargets : list TargetRef) (w w' : World)
    (i : nat) (device : DeviceIdentity.t) (sessionIds : list string) :
  _findExistingSessions this devices w
    = (Ok (devicesWithoutSession, existingEncryptionTargets), w') ->
  devices !! i = Some device ->
  getSessionIds (_storage this) (DeviceIdentity.curve25519Key device)
    = Ok (Some sessionIds) ->
  sessionIds <> [] ->
  Forall (fun sessionId => sessionId <> "") sessionIds ->
  exists target first,
    target ∈ existingEncryptionTargets /\
    targets w' !! target
      = Some (EncryptionTarget.mk device None (Some first) None) /\
    first ∈ sessionIds /\
    Forall (fun sessionId => js_lt sessionId (Some first) = false) sessionIds /\
    forall reordered,
      reordered ≡ₚ sessionIds ->
      exists first',
        findFirstSessionId reordered = Some first' /\
        first' ∈ reordered /\ code_units first' = code_units first /\
        (Forall ascii_only sessionIds -> first' = first).
Proof.
  intros Hrun Hi Hget Hne Hall.
  destruct (findExistingSessions_spec _ _ _ _ _ _ Hrun)
    as (-> & _ & -> & _).
  destruct (findFirstSessionId_least sessionIds Hne Hall)
    as (first & Hfirst & Hin & Hle).
  assert (existing_target this device
          = Some (EncryptionTarget.mk device None (Some first) None)) as Hobj.
  { unfold existing_target, sessionIds_of. rewrite Hget.
    destruct sessionIds as [|s l]; [done|]. cbn [has_length from_option id].
    now rewrite Hfirst. }
  assert (EncryptionTarget.mk device None (Some first) None
          ∈ omap (existing_target this) devices) as Hobjs.
  { apply list_elem_of_omap. exists device. split; [|done].
    eapply list_elem_of_lookup_2; eauto. }
  apply list_elem_of_lookup in Hobjs as [j Hj].
  exists (length (targets w) + j), first.
  split; [|split; [|split; [done|split; [done|]]]].
  - apply elem_of_seq. apply lookup_lt_Some in Hj. lia.
  - cbn [alloc add_events targets]. rewrite lookup_app_r by lia.
    now replace (length (targets w) + j - length (targets w)) with j by lia.
  - intros reordered Hperm.
    destruct (findFirstSessionId_permutation sessionIds reordered first
                Hall Hperm Hfirst) as (first' & Hfirst' & Hin' & Hunits).
    exists first'. split; [done|]. split; [done|]. split; [done|].
    intros Hascii. rewrite Forall_forall in Hascii.
    apply code_units_inj_ascii; [apply Hascii; by rewrite <- Hperm | | done].
    by apply Hascii.
Qed.

(** The scenario of the design document: for the device of bob the store
    answers ["s3", "s1"], and the target of bob gets "s1". *)
Lemma findExistingSessions_selects_smallest_witness :
  targets
    (_findExistingSessions
       (example_encryption [] (example_storage known_sessions [] 0))
       [alice_phone; bob_laptop] empty_world).2 !! 1
  = Some (EncryptionTarget.mk bob_laptop None (Some "s1") None) /\
  exists target first,
    target ∈ [0; 1] /\
    targets
      (_findExistingSessions
         (example_encryption [] (example_storage known_sessions [] 0))
         [alice_phone; bob_laptop] empty_world).2 !! target
      = Some (EncryptionTarget.mk bob_laptop None (Some first) None) /\
    first ∈ ["s3"; "s1"] /\
    Forall (fun sessionId => js_lt sessionId (Some first) = false)
      ["s3"; "s1"] /\
    forall reordered,
      reordered ≡ₚ ["s3"; "s1"] ->
      exists first',
        findFirstSessionId reordered = Some first' /\
        first' ∈ reordered /\ code_units first' = code_units first /\
        (Forall ascii_only ["s3"; "s1"] -> first' = first).
Proof.
  split; [reflexivity |].
  apply (findExistingSessions_selects_smallest
           (example_encryption [] (example_storage known_sessions [] 0))
           [alice_phone; bob_laptop] [] [0; 1] empty_world _ 1 bob_laptop
           ["s3"; "s1"]).
  - reflexivity.
  - reflexivity.
  - reflexivity.
  - discriminate.
  - repeat constructor; discriminate.
Defined.

(** ** C4: a session that fails to load *)




(** ** C5: persisting a new session *)

(** C5 (the code departs from the claim): in the same call the session of
    the device of alice is created, but the exception that the session of
    bob raises skips [_storeSessions]: the log of the call, which ends in
    the [ReferenceError] of the encryption step for alice, holds no write
    to the store at all.  In the call for alice alone the entry is set and
    [complete()] is called, but the commit is not awaited ([EvCommitted] is
    missing) when the encryption step for alice is reached. *)
Theorem new_session_not_persisted :
  (let run :=
     encrypt (example_encryption ["curve-bob"] (example_storage [] [] 0))
       "m.room_key" example_content [alice_phone; bob_laptop]
       (example_hsApi
          [("@alice:example.org", [claimed_key "signed_curve25519" alice_phone]);
           ("@bob:example.org", [claimed_key "signed_curve25519" bob_laptop])])
       empty_world in
   run.1 = Throw ReferenceError /\
   trace run.2 =
     [EvReadTxn 0;
      EvClaimKeys
        (JsObj
           [("timeout", JsNum 10000);
            ("one_time_keys",
             JsObj
               [("@alice:example.org",
                 JsObj [("ALICEPHONE", JsStr "signed_curve25519")]);
                ("@bob:example.org",
                 JsObj [("BOBLAPTOP", JsStr "signed_curve25519")])])]);
      EvCreateOutbound 0 0; EvFree 0; EvReadTxn 1; EvFree 0]) /\
  (let run :=
     encrypt (example_encryption [] (example_storage [] [] 0))
       "m.room_key" example_content [alice_phone]
       (example_hsApi
          [("@alice:example.org", [claimed_key "signed_curve25519" alice_phone])])
       empty_world in
   run.1 = Throw ReferenceError /\
   trace run.2 =
     [EvReadTxn 0;
      EvClaimKeys
        (JsObj
           [("timeout", JsNum 10000);
            ("one_time_keys",
             JsObj
               [("@alice:example.org",
                 JsObj [("ALICEPHONE", JsStr "signed_curve25519")])])]);
      EvCreateOutbound 0 0; EvReadWriteTxn 1;
      EvSet 1 0 (SessionEntry.mk "pickle-0" "sid-0" "curve-alice" 1600000000000);
      EvComplete 1; EvReadTxn 2; EvFree 0]).
Proof. repeat split. Qed.

(** ** C6: a claimed key that fails its checks *)

Lemma same_key_same_value {V : Type} (o : list (string * V)) (k : string)
    (v v' : V) :
  NoDup (o.*1) -> (k, v) ∈ o -> (k, v') ∈ o -> v = v'.
Proof.
  intros Hnd Hv Hv'. apply (obj_get_NoDup _ _ _ Hnd) in Hv, Hv'. congruence.
Qed.

(** C6: let the response hold, for a user and a device, a device section
    whose first property names an algorithm other than signed_curve25519,
    or carries a key section that does not verify with the ed25519 key of
    the device of that name among the devices of the call.  Then [encrypt]
    gives the same result and leaves the same world, with the same log of
    outside calls, as when the response lacks that device section: no
    exception comes from it.  No target that [_createNewSessions]
    constructs stands for that user and device, and no session is created
    for them. *)
Theorem failed_key_check_drops_device (this : Encryption) (type : string)
    (content : JsValue) (devices : list DeviceIdentity.t)
    (hsApi hsApi' : HsApi) (before after : UserKeyMap) (userId : string)
    (before_d after_d : UserSection) (deviceId firstPropName : string)
    (keySection : KeySection.t) (rest : DeviceSection) :
  let dropped := (deviceId, (firstPropName, keySection) :: rest) in
  let response := before ++ (userId, before_d ++ dropped :: after_d) :: after in
  (forall payload, claimKeys hsApi payload = Ok (Some response)) ->
  (forall payload,
     claimKeys hsApi' payload
     = Ok (Some (before ++ (userId, before_d ++ after_d) :: after))) ->
  NoDup (response.*1) ->
  NoDup ((before_d ++ dropped :: after_d).*1) ->
  (before_colon firstPropName <> OTK_ALGORITHM \/
   forall device, device ∈ devices ->
     DeviceIdentity.userId device = userId ->
     DeviceIdentity.deviceId device = deviceId ->
     verifyEd25519Signature (_olmUtil this) userId deviceId
       (DeviceIdentity.ed25519Key device) keySection = false) ->
  (forall w,
     encrypt this type content devices hsApi w
     = encrypt this type content devices hsApi' w) /\
  (forall devicesWithoutSession timestamp w,
     devicesWithoutSession ⊆ devices ->
     let run :=
       _createNewSessions this devicesWithoutSession hsApi timestamp w in
     (forall target o,
        length (targets w) <= target -> targets run.2 !! target = Some o ->
        ~ (DeviceIdentity.userId (EncryptionTarget.device o) = userId /\
           DeviceIdentity.deviceId (EncryptionTarget.device o) = deviceId)) /\
     exists evs,
       trace run.2 = trace w ++ evs /\
       forall owner s,
         EvCreateOutbound owner s ∈ evs ->
         exists o,
           targets run.2 !! owner = Some o /\
           ~ (DeviceIdentity.userId (EncryptionTarget.device o) = userId /\
              DeviceIdentity.deviceId (EncryptionTarget.device o) = deviceId)).
Proof.
  cbn zeta. intros Hclaim Hclaim' Husers Hdevices Hfails. split.
  - intros w. apply encrypt_hsApi. intros deviceIdentities w0 Hsub.
    unfold _claimOneTimeKeys. rewrite !bind_run. cbn [log].
    rewrite !bind_run. unfold lift. rewrite Hclaim, Hclaim'.
    now apply (verify_without_entry this devices).
  - intros devicesWithoutSession timestamp w Hsub.
    assert (forall target o,
      length (targets w) <= target ->
      targets (_createNewSessions this devicesWithoutSession hsApi timestamp w).2
        !! target = Some o ->
      ~ (DeviceIdentity.userId (EncryptionTarget.device o) = userId /\
         DeviceIdentity.deviceId (EncryptionTarget.device o) = deviceId))
      as Hnone.
    { intros target o Hnew Ho [Hu Hd].
      destruct (new_target_provenance this devicesWithoutSession hsApi
                  timestamp w target o Hnew Ho)
        as (entries & u' & us' & d' & prop' & ks' & rest' & Hentries & Hus
            & Hsec & Halg & Hsig & Hin & Hu' & Hd').
      rewrite Hclaim in Hentries. injection Hentries as <-.
      rewrite Hu in Hu'. rewrite Hd in Hd'. subst u' d'.
      assert (us' = before_d
                      ++ (deviceId, (firstPropName, keySection) :: rest)
                      :: after_d) as ->.
      { apply (same_key_same_value _ userId _ _ Husers Hus).
        apply elem_of_app. right. now left. }
      assert ((prop', ks') :: rest' = (firstPropName, keySection) :: rest)
        as [= -> -> ->].
      { apply (same_key_same_value _ deviceId _ _ Hdevices Hsec).
        apply elem_of_app. right. now left. }
      destruct Hfails as [Hfails|Hfails]; [done|].
      rewrite (Hfails (EncryptionTarget.device o)) in Hsig; try done.
      now apply Hsub. }
    split; [exact Hnone|].
    destruct (createNewSessions_events this devicesWithoutSession hsApi
                timestamp w) as (evs & Htrace & Hevs). cbn zeta in *.
    eexists. split; [exact Htrace|]. intros owner s Hin.
    apply elem_of_cons in Hin as [Hin|Hin]; [discriminate|].
    rewrite Forall_forall in Hevs.
    destruct (Hevs _ Hin) as [_ Howner].
    specialize (Howner owner s eq_refl).
    destruct (lookup_lt_is_Some_2 _ owner (proj2 Howner)) as [o Ho].
    exists o. split; [done|]. apply (Hnone owner); [lia | done].
Qed.

(** The scenario of the design document: the key claimed for the device of
    carol is an unsigned curve25519 key. *)
Lemma failed_key_check_drops_device_witness :
  let this := example_encryption [] (example_storage [] [] 0) in
  let bob := ("@bob:example.org", [claimed_key "signed_curve25519" bob_laptop]) in
  let hsApi :=
    example_hsApi
      [("@carol:example.org", [claimed_key "curve25519" carol_tablet]); bob] in
  let hsApi' := example_hsApi [("@carol:example.org", []); bob] in
  (forall w,
     encrypt this "m.room_key" example_content [carol_tablet; bob_laptop] hsApi w
     = encrypt this "m.room_key" example_content [carol_tablet; bob_laptop]
         hsApi' w) /\
  (forall devicesWithoutSession timestamp w,
     devicesWithoutSession ⊆ [carol_tablet; bob_laptop] ->
     let run :=
       _createNewSessions this devicesWithoutSession hsApi timestamp w in
     (forall target o,
        length (targets w) <= target -> targets run.2 !! target = Some o ->
        ~ (DeviceIdentity.userId (EncryptionTarget.device o)
           = "@carol:example.org" /\
           DeviceIdentity.deviceId (EncryptionTarget.device o)
           = "CAROLTABLET")) /\
     exists evs,
       trace run.2 = trace w ++ evs /\
       forall owner s,
         EvCreateOutbound owner s ∈ evs ->
         exists o,
           targets run.2 !! owner = Some o /\
           ~ (DeviceIdentity.userId (EncryptionTarget.device o)
              = "@carol:example.org" /\
              DeviceIdentity.deviceId (EncryptionTarget.device o)
              = "CAROLTABLET")).
Proof.
  cbn zeta.
  apply (failed_key_check_drops_device
           (example_encryption [] (example_storage [] [] 0)) "m.room_key"
           example_content [carol_tablet; bob_laptop]
           (example_hsApi
              [("@carol:example.org", [claimed_key "curve25519" carol_tablet]);
               ("@bob:example.org",
                [claimed_key "signed_curve25519" bob_laptop])])
           (example_hsApi
              [("@carol:example.org", []);
               ("@bob:example.org",
                [claimed_key "signed_curve25519" bob_laptop])])
           []
           [("@bob:example.org", [claimed_key "signed_curve25519" bob_laptop])]
           "@carol:example.org" [] [] "CAROLTABLET" "curve25519:AAAAAQ"
           (KeySection.mk "otk-CAROLTABLET"
              [("@carol:example.org", [("ed25519:CAROLTABLET", "ed-carol")])])
           []).
  - intros payload. reflexivity.
  - intros payload. reflexivity.
  - apply (bool_decide_unpack _). vm_compute. exact I.
  - apply (bool_decide_unpack _). vm_compute. exact I.
  - left. vm_compute. discriminate.
Defined.

(** ** C7: the write transaction *)

(** C7 (the code departs from the claim): the store rejects the write of
    the new session of alice.  Called and awaited, [_storeSessions] aborts
    the transaction and throws the error of the store.  But the only call
    of [_storeSessions] that [encrypt] makes with a target is the one in
    [_createNewSessions], whose promise is dropped: the transaction is
    aborted and nothing is written, yet [_createNewSessions] returns the
    target, and [encrypt] goes on to [_loadSessions] and to the encryption
    step.  It ends with the [ReferenceError] of that step, as it does when
    the store accepts the write; the error of the store reaches no
    caller. *)
Theorem failed_write_is_not_reraised :
  (let run :=
     _createNewSessions
       (example_encryption [] (picky_storage ["curve-alice"])) [alice_phone]
       (example_hsApi
          [("@alice:example.org", [claimed_key "signed_curve25519" alice_phone])])
       1600000000000 empty_world in
   run.1 = Ok [0] /\
   trace run.2 =
     [EvClaimKeys
        (JsObj
           [("timeout", JsNum 10000);
            ("one_time_keys",
             JsObj
               [("@alice:example.org",
                 JsObj [("ALICEPHONE", JsStr "signed_curve25519")])])]);
      EvCreateOutbound 0 0; EvReadWriteTxn 0; EvAbort 0] /\
   durable_writes (picky_storage ["curve-alice"]) (trace run.2) = [] /\
   (_storeSessions (example_encryption [] (picky_storage ["curve-alice"]))
      [0] 1600000000000 run.2).1 = Throw StorageError) /\
  (let run :=
     encrypt (example_encryption [] (picky_storage ["curve-alice"]))
       "m.room_key" example_content [alice_phone]
       (example_hsApi
          [("@alice:example.org", [claimed_key "signed_curve25519" alice_phone])])
       empty_world in
   run.1 = Throw ReferenceError /\
   trace run.2 =
     [EvReadTxn 0;
      EvClaimKeys
        (JsObj
           [("timeout", JsNum 10000);
            ("one_time_keys",
             JsObj
               [("@alice:example.org",
                 JsObj [("ALICEPHONE", JsStr "signed_curve25519")])])]);
      EvCreateOutbound 0 0; EvReadWriteTxn 1; EvAbort 1; EvReadTxn 2;
      EvFree 0] /\
   run.1 =
     (encrypt (example_encryption [] (example_storage [] [] 0))
        "m.room_key" example_content [alice_phone]
        (example_hsApi
           [("@alice:example.org",
             [claimed_key "signed_curve25519" alice_phone])])
        empty_world).1).
Proof. repeat split. Qed.

(** ** C8: the wire shape *)

(** C8: the content [_encryptForDevice] returns for a target has the
    properties [algorithm], [sender_key] and [ciphertext] and no other,
    with the olm algorithm name, the own curve25519 key, and under
    [ciphertext] the one property named by the curve25519 key of the device
    that holds what the session of the target made of the plaintext; that
    plaintext holds the own ed25519 key, the ed25519 key of the device, the
    user id of the device, the own user id, the content and the type. *)
Theorem encryptForDevice_wire_shape (this : Encryption) (type : string)
    (content : JsValue) (target : TargetRef) (w w' : World)
    (encryptedContent : JsValue) :
  _encryptForDevice this type content target w = (Ok encryptedContent, w') ->
  exists o s message,
    targets w !! target = Some o /\
    EncryptionTarget.session o = Some s /\
    let device := EncryptionTarget.device o in
    let plaintext :=
      JsObj
        [("keys", JsObj [("ed25519", JsStr (identityKeys_ed25519 (_account this)))]);
         ("recipient_keys",
          JsObj [("ed25519", JsStr (DeviceIdentity.ed25519Key device))]);
         ("recipient", JsStr (DeviceIdentity.userId device));
         ("sender", JsStr (_userId this));
         ("content", content);
         ("type", JsStr type)] in
    session_encrypt (_olm this) s plaintext = Ok message /\
    trace w' = trace w ++ [EvSessionEncrypt s plaintext] /\
    encryptedContent =
      JsObj
        [("algorithm", JsStr "m.olm.v1.curve25519-aes-sha2");
         ("sender_key", JsStr (identityKeys_curve25519 (_account this)));
         ("ciphertext",
          JsObj [(DeviceIdentity.curve25519Key device, message)])].
Proof.
  unfold _encryptForDevice, deref. rewrite bind_run.
  destruct (targets w !! target) as [o|] eqn:Ho; [|discriminate].
  cbn zeta. rewrite bind_run.
  destruct (EncryptionTarget.session o) as [s|] eqn:Hs; [|discriminate].
  rewrite bind_run. cbn [log]. unfold lift.
  destruct (session_encrypt _ _ _) as [message|err] eqn:Hencrypt;
    [|discriminate].
  cbn [ret]. intros [= <- <-]. exists o, s, message. done.
Qed.

(** A world in which the session 0 has been assigned to a target for the
    device of alice. *)
Lemma encryptForDevice_wire_shape_witness :
  exists (o : EncryptionTarget.t) (s : SessionHandle) (message : JsValue),
    [EncryptionTarget.mk alice_phone None (Some "s1") (Some 0)] !! 0 = Some o /\
    EncryptionTarget.session o = Some s /\
    let device := EncryptionTarget.device o in
    let plaintext :=
      JsObj
        [("keys", JsObj [("ed25519", JsStr "ed-own")]);
         ("recipient_keys",
          JsObj [("ed25519", JsStr (DeviceIdentity.ed25519Key device))]);
         ("recipient", JsStr (DeviceIdentity.userId device));
         ("sender", JsStr "@me:example.org");
         ("content", example_content);
         ("type", JsStr "m.room_key")] in
    session_encrypt example_olm s plaintext = Ok message /\
    [EvSessionEncrypt 0
       (JsObj
          [("keys", JsObj [("ed25519", JsStr "ed-own")]);
           ("recipient_keys", JsObj [("ed25519", JsStr "ed-alice")]);
           ("recipient", JsStr "@alice:example.org");
           ("sender", JsStr "@me:example.org");
           ("content", example_content);
           ("type", JsStr "m.room_key")])]
    = [] ++ [EvSessionEncrypt s plaintext] /\
    JsObj
      [("algorithm", JsStr "m.olm.v1.curve25519-aes-sha2");
       ("sender_key", JsStr "curve-own");
       ("ciphertext",
        JsObj [("curve-alice",
                JsObj [("type", JsNum 0); ("body", JsStr "ciphertext")])])]
    = JsObj
        [("algorithm", JsStr "m.olm.v1.curve25519-aes-sha2");
         ("sender_key", JsStr "curve-own");
         ("ciphertext",
          JsObj [(DeviceIdentity.curve25519Key device, message)])].
Proof.
  exact (encryptForDevice_wire_shape
           (example_encryption [] (example_storage [] [] 0)) "m.room_key"
           example_content 0
           {| targets := [EncryptionTarget.mk alice_phone None (Some "s1") (Some 0)];
              next_session := 1; next_txn := 0; trace := [] |}
           (_encryptForDevice
              (example_encryption [] (example_storage [] [] 0)) "m.room_key"
              example_content 0
              {| targets :=
                   [EncryptionTarget.mk alice_phone None (Some "s1") (Some 0)];
                 next_session := 1; next_txn := 0; trace := [] |}).2
           (JsObj
              [("algorithm", JsStr "m.olm.v1.curve25519-aes-sha2");
               ("sender_key", JsStr "curve-own");
               ("ciphertext",
                JsObj [("curve-alice",
                        JsObj [("type", JsNum 0);
                               ("body", JsStr "ciphertext")])])])
           eq_refl).
Defined.

(** ** C9: the key claim *)

(** C9, as stated, fails on the name of the timeout: the payload
    [_claimOneTimeKeys] hands to [hsApi.claimKeys] has the properties
    [timeout] and [one_time_keys], and no property [timeout_ms]. *)
Lemma claim_payload_names_timeout :
  exists props,
    trace
      (_claimOneTimeKeys (example_encryption [] (example_storage [] [] 0))
         (example_hsApi []) [alice_phone; bob_laptop] empty_world).2
    = [EvClaimKeys (JsObj props)] /\
    obj_get "timeout_ms" props = None /\
    obj_get "timeout" props = Some (JsNum 10000) /\
    props.*1 = ["timeout"; "one_time_keys"].
Proof. eexists. repeat split. Qed.

(** The amended C9 is about a whole call of [encrypt]; it is proved with
    the paths through [encrypt], as [encrypt_sends_one_claim]. *)

(** ** C10: devices the response adds *)

(** C10: all targets that [_createNewSessions] constructs stand for devices
    of the list it was given, so none stands for a pair of user id and
    device id that is not in that list, whatever the response holds; a
    session is created only for a target constructed in the same call; and
    [_verifyAndCreateOTKTargets] gives the same result when every device
    section of the response is cut down to its first property. *)
Theorem response_cannot_add_devices (this : Encryption)
    (devicesWithoutSession : list DeviceIdentity.t) (hsApi : HsApi)
    (timestamp : Z) (w : World) :
  let run := _createNewSessions this devicesWithoutSession hsApi timestamp w in
  (forall target o,
     length (targets w) <= target -> targets run.2 !! target = Some o ->
     EncryptionTarget.device o ∈ devicesWithoutSession) /\
  (forall userId deviceId,
     (forall device, device ∈ devicesWithoutSession ->
        ~ (DeviceIdentity.userId device = userId /\
           DeviceIdentity.deviceId device = deviceId)) ->
     forall target o,
       length (targets w) <= target -> targets run.2 !! target = Some o ->
       ~ (DeviceIdentity.userId (EncryptionTarget.device o) = userId /\
          DeviceIdentity.deviceId (EncryptionTarget.device o) = deviceId)) /\
  (exists evs,
     trace run.2 = trace w ++ evs /\
     forall owner s,
       EvCreateOutbound owner s ∈ evs ->
       exists o,
         length (targets w) <= owner /\ targets run.2 !! owner = Some o /\
         EncryptionTarget.device o ∈ devicesWithoutSession) /\
  (forall userKeyMap devicesByUser w0,
     _verifyAndCreateOTKTargets this (Some userKeyMap) devicesByUser w0
     = _verifyAndCreateOTKTargets this (Some (first_entries userKeyMap))
         devicesByUser w0).
Proof.
  cbn zeta.
  assert (forall target o,
    length (targets w) <= target ->
    targets (_createNewSessions this devicesWithoutSession hsApi timestamp w).2
      !! target = Some o ->
    EncryptionTarget.device o ∈ devicesWithoutSession) as Hrequested.
  { intros target o Hnew Ho.
    destruct (new_target_provenance this devicesWithoutSession hsApi timestamp
                w target o Hnew Ho) as (? & ? & ? & ? & ? & ? & ? & H).
    apply H. }
  split; [exact Hrequested|]. split; [|split].
  - intros userId deviceId Hnot target o Hnew Ho.
    apply Hnot. now apply (Hrequested target).
  - destruct (createNewSessions_events this devicesWithoutSession hsApi
                timestamp w) as (evs & Htrace & Hevs). cbn zeta in *.
    eexists. split; [exact Htrace|]. intros owner s Hin.
    apply elem_of_cons in Hin as [Hin|Hin]; [discriminate|].
    rewrite Forall_forall in Hevs.
    destruct (Hevs _ Hin) as [_ Howner].
    specialize (Howner owner s eq_refl).
    destruct (lookup_lt_is_Some_2 _ owner (proj2 Howner)) as [o Ho].
    exists o. split; [lia|]. split; [done|].
    apply (Hrequested owner); [lia | done].
  - intros userKeyMap devicesByUser w0. apply verify_first_entry_only.
Qed.
(** * Further properties of the code *)

(** ** Properties that every step keeps *)

Section Preservation.

Context (I : World -> Prop).

Lemma preserves_unchanged {A : Type} (m : M A) :
  (forall w, (m w).2 = w) -> preserves I m.
Proof. intros H w Hw. by rewrite H. Qed.

Lemma preserves_ret {A : Type} (a : A) : preserves I (ret a).
Proof. by apply preserves_unchanged. Qed.

Lemma preserves_throw {A : Type} (e : JsError) : preserves I (@throw A e).
Proof. by apply preserves_unchanged. Qed.

Lemma preserves_lift {A : Type} (r : Result A) : preserves I (lift r).
Proof. by apply preserves_unchanged. Qed.

Lemma preserves_deref (target : TargetRef) : preserves I (deref target).
Proof.
  apply preserves_unchanged. intros w. unfold deref.
  by destruct (targets w !! target).
Qed.

Lemma preserves_bind {A B : Type} (m : M A) (f : A -> M B) :
  preserves I m -> (forall a, preserves I (f a)) -> preserves I (bind m f).
Proof.
  intros Hm Hf w Hw. rewrite bind_snd. specialize (Hm w Hw).
  destruct (m w).1; [by apply Hf | done].
Qed.

Lemma preserves_try_catch {A : Type} (body : M A) (handler : JsError -> M A) :
  preserves I body -> (forall err, preserves I (handler err)) ->
  preserves I (try_catch body handler).
Proof.
  intros Hb Hh w Hw. unfold try_catch. specialize (Hb w Hw).
  destruct (body w) as [[a|err] w']; [done | by apply Hh].
Qed.

Lemma preserves_unawaited {A : Type} (prefix : M A) :
  preserves I prefix -> preserves I (unawaited prefix).
Proof. intros H w Hw. by apply H. Qed.

Lemma preserves_for_of {A : Type} (xs : list A) (body : A -> M unit) :
  (forall x, preserves I (body x)) -> preserves I (for_of xs body).
Proof.
  intros H. induction xs as [|x xs IH]; [apply preserves_ret |].
  by apply preserves_bind.
Qed.

Lemma preserves_map_i {A B : Type} (f : A -> nat -> M B) (start : nat)
    (xs : list A) :
  (forall x i, preserves I (f x i)) -> preserves I (map_i f start xs).
Proof.
  intros H. revert start. induction xs as [|x xs IH]; intros start;
    [apply preserves_ret |].
  apply preserves_bind; [done | intros y].
  apply preserves_bind; [done | intros ys]. apply preserves_ret.
Qed.

Lemma preserves_for_of_pushing {A S : Type} (xs : list A)
    (body : A -> S -> M S) (acc : S) :
  (forall x acc, preserves I (body x acc)) ->
  preserves I (for_of_pushing xs body acc).
Proof.
  intros H. revert acc. induction xs as [|x xs IH]; intros acc;
    [apply preserves_ret |].
  by apply preserves_bind.
Qed.

End Preservation.


(** ** The paths through [encrypt] *)

(** The callback of [encryptionTargets.map] throws on its first call, so
    the [try] block gets past the map only with no target at all. *)
Lemma encrypt_map_run (this : Encryption) (type : string) (content : JsValue)
    (encryptionTargets : list TargetRef) (w : World) :
  map_i (fun target (_ : nat) => encrypt_map_callback this type content target)
    0 encryptionTargets w
  = match encryptionTargets with
    | [] => (Ok [], w)
    | _ :: _ => (Throw ReferenceError, w)
    end.
Proof.
  destruct encryptionTargets as [|t ts]; [done|].
  cbn [map_i]. rewrite bind_run. by rewrite encrypt_map_callback_throws.
Qed.

Lemma encrypt_run (this : Encryption) (type : string) (content : JsValue)
    (devices : list DeviceIdentity.t) (hsApi : HsApi) (w : World) :
  encrypt this type content devices hsApi w =
  match _findExistingSessions this devices w with
  | (Throw err, w) => (Throw err, w)
  | (Ok (devicesWithoutSession, existingEncryptionTargets), w) =>
      match create_step this devicesWithoutSession hsApi (_now this) w with
      | (Throw err, w) => (Throw err, w)
      | (Ok newEncryptionTargets, w) =>
          match _loadSessions this existingEncryptionTargets w with
          | (Throw err, w) => finally_dispose newEncryptionTargets (Throw err) w
          | (Ok _, w) =>
              match newEncryptionTargets ++ existingEncryptionTargets with
              | [] =>
                  match _storeSessions this [] (_now this) w with
                  | (Throw err, w) => (Throw err, w)
                  | (Ok _, w) => (Ok [], w)
                  end
              | encryptionTargets =>
                  finally_dispose encryptionTargets (Throw ReferenceError) w
              end
          end
      end
  end.
Proof.
  unfold encrypt. rewrite bind_run.
  destruct (_findExistingSessions this devices w)
    as [[[devicesWithoutSession existingEncryptionTargets]|err] w1]; [| done].
  unfold encrypt_try, create_step.
  destruct (if negb (Nat.eqb (length devicesWithoutSession) 0) then _ else _)
    as [[newEncryptionTargets|err] w2]; [| done].
  destruct (_loadSessions this existingEncryptionTargets w2)
    as [[[]|err] w3]; [| done].
  rewrite encrypt_map_run. cbn [app].
  destruct (newEncryptionTargets ++ existingEncryptionTargets) as [|t ts];
    [| done].
  by destruct (_storeSessions this [] (_now this) w3) as [[[]|err] w4].
Qed.

Lemma finally_dispose_snd {A : Type} (encryptionTargets : list TargetRef)
    (outcome : Result A) (w : World) :
  (finally_dispose encryptionTargets outcome w).2
  = (for_of encryptionTargets dispose w).2.
Proof.
  unfold finally_dispose.
  by destruct (for_of encryptionTargets dispose w) as [[[]|err] w'].
Qed.

(** A property [I] that holds up to the key claim and a property [I'] that
    holds from it on. *)
Section Encrypt_phases.

Variable this : Encryption.
Context (I : World -> Prop) (I' : list DeviceIdentity.t -> World -> Prop).

Hypothesis phase_find : forall devices,
  preserves I (_findExistingSessions this devices).
Hypothesis phase_create : forall devicesWithoutSession hsApi timestamp w,
  I w ->
  I' devicesWithoutSession
    (create_step this devicesWithoutSession hsApi timestamp w).2.
Hypothesis phase_load : forall devicesWithoutSession encryptionTargets,
  preserves (I' devicesWithoutSession) (_loadSessions this encryptionTargets).
Hypothesis phase_store : forall devicesWithoutSession encryptionTargets timestamp,
  preserves (I' devicesWithoutSession)
    (_storeSessions this encryptionTargets timestamp).
Hypothesis phase_dispose : forall devicesWithoutSession target,
  preserves (I' devicesWithoutSession) (dispose target).

Lemma encrypt_phases (type : string) (content : JsValue)
    (devices : list DeviceIdentity.t) (hsApi : HsApi) (w : World) :
  I w ->
  match (_findExistingSessions this devices w).1 with
  | Ok (devicesWithoutSession, _) =>
      I' devicesWithoutSession (encrypt this type content devices hsApi w).2
  | Throw _ => I (encrypt this type content devices hsApi w).2
  end.
Proof using All.
  intros Hw. rewrite encrypt_run.
  pose proof (phase_find devices w Hw) as H1.
  destruct (_findExistingSessions this devices w)
    as [[[devicesWithoutSession existingEncryptionTargets]|err] w1];
    cbn [fst snd] in *; [| done].
  pose proof (phase_create devicesWithoutSession hsApi (_now this) w1 H1) as H2.
  destruct (create_step this devicesWithoutSession hsApi (_now this) w1)
    as [[newEncryptionTargets|err] w2]; cbn [fst snd] in H2; [| done].
  pose proof (phase_load devicesWithoutSession existingEncryptionTargets w2 H2)
    as H3.
  destruct (_loadSessions this existingEncryptionTargets w2)
    as [[[]|err] w3]; cbn [fst snd] in H3.
  - destruct (newEncryptionTargets ++ existingEncryptionTargets) as [|t ts].
    + pose proof (phase_store devicesWithoutSession [] (_now this) w3 H3) as H4.
      by destruct (_storeSessions this [] (_now this) w3) as [[[]|err] w4].
    + rewrite finally_dispose_snd. by apply preserves_for_of.
  - rewrite finally_dispose_snd. by apply preserves_for_of.
Qed.

End Encrypt_phases.

(** A property kept by the steps of [encrypt] is kept by [encrypt]. *)
Section Encrypt_preserves.

Variable this : Encryption.
Context (I : World -> Prop).

Hypothesis keeps_readTxn : preserves I readTxn.
Hypothesis keeps_readWriteTxn : preserves I readWriteTxn.
Hypothesis keeps_write : forall ev, write_event ev -> preserves I (log ev).
Hypothesis keeps_claim : forall payload, preserves I (log (EvClaimKeys payload)).
Hypothesis keeps_fromSessionId : forall device sessionIds,
  sessionIds <> [] ->
  preserves I (fromSessionId device (findFirstSessionId sessionIds)).
Hypothesis keeps_fromOTK : forall device oneTimeKey,
  preserves I (fromOTK device oneTimeKey).
Hypothesis keeps_dispose : forall target, preserves I (dispose target).
Hypothesis keeps_create : forall target, preserves I (create_body this target).
Hypothesis keeps_load : forall failed target,
  preserves I (load_callback this failed target).

Lemma preserves_findExistingSessions (devices : list DeviceIdentity.t) :
  preserves I (_findExistingSessions this devices).
Proof using keeps_readTxn keeps_fromSessionId.
  unfold _findExistingSessions.
  apply preserves_bind; [done | intros txn].
  apply preserves_bind;
    [apply preserves_map_i; intros; apply preserves_lift | intros l].
  apply preserves_bind; [| intros; apply preserves_ret].
  apply preserves_map_i. intros device i.
  cbv zeta.
  destruct (mjoin (l !! i)) as [[|s ids]|]; cbn [has_length default];
    try apply preserves_ret.
  apply preserves_bind; [| intros; apply preserves_ret].
  by apply keeps_fromSessionId.
Qed.

Lemma preserves_verifyAndCreateOTKTargets (userKeyMap : option UserKeyMap)
    (devicesByUser : list (string * list (string * DeviceIdentity.t))) :
  preserves I (_verifyAndCreateOTKTargets this userKeyMap devicesByUser).
Proof using keeps_fromOTK.
  unfold _verifyAndCreateOTKTargets.
  destruct userKeyMap as [entries|]; [| apply preserves_throw].
  apply preserves_for_of_pushing. intros [userId userSection] acc.
  apply preserves_for_of_pushing. intros [deviceId deviceSection] acc'.
  unfold verify_device_section.
  destruct deviceSection as [|[firstPropName keySection] rest];
    [apply preserves_throw |].
  repeat case_match; try apply preserves_ret.
  apply preserves_bind; [done | intros; apply preserves_ret].
Qed.

Lemma preserves_claimOneTimeKeys (hsApi : HsApi)
    (deviceIdentities : list DeviceIdentity.t) :
  preserves I (_claimOneTimeKeys this hsApi deviceIdentities).
Proof using keeps_fromOTK keeps_claim.
  unfold _claimOneTimeKeys.
  apply preserves_bind; [done | intros _].
  apply preserves_bind; [apply preserves_lift | intros userKeyMap].
  apply preserves_verifyAndCreateOTKTargets.
Qed.

Lemma preserves_storeSessions_prefix (encryptionTargets : list TargetRef)
    (timestamp : Z) :
  preserves I (_storeSessions_prefix this encryptionTargets timestamp).
Proof using keeps_readWriteTxn keeps_write.
  unfold _storeSessions_prefix.
  apply preserves_bind; [done | intros txn].
  apply preserves_bind.
  - apply preserves_try_catch.
    + apply preserves_for_of. intros target.
      apply preserves_bind; [apply preserves_deref | intros o].
      apply preserves_bind; [apply preserves_lift | intros sessionEntry].
      unfold olmSessions_set. case_match; [by apply keeps_write |].
      apply preserves_throw.
    + intros err. apply preserves_bind; [by apply keeps_write |].
      intros; apply preserves_throw.
  - intros _. apply preserves_bind; [by apply keeps_write |].
    intros; apply preserves_ret.
Qed.

Lemma preserves_storeSessions (encryptionTargets : list TargetRef)
    (timestamp : Z) :
  preserves I (_storeSessions this encryptionTargets timestamp).
Proof using keeps_readWriteTxn keeps_write.
  unfold _storeSessions.
  apply preserves_bind; [apply preserves_storeSessions_prefix | intros txn].
  unfold await_complete. case_match; [by apply keeps_write |].
  apply preserves_throw.
Qed.

(** The [try]/[catch] statement of [_createNewSessions]. *)
Lemma preserves_create_block (newEncryptionTargets : list TargetRef)
    (timestamp : Z) :
  preserves I
    (try_catch
       (for_of newEncryptionTargets (create_body this) ;;
        unawaited (_storeSessions_prefix this newEncryptionTargets timestamp))
       (fun err => for_of newEncryptionTargets dispose)).
Proof using keeps_readWriteTxn keeps_write keeps_dispose keeps_create.
  apply preserves_try_catch.
  - apply preserves_bind; [by apply preserves_for_of | intros _].
    apply preserves_unawaited, preserves_storeSessions_prefix.
  - intros err. by apply preserves_for_of.
Qed.

Lemma preserves_createNewSessions
    (devicesWithoutSession : list DeviceIdentity.t) (hsApi : HsApi)
    (timestamp : Z) :
  preserves I (_createNewSessions this devicesWithoutSession hsApi timestamp).
Proof using keeps_readWriteTxn keeps_write keeps_claim keeps_fromOTK
  keeps_dispose keeps_create.
  unfold _createNewSessions.
  apply preserves_bind; [apply preserves_claimOneTimeKeys | intros ts].
  apply preserves_bind; [| intros; apply preserves_ret].
  apply (preserves_create_block ts timestamp).
Qed.

Lemma preserves_settle_until_rejection (in_flight : list TargetRef) (w : World) :
  I w -> I (settle_until_rejection this in_flight w).2.
Proof using keeps_load.
  revert w. induction in_flight as [|t rest IH]; intros w Hw; [done|].
  cbn. pose proof (keeps_load false t w Hw) as H.
  destruct (load_callback this false t w) as [[[]|err] w']; cbn in *; auto.
Qed.

Lemma preserves_settle_unobserved (failed : bool) (in_flight : list TargetRef)
    (w : World) :
  I w -> I (settle_unobserved this failed in_flight w).
Proof using keeps_load.
  revert w. induction in_flight as [|t rest IH]; intros w Hw; [done|].
  cbn. apply IH. by apply keeps_load.
Qed.

Lemma preserves_loadSessions (encryptionTargets : list TargetRef) :
  preserves I (_loadSessions this encryptionTargets).
Proof using keeps_readTxn keeps_dispose keeps_load.
  intros w Hw. unfold _loadSessions.
  pose proof (keeps_readTxn w Hw) as H0.
  destruct (readTxn w) as [r0 w0]; cbn in H0.
  pose proof (preserves_settle_until_rejection
                (load_order (_storage this) encryptionTargets) w0 H0) as H1.
  destruct (settle_until_rejection this _ w0) as [[[err in_flight]|] w1];
    cbn in H1; [| done].
  pose proof (preserves_settle_unobserved false
                (take (load_delay (_storage this)) in_flight) w1 H1) as H2.
  pose proof (preserves_for_of I encryptionTargets dispose keeps_dispose _ H2)
    as H3.
  destruct (for_of encryptionTargets dispose _) as [[[]|err'] w3]; cbn in *;
    [| done].
  by apply preserves_settle_unobserved.
Qed.

Lemma preserves_create_step (devicesWithoutSession : list DeviceIdentity.t)
    (hsApi : HsApi) (timestamp : Z) :
  preserves I (create_step this devicesWithoutSession hsApi timestamp).
Proof using keeps_readWriteTxn keeps_write keeps_claim keeps_fromOTK
  keeps_dispose keeps_create.
  intros w Hw. unfold create_step.
  case_match; [by apply preserves_createNewSessions | done].
Qed.

Lemma preserves_encrypt (type : string) (content : JsValue)
    (devices : list DeviceIdentity.t) (hsApi : HsApi) :
  preserves I (encrypt this type content devices hsApi).
Proof using All.
  intros w Hw.
  pose proof (encrypt_phases this I (fun _ => I)
                preserves_findExistingSessions
                (fun devicesWithoutSession hsApi' timestamp =>
                   preserves_create_step devicesWithoutSession hsApi' timestamp)
                (fun _ => preserves_loadSessions)
                (fun _ => preserves_storeSessions)
                (fun _ => keeps_dispose)
                type content devices hsApi w Hw) as H.
  by destruct (_findExistingSessions this devices w).1 as [[dws ex]|err].
Qed.

End Encrypt_preserves.

(** ** Steps that leave the heap alone *)

Lemma preserves_heap_only {A : Type} (H : list EncryptionTarget.t -> Prop)
    (m : M A) :
  (forall w, targets (m w).2 = targets w) ->
  preserves (fun w => H (targets w)) m.
Proof. intros E w Hw. by rewrite E. Qed.

Lemma log_targets (ev : Event) (w : World) : targets (log ev w).2 = targets w.
Proof. done. Qed.

Lemma fresh_txn_targets (ev : TxnId -> Event) (w : World) :
  targets (fresh_txn ev w).2 = targets w.
Proof. done. Qed.

Lemma dispose_targets (target : TargetRef) (w : World) :
  targets (dispose target w).2 = targets w.
Proof.
  unfold dispose, deref. rewrite bind_snd.
  destruct (targets w !! target) as [o|]; cbn; [| done].
  by destruct (EncryptionTarget.session o).
Qed.

(** What [create_body] does to the world: nothing when it throws, else one
    new session, assigned to the target. *)
Lemma create_body_run (this : Encryption) (target : TargetRef) (w : World) :
  (exists err, create_body this target w = (Throw err, w)) \/
  exists o,
    targets w !! target = Some o /\
    create_body this target w
    = (Ok tt,
       {| targets := alter (with_session (next_session w)) target (targets w);
          next_session := S (next_session w); next_txn := next_txn w;
          trace := trace w ++ [EvCreateOutbound target (next_session w)] |}).
Proof.
  unfold create_body, deref, createOutboundOlmSession. rewrite bind_run.
  destruct (targets w !! target) as [o|]; [| left; by eexists].
  cbv zeta. rewrite bind_run.
  destruct (createOutbound_succeeds _ _ _); [| left; by eexists].
  right. by exists o.
Qed.

(** What [load_callback] does to the world: it throws on a rejected read,
    resolves without effect when there is no entry or the load has failed,
    and else makes a session that it assigns when unpickling succeeds. *)
Lemma load_callback_run (this : Encryption) (failed : bool)
    (target : TargetRef) (w : World) :
  (exists r, load_callback this failed target w = (r, w)) \/
  exists o entry,
    targets w !! target = Some o /\
    olmSessions_get (_storage this)
      (DeviceIdentity.curve25519Key (EncryptionTarget.device o))
      (EncryptionTarget.sessionId o) = Ok (Some entry) /\
    failed = false /\
    let logged :=
      trace w ++ [EvNewSession (next_session w);
                  EvUnpickle (next_session w) (SessionEntry.session entry)] in
    if unpickle_succeeds (_olm this) (_pickleKey this)
         (SessionEntry.session entry)
    then
      load_callback this failed target w
      = (Ok tt,
         {| targets := alter (with_session (next_session w)) target (targets w);
            next_session := S (next_session w); next_txn := next_txn w;
            trace := logged |})
    else
      load_callback this failed target w
      = (Throw OlmError,
         {| targets := targets w; next_session := S (next_session w);
            next_txn := next_txn w; trace := logged |}).
Proof.
  unfold load_callback, deref. rewrite bind_run.
  destruct (targets w !! target) as [o|] eqn:Eo; [| left; by eexists].
  rewrite bind_run. unfold lift at 1.
  destruct (olmSessions_get _ _ _) as [[entry|]|err] eqn:Eget;
    [| left; by eexists | left; by eexists].
  destruct failed; [left; by eexists |].
  right. exists o, entry. repeat split; [done |]. cbn.
  unfold unpickle. rewrite !bind_run. cbn.
  destruct (unpickle_succeeds _ _ _) eqn:Eu; cbn.
  - do 2 f_equal. by rewrite <- app_assoc.
  - do 2 f_equal. by rewrite <- app_assoc.
Qed.

(** ** Properties of every target *)

Section Every_target.

Variable this : Encryption.
Variable P : EncryptionTarget.t -> Prop.

Hypothesis P_session : forall s o, P o -> P (with_session s o).

Lemma every_target_alter (s : SessionHandle) (target : TargetRef)
    (heap : list EncryptionTarget.t) :
  Forall P heap -> Forall P (alter (with_session s) target heap).
Proof using P_session.
  intros H. apply Forall_lookup. intros i o Hi.
  destruct (decide (i = target)) as [->|Hne].
  - rewrite list_lookup_alter_eq in Hi.
    destruct (heap !! target) as [o'|] eqn:E; cbn in Hi; [| done].
    injection Hi as <-. apply P_session.
    by apply (Forall_lookup_1 _ _ _ _ H E).
  - rewrite list_lookup_alter_ne in Hi by done.
    by apply (Forall_lookup_1 _ _ _ _ H Hi).
Qed.

Lemma every_target_new (device : DeviceIdentity.t)
    (oneTimeKey sessionId : option string) :
  P (EncryptionTarget.mk device oneTimeKey sessionId None) ->
  preserves (every_target P) (new_EncryptionTarget device oneTimeKey sessionId).
Proof.
  intros Ho w Hw. unfold every_target in *. cbn. apply Forall_app. split; [done|].
  by constructor.
Qed.

Lemma every_target_create (target : TargetRef) :
  preserves (every_target P) (create_body this target).
Proof using P_session.
  intros w Hw. destruct (create_body_run this target w) as [[err ->]|(o&_&->)];
    [done|]. by apply every_target_alter.
Qed.

Lemma every_target_load (failed : bool) (target : TargetRef) :
  preserves (every_target P) (load_callback this failed target).
Proof using P_session.
  intros w Hw.
  destruct (load_callback_run this failed target w)
    as [[r ->]|(o&entry&_&_&_&H)]; [done|]. cbv zeta in H.
  destruct (unpickle_succeeds _ _ _); rewrite H; [| done].
  by apply every_target_alter.
Qed.

(** [encrypt] constructs targets of two shapes, and assigns sessions. *)
Lemma every_target_encrypt (type : string) (content : JsValue)
    (devices : list DeviceIdentity.t) (hsApi : HsApi) :
  (forall device oneTimeKey,
     P (EncryptionTarget.mk device (Some oneTimeKey) None None)) ->
  (forall device sessionIds,
     sessionIds <> [] ->
     P (EncryptionTarget.mk device None (findFirstSessionId sessionIds) None)) ->
  preserves (every_target P) (encrypt this type content devices hsApi).
Proof using P_session.
  intros Hotk Hid. apply preserves_encrypt.
  - by apply (preserves_heap_only (Forall P)).
  - by apply (preserves_heap_only (Forall P)).
  - intros ev _. by apply (preserves_heap_only (Forall P)).
  - intros payload. by apply (preserves_heap_only (Forall P)).
  - intros device sessionIds Hne. by apply every_target_new, Hid.
  - intros device oneTimeKey. by apply every_target_new, Hotk.
  - intros target. apply (preserves_heap_only (Forall P)), dispose_targets.
  - apply every_target_create.
  - apply every_target_load.
Qed.

End Every_target.

(** ** The events of a step *)

Section Emitted.

Variable this : Encryption.
Variable P : Event -> Prop.
Variable log0 : list Event.

Lemma emitted_events (evs : list Event) (w w' : World) :
  trace w' = trace w ++ evs -> Forall P evs -> emitted P log0 w -> emitted P log0 w'.
Proof.
  intros E Hevs (evs0 & E0 & H0). exists (evs0 ++ evs). split.
  - by rewrite E, E0, <- app_assoc.
  - by apply Forall_app.
Qed.

Lemma emitted_log (ev : Event) : P ev -> preserves (emitted P log0) (log ev).
Proof. intros H w. apply (emitted_events [ev]); [done | by constructor]. Qed.

Lemma emitted_fresh_txn (ev : TxnId -> Event) :
  (forall txn, P (ev txn)) -> preserves (emitted P log0) (fresh_txn ev).
Proof.
  intros H w. apply (emitted_events [ev (next_txn w)]); [done | by constructor].
Qed.

Lemma emitted_new (device : DeviceIdentity.t)
    (oneTimeKey sessionId : option string) :
  preserves (emitted P log0) (new_EncryptionTarget device oneTimeKey sessionId).
Proof.
  intros w. apply (emitted_events []); [cbn; by rewrite app_nil_r | done].
Qed.

Lemma emitted_dispose (target : TargetRef) :
  (forall s, P (EvFree s)) -> preserves (emitted P log0) (dispose target).
Proof.
  intros H w. unfold dispose, deref. rewrite bind_snd.
  destruct (targets w !! target) as [o|]; cbn; [| done].
  destruct (EncryptionTarget.session o) as [s|]; [| done].
  by apply emitted_log.
Qed.

Lemma emitted_create (target : TargetRef) :
  (forall owner s, P (EvCreateOutbound owner s)) ->
  preserves (emitted P log0) (create_body this target).
Proof.
  intros H w Hw.
  destruct (create_body_run this target w) as [[err ->]|(o&_&->)]; [done|].
  eapply emitted_events; [| | exact Hw]; [done | by constructor].
Qed.

Lemma emitted_load (failed : bool) (target : TargetRef) :
  (forall ev, load_event ev -> P ev) ->
  preserves (emitted P log0) (load_callback this failed target).
Proof.
  intros H w Hw.
  destruct (load_callback_run this failed target w)
    as [[r ->]|(o&entry&_&_&_&Hrun)]; [done|]. cbv zeta in Hrun.
  destruct (unpickle_succeeds _ _ _); rewrite Hrun;
    (eapply emitted_events; [| | exact Hw];
     [done | repeat constructor; by apply H]).
Qed.

End Emitted.

(** ** The session id of an existing target *)

Lemma reduce_keeps_Some (sessionIds : list string) (first : string) :
  exists m,
    fold_left
      (fun first sessionId =>
         if falsy first || js_lt sessionId first then Some sessionId else first)
      sessionIds (Some first) = Some m /\
    m ∈ first :: sessionIds.
Proof.
  revert first. induction sessionIds as [|s ids IH]; intros first; cbn [fold_left].
  - exists first. split; [done | apply list_elem_of_here].
  - destruct (falsy (Some first) || js_lt s (Some first)).
    + destruct (IH s) as (m & -> & Hm). exists m. split; [done|].
      by apply list_elem_of_further.
    + destruct (IH first) as (m & -> & Hm). exists m. split; [done|].
      apply elem_of_cons in Hm as [->|Hm]; [apply list_elem_of_here |].
      by do 2 apply list_elem_of_further.
Qed.

Lemma findFirstSessionId_is_Some (sessionIds : list string) :
  sessionIds <> [] -> is_Some (findFirstSessionId sessionIds).
Proof.
  destruct sessionIds as [|s ids]; [done | intros _].
  unfold findFirstSessionId. cbn [fold_left falsy orb].
  destruct (reduce_keeps_Some ids s) as (m & -> & _). by eexists.
Qed.

(** X1: [findFirstSessionId] returns [null] on the empty array only, and
    on every other array one of its elements, empty strings included. *)
Theorem findFirstSessionId_returns_an_element (sessionIds : list string) :
  match findFirstSessionId sessionIds with
  | None => sessionIds = []
  | Some first => first ∈ sessionIds
  end.
Proof.
  destruct sessionIds as [|s ids]; [done|].
  unfold findFirstSessionId. cbn [fold_left falsy orb].
  by destruct (reduce_keeps_Some ids s) as (m & -> & Hm).
Qed.

(** ** What [encrypt] keeps and what it never does *)

Lemma key_or_session_id_with_session (s : SessionHandle)
    (o : EncryptionTarget.t) :
  key_or_session_id o -> key_or_session_id (with_session s o).
Proof. by intros [H|H]; [left | right]. Qed.

(** X2: a call of [encrypt] keeps the heap of targets well-formed: every
    target it constructs has a one-time key and no session id, or a session
    id and no one-time key, and assigning sessions never changes that. *)
Theorem encrypt_targets_have_key_or_session_id (this : Encryption)
    (type : string) (content : JsValue) (devices : list DeviceIdentity.t)
    (hsApi : HsApi) (w : World) :
  every_target key_or_session_id w ->
  every_target key_or_session_id
    (encrypt this type content devices hsApi w).2.
Proof.
  apply every_target_encrypt.
  - apply key_or_session_id_with_session.
  - intros device oneTimeKey. left. split; [by eexists | done].
  - intros device sessionIds Hne. right. split; [done|].
    by apply findFirstSessionId_is_Some.
Qed.

Lemma encrypt_targets_have_key_or_session_id_witness :
  every_target key_or_session_id empty_world /\
  every_target key_or_session_id
    (encrypt (example_encryption [] (example_storage known_sessions [] 0))
       "m.room_key" example_content [alice_phone; carol_tablet]
       (example_hsApi
          [("@carol:example.org",
            [claimed_key "signed_curve25519" carol_tablet])])
       empty_world).2.
Proof.
  split; [constructor |].
  apply encrypt_targets_have_key_or_session_id. constructor.
Defined.

Lemma emitted_start (P : Event -> Prop) (w : World) : emitted P (trace w) w.
Proof. exists []. split; [by rewrite app_nil_r | done]. Qed.

(** X3: [encrypt] never calls [session.encrypt]: none of the events that a
    call adds to the log is an encryption, whatever the devices, the store
    and the homeserver are. *)
Theorem encrypt_never_calls_session_encrypt (this : Encryption)
    (type : string) (content : JsValue) (devices : list DeviceIdentity.t)
    (hsApi : HsApi) (w : World) :
  exists evs,
    trace (encrypt this type content devices hsApi w).2 = trace w ++ evs /\
    Forall (fun ev => is_session_encrypt ev = false) evs.
Proof.
  apply (preserves_encrypt this
           (emitted (fun ev => is_session_encrypt ev = false) (trace w)));
    [..| apply emitted_start].
  - by apply emitted_fresh_txn.
  - by apply emitted_fresh_txn.
  - intros ev Hev. apply emitted_log. by destruct ev.
  - intros payload. by apply emitted_log.
  - intros. apply emitted_new.
  - intros. apply emitted_new.
  - intros. by apply emitted_dispose.
  - intros. by apply emitted_create.
  - intros. apply emitted_load. intros ev Hev. by destruct ev.
Qed.

Lemma count_claims_app (log log' : list Event) :
  count_claims (log ++ log') = count_claims log + count_claims log'.
Proof. unfold count_claims. by rewrite List.filter_app, length_app. Qed.

Lemma count_claims_none (log : list Event) :
  Forall (fun ev => is_claim ev = false) log -> count_claims log = 0.
Proof.
  unfold count_claims. induction 1 as [|ev log Hev _ IH]; [done|].
  cbn. by rewrite Hev.
Qed.

(** A step that sends no key claim leaves the number of claims as it is. *)
Lemma claims_sent_quiet {A : Type} (m : M A) (n : nat) (log0 : list Event) :
  (forall log, preserves (emitted (fun ev => is_claim ev = false) log) m) ->
  preserves (claims_sent n log0) m.
Proof.
  intros Hm w (evs & E & Hn).
  destruct (Hm (trace w) w (emitted_start _ w)) as (evs' & E' & Hevs').
  exists (evs ++ evs'). split.
  - by rewrite E', E, <- app_assoc.
  - rewrite count_claims_app, (count_claims_none evs') by done. lia.
Qed.

Section Claims_sent.

Variable this : Encryption.
Variable n : nat.
Variable log0 : list Event.

Lemma claims_sent_findExistingSessions (devices : list DeviceIdentity.t) :
  preserves (claims_sent n log0) (_findExistingSessions this devices).
Proof.
  apply claims_sent_quiet. intros log. apply preserves_findExistingSessions.
  - by apply emitted_fresh_txn.
  - intros. apply emitted_new.
Qed.

Lemma claims_sent_loadSessions (encryptionTargets : list TargetRef) :
  preserves (claims_sent n log0) (_loadSessions this encryptionTargets).
Proof.
  apply claims_sent_quiet. intros log. apply preserves_loadSessions.
  - by apply emitted_fresh_txn.
  - intros. by apply emitted_dispose.
  - intros. apply emitted_load. intros ev Hev. by destruct ev.
Qed.

Lemma claims_sent_storeSessions (encryptionTargets : list TargetRef)
    (timestamp : Z) :
  preserves (claims_sent n log0)
    (_storeSessions this encryptionTargets timestamp).
Proof.
  apply claims_sent_quiet. intros log. apply preserves_storeSessions.
  - by apply emitted_fresh_txn.
  - intros ev Hev. apply emitted_log. by destruct ev.
Qed.

Lemma claims_sent_dispose (target : TargetRef) :
  preserves (claims_sent n log0) (dispose target).
Proof. apply claims_sent_quiet. intros log. by apply emitted_dispose. Qed.

End Claims_sent.

Lemma create_step_claims (this : Encryption)
    (devicesWithoutSession : list DeviceIdentity.t) (hsApi : HsApi)
    (timestamp : Z) (log0 : list Event) (w : World) :
  claims_sent 0 log0 w ->
  claims_sent (match devicesWithoutSession with [] => 0 | _ :: _ => 1 end) log0
    (create_step this devicesWithoutSession hsApi timestamp w).2.
Proof.
  intros (evs0 & E0 & H0). unfold create_step.
  destruct devicesWithoutSession as [|device dws]; cbn [length Nat.eqb negb].
  { by exists evs0. }
  pose proof (createNewSessions_events this (device :: dws) hsApi timestamp w)
    as (evs & E & Hevs).
  cbv zeta in E. eexists. split.
  - rewrite E, E0, <- app_assoc. done.
  - rewrite count_claims_app, H0. cbn.
    change (S (length (List.filter is_claim evs))) with (S (count_claims evs)).
    rewrite count_claims_none; [done|].
    eapply Forall_impl; [exact Hevs|]. intros ev [Hev _].
    destruct ev; try done. by destruct (Hev payload).
Qed.

(** X4: a call of [encrypt] sends one key claim when the store has
    answered for every device and some device has no session, and none
    otherwise; it never sends two. *)
Theorem encrypt_claims_at_most_once (this : Encryption) (type : string)
    (content : JsValue) (devices : list DeviceIdentity.t) (hsApi : HsApi)
    (w : World) :
  exists evs,
    trace (encrypt this type content devices hsApi w).2 = trace w ++ evs /\
    count_claims evs =
      match (_findExistingSessions this devices w).1 with
      | Ok (_ :: _, _) => 1
      | _ => 0
      end.
Proof.
  pose proof
    (encrypt_phases this (claims_sent 0 (trace w))
       (fun devicesWithoutSession =>
          claims_sent
            (match devicesWithoutSession with [] => 0 | _ :: _ => 1 end)
            (trace w))
       (claims_sent_findExistingSessions this 0 (trace w))
       (fun dws hsApi' timestamp w' =>
          create_step_claims this dws hsApi' timestamp (trace w) w')
       (fun dws => claims_sent_loadSessions this _ (trace w))
       (fun dws => claims_sent_storeSessions this _ (trace w))
       (fun dws => claims_sent_dispose _ (trace w))
       type content devices hsApi w) as H.
  cbv beta in H.
  assert (claims_sent 0 (trace w) w) as H0.
  { exists []. by rewrite app_nil_r. }
  specialize (H H0).
  destruct (_findExistingSessions this devices w).1
    as [[[|device dws] existing]|err]; exact H.
Qed.

(** ** The key claim of a call of [encrypt] *)

(** A step that sends no key claim leaves the claim that was sent the only
    one. *)
Lemma claimed_quiet {A : Type} (m : M A) (payload : JsValue)
    (log0 : list Event) :
  (forall log, preserves (emitted (fun ev => is_claim ev = false) log) m) ->
  preserves (claimed payload log0) m.
Proof.
  intros Hm w (before & after & E & Hbefore & Hafter).
  destruct (Hm (trace w) w (emitted_start _ w)) as (evs' & E' & Hevs').
  exists before, (after ++ evs'). split.
  - rewrite E', E, <- !app_assoc. done.
  - split; [done|]. by apply Forall_app.
Qed.

Section Claimed.

Variable this : Encryption.
Variable payload : JsValue.
Variable log0 : list Event.

Lemma claimed_loadSessions (encryptionTargets : list TargetRef) :
  preserves (claimed payload log0) (_loadSessions this encryptionTargets).
Proof.
  apply claimed_quiet. intros log. apply preserves_loadSessions.
  - by apply emitted_fresh_txn.
  - intros. by apply emitted_dispose.
  - intros. apply emitted_load. intros ev Hev. by destruct ev.
Qed.

Lemma claimed_storeSessions (encryptionTargets : list TargetRef)
    (timestamp : Z) :
  preserves (claimed payload log0)
    (_storeSessions this encryptionTargets timestamp).
Proof.
  apply claimed_quiet. intros log. apply preserves_storeSessions.
  - by apply emitted_fresh_txn.
  - intros ev Hev. apply emitted_log. by destruct ev.
Qed.

Lemma claimed_dispose (target : TargetRef) :
  preserves (claimed payload log0) (dispose target).
Proof. apply claimed_quiet. intros log. by apply emitted_dispose. Qed.

End Claimed.

Lemma quiet_findExistingSessions (this : Encryption)
    (devices : list DeviceIdentity.t) (log0 : list Event) :
  preserves (emitted (fun ev => is_claim ev = false) log0)
    (_findExistingSessions this devices).
Proof.
  apply preserves_findExistingSessions.
  - by apply emitted_fresh_txn.
  - intros. apply emitted_new.
Qed.

Lemma create_step_claimed (this : Encryption)
    (devicesWithoutSession : list DeviceIdentity.t) (hsApi : HsApi)
    (timestamp : Z) (log0 : list Event) (w : World) :
  devicesWithoutSession <> [] ->
  emitted (fun ev => is_claim ev = false) log0 w ->
  claimed (claim_payload (devicesByUser_of devicesWithoutSession)) log0
    (create_step this devicesWithoutSession hsApi timestamp w).2.
Proof.
  intros Hne (before & E0 & Hbefore). unfold create_step.
  destruct devicesWithoutSession as [|device dws]; [done|].
  cbn [length Nat.eqb negb].
  pose proof (createNewSessions_events this (device :: dws) hsApi timestamp w)
    as (evs & E & Hevs).
  cbv zeta in E. exists before, evs. split.
  - rewrite E, E0, <- app_assoc. done.
  - split; [done|].
    eapply Forall_impl; [exact Hevs|]. intros ev [Hev _].
    destruct ev; try done. by destruct (Hev payload).
Qed.

(** C9 (amended): a call of [encrypt] in which the store has answered for
    every device and one device or more has no session sends exactly one
    key claim.  Its payload is the object
    [{timeout: 10000, one_time_keys: users}], where [users] has, for every
    device without a session whose user id and device id are not the name
    [__proto__], a property named by the user id whose value has a property
    named by the device id with the value "signed_curve25519", where no
    name occurs twice at either level, and where every pair of names comes
    from a device without a session. *)
Theorem encrypt_sends_one_claim (this : Encryption) (type : string)
    (content : JsValue) (devices : list DeviceIdentity.t) (hsApi : HsApi)
    (w : World) (devicesWithoutSession : list DeviceIdentity.t)
    (existingEncryptionTargets : list TargetRef) :
  (_findExistingSessions this devices w).1
    = Ok (devicesWithoutSession, existingEncryptionTargets) ->
  devicesWithoutSession <> [] ->
  exists users before after,
    trace (encrypt this type content devices hsApi w).2 =
      trace w ++ before ++
      EvClaimKeys
        (JsObj [("timeout", JsNum 10000); ("one_time_keys", JsObj users)])
      :: after /\
    Forall (fun ev => forall payload, ev <> EvClaimKeys payload) before /\
    Forall (fun ev => forall payload, ev <> EvClaimKeys payload) after /\
    NoDup (users.*1) /\
    (forall device, device ∈ devicesWithoutSession ->
       DeviceIdentity.userId device <> "__proto__" ->
       DeviceIdentity.deviceId device <> "__proto__" ->
       exists devs,
         obj_get (DeviceIdentity.userId device) users = Some (JsObj devs) /\
         obj_get (DeviceIdentity.deviceId device) devs
           = Some (JsStr "signed_curve25519")) /\
    (forall userId value, (userId, value) ∈ users ->
       exists devs,
         value = JsObj devs /\ NoDup (devs.*1) /\
         forall deviceId algorithm, (deviceId, algorithm) ∈ devs ->
           algorithm = JsStr "signed_curve25519" /\
           exists device,
             device ∈ devicesWithoutSession /\
             DeviceIdentity.userId device = userId /\
             DeviceIdentity.deviceId device = deviceId).
Proof.
  intros Hfind Hne.
  pose proof
    (encrypt_phases this
       (emitted (fun ev => is_claim ev = false) (trace w))
       (fun dws w' =>
          dws <> [] ->
          claimed (claim_payload (devicesByUser_of dws)) (trace w) w')
       (fun devices' => quiet_findExistingSessions this devices' (trace w))
       (fun dws hsApi' timestamp w' Hw' Hdws =>
          create_step_claimed this dws hsApi' timestamp (trace w) w' Hdws Hw')
       (fun dws ts w' Hw' Hdws =>
          claimed_loadSessions this _ (trace w) ts w' (Hw' Hdws))
       (fun dws ts timestamp w' Hw' Hdws =>
          claimed_storeSessions this _ (trace w) ts timestamp w' (Hw' Hdws))
       (fun dws target w' Hw' Hdws =>
          claimed_dispose _ (trace w) target w' (Hw' Hdws))
       type content devices hsApi w (emitted_start _ w)) as H.
  rewrite Hfind in H.
  destruct (H Hne) as (before & after & E & Hbefore & Hafter).
  assert (forall evs, Forall (fun ev => is_claim ev = false) evs ->
            Forall (fun ev => forall payload, ev <> EvClaimKeys payload) evs)
    as Hquiet.
  { intros evs Hevs. eapply Forall_impl; [exact Hevs|].
    by intros ev Hev payload ->. }
  exists (users_obj (devicesByUser_of devicesWithoutSession)), before, after.
  split; [by rewrite E, claim_payload_eq|].
  split; [by apply Hquiet|]. split; [by apply Hquiet|].
  split; [apply users_obj_NoDup|].
  split; [apply users_obj_requested | apply users_obj_only_requested].
Qed.

(** With no stored session, [encrypt] for the devices of alice and bob
    sends the claim for both of them. *)
Lemma encrypt_sends_one_claim_witness :
  exists users before after,
    trace
      (encrypt (example_encryption [] (example_storage [] [] 0)) "m.room.message"
         example_content [alice_phone; bob_laptop] (example_hsApi [])
         empty_world).2 =
      trace empty_world ++ before ++
      EvClaimKeys
        (JsObj [("timeout", JsNum 10000); ("one_time_keys", JsObj users)])
      :: after /\
    Forall (fun ev => forall payload, ev <> EvClaimKeys payload) before /\
    Forall (fun ev => forall payload, ev <> EvClaimKeys payload) after /\
    NoDup (users.*1) /\
    (forall device, device ∈ [alice_phone; bob_laptop] ->
       DeviceIdentity.userId device <> "__proto__" ->
       DeviceIdentity.deviceId device <> "__proto__" ->
       exists devs,
         obj_get (DeviceIdentity.userId device) users = Some (JsObj devs) /\
         obj_get (DeviceIdentity.deviceId device) devs
           = Some (JsStr "signed_curve25519")) /\
    (forall userId value, (userId, value) ∈ users ->
       exists devs,
         value = JsObj devs /\ NoDup (devs.*1) /\
         forall deviceId algorithm, (deviceId, algorithm) ∈ devs ->
           algorithm = JsStr "signed_curve25519" /\
           exists device,
             device ∈ [alice_phone; bob_laptop] /\
             DeviceIdentity.userId device = userId /\
             DeviceIdentity.deviceId device = deviceId).
Proof.
  apply (encrypt_sends_one_claim
           (example_encryption [] (example_storage [] [] 0)) "m.room.message"
           example_content [alice_phone; bob_laptop] (example_hsApi [])
           empty_world [alice_phone; bob_laptop] []).
  - reflexivity.
  - discriminate.
Defined.

(** ** Steps that construct no target *)

Section Heap_length.

Variable this : Encryption.
Variable n : nat.

Lemma heap_length_create (target : TargetRef) :
  preserves (fun w => length (targets w) = n) (create_body this target).
Proof.
  intros w Hw.
  destruct (create_body_run this target w) as [[err ->]|(o&_&->)]; [done|].
  cbn. by rewrite length_alter.
Qed.

Lemma heap_length_load (failed : bool) (target : TargetRef) :
  preserves (fun w => length (targets w) = n)
    (load_callback this failed target).
Proof.
  intros w Hw.
  destruct (load_callback_run this failed target w)
    as [[r ->]|(o&entry&_&_&_&H)]; [done|]. cbv zeta in H.
  destruct (unpickle_succeeds _ _ _); rewrite H; [| done].
  cbn. by rewrite length_alter.
Qed.

Lemma heap_length_dispose (target : TargetRef) :
  preserves (fun w => length (targets w) = n) (dispose target).
Proof.
  apply (preserves_heap_only (fun heap => length heap = n)), dispose_targets.
Qed.

Lemma heap_length_loadSessions (encryptionTargets : list TargetRef) :
  preserves (fun w => length (targets w) = n)
    (_loadSessions this encryptionTargets).
Proof.
  apply preserves_loadSessions.
  - by apply (preserves_heap_only (fun heap => length heap = n)).
  - apply heap_length_dispose.
  - apply heap_length_load.
Qed.

Lemma heap_length_storeSessions_prefix (encryptionTargets : list TargetRef)
    (timestamp : Z) :
  preserves (fun w => length (targets w) = n)
    (_storeSessions_prefix this encryptionTargets timestamp).
Proof.
  apply preserves_storeSessions_prefix.
  - by apply (preserves_heap_only (fun heap => length heap = n)).
  - intros ev _. by apply (preserves_heap_only (fun heap => length heap = n)).
Qed.

Lemma heap_length_storeSessions (encryptionTargets : list TargetRef)
    (timestamp : Z) :
  preserves (fun w => length (targets w) = n)
    (_storeSessions this encryptionTargets timestamp).
Proof.
  apply preserves_storeSessions.
  - by apply (preserves_heap_only (fun heap => length heap = n)).
  - intros ev _. by apply (preserves_heap_only (fun heap => length heap = n)).
Qed.

End Heap_length.

(** ** [_findExistingSessions], run *)

Section Find_existing_run.

Variable this : Encryption.

Lemma read_session_ids_answered (devices : list DeviceIdentity.t)
    (start : nat) (w : World) :
  Forall (fun device =>
            exists sessionIds,
              getSessionIds (_storage this)
                (DeviceIdentity.curve25519Key device) = Ok sessionIds)
    devices ->
  exists l,
    map_i (fun device (_ : nat) =>
             lift (getSessionIds (_storage this)
                     (DeviceIdentity.curve25519Key device)))
          start devices w = (Ok l, w).
Proof.
  intros H. revert start. induction H as [|device devices [ids Hd] _ IH];
    intros start; cbn [map_i].
  - by exists [].
  - rewrite bind_run. unfold lift at 1. rewrite Hd, bind_run.
    destruct (IH (S start)) as [l ->]. by eexists.
Qed.

Lemma read_session_ids_rejected (devices : list DeviceIdentity.t)
    (start : nat) (w : World) :
  Exists (fun device =>
            exists err,
              getSessionIds (_storage this)
                (DeviceIdentity.curve25519Key device) = Throw err)
    devices ->
  exists err,
    Exists (fun device =>
              getSessionIds (_storage this)
                (DeviceIdentity.curve25519Key device) = Throw err) devices /\
    map_i (fun device (_ : nat) =>
             lift (getSessionIds (_storage this)
                     (DeviceIdentity.curve25519Key device)))
          start devices w = (Throw err, w).
Proof.
  intros H. revert start. induction H as [device devices [err Hd]|device devices _ IH];
    intros start; cbn [map_i]; rewrite bind_run; unfold lift at 1.
  - rewrite Hd. exists err. split; [by constructor | done].
  - destruct (getSessionIds _ _) as [ids|err] eqn:Hd.
    + rewrite bind_run. destruct (IH (S start)) as (err & Hex & ->).
      exists err. split; [by apply Exists_cons_tl | done].
    + exists err. split; [by constructor | done].
Qed.

Lemma findExistingSessions_rejected (devices : list DeviceIdentity.t)
    (w : World) :
  Exists (fun device =>
            exists err,
              getSessionIds (_storage this)
                (DeviceIdentity.curve25519Key device) = Throw err)
    devices ->
  exists err,
    Exists (fun device =>
              getSessionIds (_storage this)
                (DeviceIdentity.curve25519Key device) = Throw err) devices /\
    _findExistingSessions this devices w
    = (Throw err, add_events [EvReadTxn (next_txn w)] (txn_opened w)).
Proof.
  intros H. unfold _findExistingSessions. rewrite bind_run.
  cbn [readTxn fresh_txn]. rewrite bind_run.
  match goal with
  | |- context [map_i ?f 0 devices ?w1] =>
      destruct (read_session_ids_rejected devices 0 w1 H) as (err & Hex & ->)
  end.
  by exists err.
Qed.

Lemma findExistingSessions_is_Ok (devices : list DeviceIdentity.t) (w : World) :
  Forall (fun device =>
            exists sessionIds,
              getSessionIds (_storage this)
                (DeviceIdentity.curve25519Key device) = Ok sessionIds)
    devices ->
  exists devicesWithoutSession existingEncryptionTargets w',
    _findExistingSessions this devices w
    = (Ok (devicesWithoutSession, existingEncryptionTargets), w').
Proof.
  intros H. unfold _findExistingSessions. rewrite bind_run.
  cbn [readTxn fresh_txn]. rewrite bind_run.
  match goal with
  | |- context [map_i ?f 0 devices ?w1] =>
      destruct (read_session_ids_answered devices 0 w1 H) as [l Hrun]
  end.
  rewrite Hrun.
  destruct (read_session_ids this _ _ _ _ _ Hrun) as [_ Hl].
  specialize (Hl l eq_refl).
  assert (forall k device, devices !! k = Some device ->
            mjoin (l !! (0 + k)) = sessionIds_of this device) as Hlookup.
  { intros k device Hk. by apply (read_session_ids_lookup this devices). }
  rewrite bind_run.
  match goal with
  | |- context [map_i ?f 0 devices ?w1] =>
      change f with (construct_target l);
      destruct (construct_existing_targets this devices l 0 w1 Hlookup)
        as (res & Hrun' & Hres)
  end.
  rewrite Hrun'. cbn [ret]. by do 3 eexists.
Qed.

Lemma existing_targets_devices (devices : list DeviceIdentity.t) :
  map EncryptionTarget.device (omap (existing_target this) devices)
  = List.filter (fun device => has_length (sessionIds_of this device)) devices.
Proof.
  induction devices as [|device devices IH]; [done|].
  cbn [omap list_omap List.filter]. unfold existing_target at 1.
  destruct (has_length (sessionIds_of this device)); [| done].
  cbn. by rewrite <- IH.
Qed.

End Find_existing_run.

Lemma filter_partition {A : Type} (p : A -> bool) (l : list A) :
  List.filter (fun x => negb (p x)) l ++ List.filter p l ≡ₚ l.
Proof.
  induction l as [|x l IH]; [done|]. cbn [List.filter].
  destruct (p x); cbn [negb app].
  - rewrite <- Permutation_middle. by constructor.
  - by constructor.
Qed.

(** X5: when the store answers for every device, [_findExistingSessions]
    splits the devices in two: a device is returned among the devices
    without session, or it gets one new target, which has neither a
    one-time key nor a session yet; no device is lost and none is in both
    parts. *)
Theorem findExistingSessions_partitions_devices (this : Encryption)
    (devices devicesWithoutSession : list DeviceIdentity.t)
    (existingEncryptionTargets : list TargetRef) (w w' : World) :
  _findExistingSessions this devices w
    = (Ok (devicesWithoutSession, existingEncryptionTargets), w') ->
  exists objs,
    targets w' = targets w ++ objs /\
    existingEncryptionTargets = seq (length (targets w)) (length objs) /\
    devicesWithoutSession ++ map EncryptionTarget.device objs ≡ₚ devices /\
    Forall (fun o => EncryptionTarget.oneTimeKey o = None /\
                     EncryptionTarget.session o = None) objs.
Proof.
  intros H. destruct (findExistingSessions_spec this _ _ _ _ _ H)
    as (-> & -> & -> & _).
  exists (omap (existing_target this) devices). repeat split.
  - rewrite existing_targets_devices. apply filter_partition.
  - apply Forall_forall. intros o Ho.
    apply list_elem_of_omap in Ho as (device & _ & Ho).
    unfold existing_target in Ho.
    destruct (has_length _); [| done]. by injection Ho as <-.
Qed.

Lemma findExistingSessions_partitions_devices_witness :
  let this := example_encryption [] (example_storage known_sessions [] 0) in
  let run :=
    _findExistingSessions this [alice_phone; carol_tablet; bob_laptop]
      empty_world in
  run.1 = Ok ([carol_tablet], [0; 1]) /\
  exists objs,
    targets run.2 = targets empty_world ++ objs /\
    [0; 1] = seq (length (targets empty_world)) (length objs) /\
    [carol_tablet] ++ map EncryptionTarget.device objs
      ≡ₚ [alice_phone; carol_tablet; bob_laptop] /\
    Forall (fun o => EncryptionTarget.oneTimeKey o = None /\
                     EncryptionTarget.session o = None) objs.
Proof.
  split; [reflexivity |].
  apply (findExistingSessions_partitions_devices
           (example_encryption [] (example_storage known_sessions [] 0))
           [alice_phone; carol_tablet; bob_laptop] [carol_tablet] [0; 1]
           empty_world).
  reflexivity.
Defined.

(** X6: when the store rejects the read of the session ids of some device,
    [encrypt] throws the error of such a read, and the only thing it has
    done is to open the read transaction: no target is constructed, no key
    is claimed and no session is made. *)
Theorem encrypt_stops_at_a_rejected_read (this : Encryption) (type : string)
    (content : JsValue) (devices : list DeviceIdentity.t) (hsApi : HsApi)
    (w : World) :
  Exists (fun device =>
            exists err,
              getSessionIds (_storage this)
                (DeviceIdentity.curve25519Key device) = Throw err)
    devices ->
  exists err,
    Exists (fun device =>
              getSessionIds (_storage this)
                (DeviceIdentity.curve25519Key device) = Throw err) devices /\
    encrypt this type content devices hsApi w
    = (Throw err, add_events [EvReadTxn (next_txn w)] (txn_opened w)).
Proof.
  intros H.
  destruct (findExistingSessions_rejected this devices w H) as (err & Hex & E).
  exists err. split; [done|]. by rewrite encrypt_run, E.
Qed.

Lemma encrypt_stops_at_a_rejected_read_witness :
  let this := example_encryption [] unreadable_storage in
  exists err,
    Exists (fun device =>
              getSessionIds (_storage this)
                (DeviceIdentity.curve25519Key device) = Throw err)
      [alice_phone] /\
    encrypt this "m.room_key" example_content [alice_phone] (example_hsApi [])
      empty_world
    = (Throw err, add_events [EvReadTxn 0] (txn_opened empty_world)).
Proof.
  apply (encrypt_stops_at_a_rejected_read
           (example_encryption [] unreadable_storage) "m.room_key"
           example_content [alice_phone] (example_hsApi []) empty_world).
  apply Exists_cons_hd. exists StorageError. reflexivity.
Defined.

(** X7: when the homeserver rejects the key claim, [encrypt] throws that
    error right after the claim: the sessions of the other devices are not
    loaded, and nothing is created, written or freed. *)
Theorem encrypt_stops_at_a_rejected_claim (this : Encryption) (type : string)
    (content : JsValue) (devices devicesWithoutSession : list DeviceIdentity.t)
    (existingEncryptionTargets : list TargetRef) (hsApi : HsApi)
    (w w1 : World) (err : JsError) :
  _findExistingSessions this devices w
    = (Ok (devicesWithoutSession, existingEncryptionTargets), w1) ->
  devicesWithoutSession <> [] ->
  claimKeys hsApi (claim_payload (devicesByUser_of devicesWithoutSession))
    = Throw err ->
  encrypt this type content devices hsApi w
  = (Throw err,
     add_events
       [EvClaimKeys (claim_payload (devicesByUser_of devicesWithoutSession))]
       w1).
Proof.
  intros Hfind Hne Hclaim. rewrite encrypt_run, Hfind. unfold create_step.
  destruct devicesWithoutSession as [|device dws]; [done|].
  cbn [length Nat.eqb negb].
  unfold _createNewSessions, _claimOneTimeKeys. rewrite !bind_run.
  cbn [log]. unfold lift at 1. unfold devicesByUser_of in Hclaim.
  by rewrite Hclaim.
Qed.

Lemma encrypt_stops_at_a_rejected_claim_witness :
  let this := example_encryption [] (example_storage known_sessions [] 0) in
  let found :=
    _findExistingSessions this [alice_phone; carol_tablet] empty_world in
  found.1 = Ok ([carol_tablet], [0]) /\
  encrypt this "m.room_key" example_content [alice_phone; carol_tablet]
    unreachable_hsApi empty_world
  = (Throw NetworkError,
     add_events
       [EvClaimKeys (claim_payload (devicesByUser_of [carol_tablet]))]
       found.2).
Proof.
  split; [reflexivity |].
  apply (encrypt_stops_at_a_rejected_claim
           (example_encryption [] (example_storage known_sessions [] 0))
           "m.room_key" example_content [alice_phone; carol_tablet]
           [carol_tablet] [0] unreachable_hsApi empty_world).
  - reflexivity.
  - discriminate.
  - reflexivity.
Defined.

(** ** The only way [encrypt] returns *)

Lemma finally_dispose_throws {A : Type} (encryptionTargets : list TargetRef)
    (err : JsError) (w : World) (a : A) :
  (finally_dispose encryptionTargets (Throw err) w).1 <> Ok a.
Proof.
  unfold finally_dispose.
  by destruct (for_of encryptionTargets dispose w) as [[[]|err'] w'].
Qed.

(** The targets that [create_step] returns are the ones it constructed. *)
Lemma create_step_heap (this : Encryption)
    (devicesWithoutSession : list DeviceIdentity.t) (hsApi : HsApi)
    (timestamp : Z) (w w' : World) (newEncryptionTargets : list TargetRef) :
  create_step this devicesWithoutSession hsApi timestamp w
    = (Ok newEncryptionTargets, w') ->
  newEncryptionTargets
    = seq (length (targets w)) (length newEncryptionTargets) /\
  length (targets w') = length (targets w) + length newEncryptionTargets.
Proof.
  unfold create_step. destruct (negb _).
  - intros Hrun.
    destruct (createNewSessions_spec this devicesWithoutSession hsApi
                timestamp w) as (objs & Hts & _ & Htouch).
    cbv zeta in Hts, Htouch. rewrite Hrun in Hts, Htouch. cbn in Hts, Htouch.
    rewrite (Hts _ eq_refl), length_seq. split; [done|].
    rewrite (touches_length _ _ _ _ Htouch). cbn. by rewrite length_app.
  - intros [= <- <-]. cbn. split; [done | lia].
Qed.

(** X8: [encrypt] returns only when there was nothing to encrypt: the
    list of messages is empty, the call has constructed no target, and the
    store holds no session id for any of the devices.  With one target or
    more the call throws. *)
Theorem encrypt_returns_only_without_targets (this : Encryption)
    (type : string) (content : JsValue) (devices : list DeviceIdentity.t)
    (hsApi : HsApi) (w : World) (messages : list EncryptedMessage.t) :
  (encrypt this type content devices hsApi w).1 = Ok messages ->
  messages = [] /\
  length (targets (encrypt this type content devices hsApi w).2)
  = length (targets w) /\
  Forall (fun device => has_length (sessionIds_of this device) = false) devices.
Proof.
  rewrite encrypt_run.
  destruct (_findExistingSessions this devices w)
    as [[[devicesWithoutSession existingEncryptionTargets]|err] w1] eqn:Hfind;
    [| done].
  destruct (findExistingSessions_spec this _ _ _ _ _ Hfind)
    as (Hw1 & _ & Hexisting & _).
  destruct (create_step this devicesWithoutSession hsApi (_now this) w1)
    as [[newEncryptionTargets|err] w2] eqn:Hcreate; [| done].
  destruct (create_step_heap _ _ _ _ _ _ _ Hcreate) as [_ Hlen2].
  pose proof (heap_length_loadSessions this _ existingEncryptionTargets w2
                eq_refl) as Hlen3.
  destruct (_loadSessions this existingEncryptionTargets w2)
    as [[[]|err] w3]; cbn [snd] in Hlen3;
    [| intros H; by apply finally_dispose_throws in H].
  destruct (newEncryptionTargets ++ existingEncryptionTargets) as [|t ts] eqn:Happ;
    [| intros H; by apply finally_dispose_throws in H].
  apply app_eq_nil in Happ as [-> ->].
  pose proof (heap_length_storeSessions this _ [] (_now this) w3 eq_refl)
    as Hlen4.
  destruct (_storeSessions this [] (_now this) w3) as [[[]|err] w4];
    cbn [fst snd] in *; [| done].
  intros [= <-].
  assert (omap (existing_target this) devices = []) as Hnone.
  { apply nil_length_inv. symmetry in Hexisting.
    apply (f_equal length) in Hexisting. by rewrite length_seq in Hexisting. }
  repeat split.
  - rewrite Hlen4, Hlen3, Hlen2, Hw1. cbn. rewrite Hnone, length_app. cbn. lia.
  - apply Forall_forall. intros device Hin.
    destruct (has_length (sessionIds_of this device)) eqn:Hlen; [| done].
    assert (is_Some (existing_target this device)) as [o Ho].
    { unfold existing_target. rewrite Hlen. by eexists. }
    assert (o ∈ omap (existing_target this) devices) as Ho'.
    { apply list_elem_of_omap. by exists device. }
    rewrite Hnone in Ho'. by apply elem_of_nil in Ho'.
Qed.

Lemma encrypt_returns_only_without_targets_witness :
  let this := example_encryption [] (example_storage [] [] 0) in
  let run :=
    encrypt this "m.room_key" example_content [carol_tablet] (example_hsApi [])
      empty_world in
  run.1 = Ok [] /\
  length (targets run.2) = length (targets empty_world) /\
  Forall (fun device => has_length (sessionIds_of this device) = false)
    [carol_tablet].
Proof.
  split; [reflexivity |].
  apply (encrypt_returns_only_without_targets
           (example_encryption [] (example_storage [] [] 0)) "m.room_key"
           example_content [carol_tablet] (example_hsApi []) empty_world []).
  reflexivity.
Defined.

(** ** [_createNewSessions], run *)

Lemma claimed_targets_valid (this : Encryption) (hsApi : HsApi)
    (deviceIdentities : list DeviceIdentity.t) (w w' : World)
    (ts : list TargetRef) :
  _claimOneTimeKeys this hsApi deviceIdentities w = (Ok ts, w') ->
  ts = seq (length (targets w)) (length ts) /\
  length (targets w') = length (targets w) + length ts /\
  (forall t, t < length (targets w) -> targets w' !! t = targets w !! t) /\
  (forall t o, length (targets w) <= t -> targets w' !! t = Some o ->
     EncryptionTarget.session o = None) /\
  next_session w' = next_session w.
Proof.
  intros Hrun.
  destruct (claimOneTimeKeys_spec this hsApi deviceIdentities w)
    as (objs & Hw & Hobjs & Hts).
  cbv zeta in *. rewrite Hrun in *. cbn [fst snd] in *.
  rewrite (Hts _ eq_refl), length_seq. subst w'. cbn.
  split; [done|]. split; [by rewrite length_app|]. split; [|split; [|done]].
  - intros t Ht. by rewrite lookup_app_l.
  - intros t o Ht Ho. rewrite lookup_app_r in Ho by done.
    apply list_elem_of_lookup_2 in Ho.
    pose proof (proj1 (Forall_forall _ _) Hobjs o Ho)
      as (entries & u & us & d & ds & _ & _ & _ & Hacc).
    by apply accepted_session in Hacc.
Qed.

Lemma createNewSessions_run (this : Encryption)
    (devicesWithoutSession : list DeviceIdentity.t) (hsApi : HsApi)
    (timestamp : Z) (w : World) :
  _createNewSessions this devicesWithoutSession hsApi timestamp w =
  match _claimOneTimeKeys this hsApi devicesWithoutSession w with
  | (Ok newEncryptionTargets, w1) =>
      (Ok newEncryptionTargets,
       (create_block this newEncryptionTargets timestamp w1).2)
  | (Throw err, w1) => (Throw err, w1)
  end.
Proof.
  unfold _createNewSessions. rewrite bind_run.
  destruct (_claimOneTimeKeys this hsApi devicesWithoutSession w)
    as [[ts|err] w1] eqn:Hclaim; [| done].
  destruct (claimed_targets_valid _ _ _ _ _ _ Hclaim) as (Hts & Hlen & _).
  assert (Forall (fun t => t < length (targets w1)) ts) as Hvalid.
  { apply Forall_forall. intros t Ht. rewrite Hts in Ht.
    apply elem_of_seq in Ht. lia. }
  destruct (create_block_run this ts timestamp w1 Hvalid) as [Hok _].
  cbv zeta in Hok. rewrite bind_run.
  match goal with
  | |- context [try_catch (bind (for_of ts ?body) _)] =>
      change body with (create_body this)
  end.
  change (try_catch _ _) with (create_block this ts timestamp) in *.
  by destruct (create_block this ts timestamp w1) as [[[]|err] w2].
Qed.

(** X9: [_createNewSessions] has the outcome of the key claim: it returns
    the targets that the claim has verified, and it throws only when the
    claim throws.  An exception of [createOutboundOlmSession] or of the
    write of the new sessions never reaches the caller. *)
Theorem createNewSessions_has_the_outcome_of_the_claim (this : Encryption)
    (devicesWithoutSession : list DeviceIdentity.t) (hsApi : HsApi)
    (timestamp : Z) (w : World) :
  (_createNewSessions this devicesWithoutSession hsApi timestamp w).1
  = (_claimOneTimeKeys this hsApi devicesWithoutSession w).1.
Proof.
  rewrite createNewSessions_run.
  by destruct (_claimOneTimeKeys this hsApi devicesWithoutSession w)
    as [[ts|err] w1].
Qed.

(** X10: [_createNewSessions] leaves the targets alone that existed before
    the call, whatever happens in it: the heap it leaves is the old heap
    followed by the targets it has constructed. *)
Theorem createNewSessions_leaves_older_targets (this : Encryption)
    (devicesWithoutSession : list DeviceIdentity.t) (hsApi : HsApi)
    (timestamp : Z) (w : World) :
  exists objs,
    targets (_createNewSessions this devicesWithoutSession hsApi timestamp w).2
    = targets w ++ objs.
Proof.
  destruct (createNewSessions_spec this devicesWithoutSession hsApi
              timestamp w) as (objs & _ & _ & Htouch).
  cbv zeta in Htouch.
  set (w' := (_createNewSessions this devicesWithoutSession hsApi
                timestamp w).2) in *.
  exists (drop (length (targets w)) (targets w')).
  rewrite <- (take_drop (length (targets w)) (targets w')) at 1.
  f_equal. apply list_eq. intros t.
  destruct (decide (t < length (targets w))) as [Ht|Ht].
  - rewrite lookup_take_lt by done.
    rewrite (touches_frame _ _ _ _ Htouch).
    + cbn. by rewrite lookup_app_l.
    + intros Hin. apply elem_of_seq in Hin. lia.
  - rewrite lookup_take_ge by lia. symmetry. apply lookup_ge_None. lia.
Qed.

(** ** Sessions that are freed once *)

Lemma clean_events (evs : list Event) (w w' : World) :
  targets w' = targets w -> next_session w <= next_session w' ->
  trace w' = trace w ++ evs ->
  Forall (fun ev => forall s, ev <> EvFree s) evs ->
  clean w -> clean w'.
Proof.
  intros Ht Hn He Hevs [Hfresh Hdistinct Hunfreed]. split.
  - intros t s. unfold session_of. rewrite Ht. intros H.
    specialize (Hfresh t s H). lia.
  - intros t t' s. unfold session_of. rewrite Ht. apply Hdistinct.
  - intros s Hin. rewrite He in Hin. apply elem_of_app in Hin as [Hin|Hin].
    + by apply (Hunfreed s).
    + by apply (proj1 (Forall_forall _ _) Hevs _ Hin s).
Qed.

Lemma clean_log (ev : Event) :
  (forall s, ev <> EvFree s) -> preserves clean (log ev).
Proof.
  intros H w. apply (clean_events [ev]); [done..|]. by constructor.
Qed.

Lemma clean_fresh_txn (ev : TxnId -> Event) :
  (forall txn s, ev txn <> EvFree s) -> preserves clean (fresh_txn ev).
Proof.
  intros H w. apply (clean_events [ev (next_txn w)]); [done..|].
  by constructor.
Qed.

Lemma clean_new (device : DeviceIdentity.t)
    (oneTimeKey sessionId : option string) :
  preserves clean (new_EncryptionTarget device oneTimeKey sessionId).
Proof.
  intros w [Hfresh Hdistinct Hunfreed].
  assert (forall t s,
            session_of (new_EncryptionTarget device oneTimeKey sessionId w).2 t
            = Some s -> session_of w t = Some s) as Hold.
  { intros t s. unfold session_of. cbn.
    destruct (decide (t < length (targets w))) as [Ht|Ht].
    - by rewrite lookup_app_l.
    - rewrite lookup_app_r by lia.
      by destruct (t - length (targets w)) as [|k]. }
  split.
  - intros t s H. by apply (Hfresh t), Hold.
  - intros t t' s H H'. by apply (Hdistinct t t' s); apply Hold.
  - done.
Qed.

(** Assigning the next session to a target. *)
Lemma clean_assign (target : TargetRef) (evs : list Event) (w : World) :
  Forall (fun ev => forall s, ev <> EvFree s) evs ->
  clean w ->
  clean {| targets := alter (with_session (next_session w)) target (targets w);
           next_session := S (next_session w); next_txn := next_txn w;
           trace := trace w ++ evs |}.
Proof.
  intros Hevs [Hfresh Hdistinct Hunfreed].
  assert (forall t s,
            alter (with_session (next_session w)) target (targets w) !! t
              ≫= EncryptionTarget.session = Some s ->
            (t = target /\ s = next_session w) \/
            (t <> target /\ session_of w t = Some s)) as Hcases.
  { intros t s. destruct (decide (target = t)) as [<-|Hne].
    - rewrite list_lookup_alter_eq.
      destruct (targets w !! target); cbn; [| done]. intros [= <-]. by left.
    - rewrite list_lookup_alter_ne by done. intros H. right. by split. }
  split.
  - intros t s H. cbn. destruct (Hcases t s H) as [[_ ->]|[_ H']]; [lia|].
    specialize (Hfresh t s H'). lia.
  - intros t t' s H H'.
    destruct (Hcases t s H) as [[-> ->]|[Hne Hs]];
      destruct (Hcases t' _ H') as [[-> Hs']|[Hne' Hs']]; try done.
    + specialize (Hfresh _ _ Hs'). lia.
    + specialize (Hfresh _ _ Hs). lia.
    + by apply (Hdistinct t t' s).
  - intros s Hin. cbn in Hin. apply elem_of_app in Hin as [Hin|Hin].
    + by apply (Hunfreed s).
    + by apply (proj1 (Forall_forall _ _) Hevs _ Hin s).
Qed.

Section Clean.

Variable this : Encryption.

Lemma clean_create (target : TargetRef) :
  preserves clean (create_body this target).
Proof.
  intros w Hw.
  destruct (create_body_run this target w) as [[err ->]|(o&_&->)]; [done|].
  apply clean_assign; [| done]. by constructor.
Qed.

Lemma clean_load (failed : bool) (target : TargetRef) :
  preserves clean (load_callback this failed target).
Proof.
  intros w Hw.
  destruct (load_callback_run this failed target w)
    as [[r ->]|(o&entry&_&_&_&H)]; [done|]. cbv zeta in H.
  destruct (unpickle_succeeds _ _ _); rewrite H.
  - apply clean_assign; [| done]. by repeat constructor.
  - eapply clean_events; [..| exact Hw]; [done | cbn; lia | done |].
    by repeat constructor.
Qed.

Lemma clean_findExistingSessions (devices : list DeviceIdentity.t) :
  preserves clean (_findExistingSessions this devices).
Proof.
  apply preserves_findExistingSessions.
  - by apply clean_fresh_txn.
  - intros. apply clean_new.
Qed.

Lemma clean_claimOneTimeKeys (hsApi : HsApi)
    (deviceIdentities : list DeviceIdentity.t) :
  preserves clean (_claimOneTimeKeys this hsApi deviceIdentities).
Proof.
  apply preserves_claimOneTimeKeys.
  - intros. by apply clean_log.
  - intros. apply clean_new.
Qed.

Lemma clean_storeSessions_prefix (encryptionTargets : list TargetRef)
    (timestamp : Z) :
  preserves clean (_storeSessions_prefix this encryptionTargets timestamp).
Proof.
  apply preserves_storeSessions_prefix.
  - by apply clean_fresh_txn.
  - intros ev Hev. apply clean_log. by destruct ev.
Qed.

Hypothesis creation_succeeds : forall theirIdentityKey theirOneTimeKey,
  createOutbound_succeeds (_account this) theirIdentityKey theirOneTimeKey
  = true.

Lemma create_loop_returns (owners : list TargetRef) (w : World) :
  Forall (fun t => t < length (targets w)) owners ->
  (for_of owners (create_body this) w).1 = Ok tt.
Proof using creation_succeeds.
  revert w. induction owners as [|t owners IH]; intros w Hvalid; [done|].
  apply Forall_cons in Hvalid as [Ht Hvalid].
  cbn [for_of]. rewrite bind_run.
  destruct (create_body_run this t w) as [[err E]|(o&_&E)].
  - exfalso. revert E. unfold create_body, deref, createOutboundOlmSession.
    rewrite bind_run. apply lookup_lt_is_Some in Ht as [o ->].
    cbv zeta. rewrite bind_run, creation_succeeds. done.
  - rewrite E. apply IH. cbn. by rewrite length_alter.
Qed.

Lemma create_block_clean (owners : list TargetRef) (timestamp : Z) (w : World) :
  Forall (fun t => t < length (targets w)) owners ->
  clean w -> clean (create_block this owners timestamp w).2.
Proof using creation_succeeds.
  intros Hvalid Hw. unfold create_block, try_catch.
  pose proof (create_loop_returns owners w Hvalid) as Hok.
  assert (preserves clean
            (for_of owners (create_body this) ;;
             unawaited (_storeSessions_prefix this owners timestamp))) as H.
  { apply preserves_bind; [apply preserves_for_of, clean_create | intros _].
    apply preserves_unawaited, clean_storeSessions_prefix. }
  specialize (H w Hw). rewrite bind_run in *.
  destruct (for_of owners (create_body this) w) as [[[]|err] w1];
    cbn [fst] in Hok; [| done].
  done.
Qed.

Lemma create_step_clean (devicesWithoutSession : list DeviceIdentity.t)
    (hsApi : HsApi) (timestamp : Z) (w : World) :
  clean w ->
  clean (create_step this devicesWithoutSession hsApi timestamp w).2.
Proof using creation_succeeds.
  intros Hw. unfold create_step. destruct (negb _); [| done].
  rewrite createNewSessions_run.
  pose proof (clean_claimOneTimeKeys hsApi devicesWithoutSession w Hw) as H1.
  destruct (_claimOneTimeKeys this hsApi devicesWithoutSession w)
    as [[ts|err] w1] eqn:Hclaim; cbn [snd] in *; [| done].
  destruct (claimed_targets_valid _ _ _ _ _ _ Hclaim) as (Hts & Hlen & _).
  apply create_block_clean; [| done].
  apply Forall_forall. intros t Ht. rewrite Hts in Ht.
  apply elem_of_seq in Ht. lia.
Qed.

End Clean.

Lemma frees_app (heap : list EncryptionTarget.t) (ts ts' : list TargetRef) :
  frees heap (ts ++ ts') = frees heap ts ++ frees heap ts'.
Proof. unfold frees. apply omap_app. Qed.

(** Disposing of all targets of a clean world frees every session that a
    target holds once. *)
Lemma dispose_all_once (w : World) (ts : list TargetRef) (target : TargetRef)
    (s : SessionHandle) :
  clean w -> NoDup ts -> target ∈ ts -> session_of w target = Some s ->
  count_free s (trace w ++ frees (targets w) ts) = 1.
Proof.
  intros [Hfresh Hdistinct Hunfreed] Hnodup Hin Hs.
  rewrite count_free_app, (count_free_absent s (trace w)) by apply Hunfreed.
  rewrite (count_free_frees_one s w ts target); [done..|].
  intros t _ Ht. by apply (Hdistinct t target s).
Qed.

Section Load_clean.

Variable this : Encryption.

Lemma loadSessions_returns_clean (batch : list TargetRef) (w : World) :
  (_loadSessions this batch w).1 = Ok tt -> clean w ->
  clean (_loadSessions this batch w).2.
Proof.
  intros Hok Hw. revert Hok. unfold _loadSessions. cbn [readTxn fresh_txn].
  match goal with
  | |- context [settle_until_rejection this ?o ?w1] =>
      pose proof (preserves_settle_until_rejection this clean
                    (clean_load this) o w1) as H;
      destruct (settle_until_rejection this o w1)
        as [[[err in_flight]|] w2]
  end.
  - by destruct (for_of batch dispose _) as [[[]|err'] w3].
  - intros _. apply H. by apply (clean_fresh_txn EvReadTxn).
Qed.

Lemma loadSessions_throws_clean (batch : list TargetRef) (w w3 : World)
    (err : JsError) :
  Forall (fun t => t < length (targets w)) batch -> clean w ->
  _loadSessions this batch w = (Throw err, w3) ->
  exists wc,
    clean wc /\ length (targets wc) = length (targets w) /\
    w3 = add_events (frees (targets wc) batch) wc.
Proof.
  intros Hvalid Hw.
  assert (clean (readTxn w).2) as Hw0 by by apply (clean_fresh_txn EvReadTxn).
  unfold _loadSessions. cbn [readTxn fresh_txn snd] in *.
  match goal with
  | |- context [settle_until_rejection this ?o ?w1] =>
      pose proof (preserves_settle_until_rejection this clean
                    (clean_load this) o w1 Hw0) as H;
      pose proof (preserves_settle_until_rejection this
                    (fun w' => length (targets w') = length (targets w))
                    (heap_length_load this _) o w1 eq_refl) as Hlen;
      destruct (settle_until_rejection this o w1)
        as [[[err' in_flight]|] w2]
  end; [| done]. cbn [snd] in H, Hlen.
  set (wc := settle_unobserved this false
               (take (load_delay (_storage this)) in_flight) w2).
  assert (clean wc) as Hwc.
  { by apply preserves_settle_unobserved; [apply clean_load |]. }
  assert (length (targets wc) = length (targets w)) as Hlen'.
  { by apply (preserves_settle_unobserved this
                (fun w' => length (targets w') = length (targets w)));
      [apply heap_length_load |]. }
  rewrite dispose_all_run by (by rewrite Hlen').
  rewrite settle_unobserved_failed. intros [= <- <-]. by exists wc.
Qed.

End Load_clean.

Lemma all_targets_in (n1 n2 : nat) (t : TargetRef) :
  t < n1 + n2 -> t ∈ seq n1 n2 ++ seq 0 n1.
Proof.
  intros Ht. apply elem_of_app. destruct (decide (t < n1)).
  - right. apply elem_of_seq. lia.
  - left. apply elem_of_seq. lia.
Qed.

Lemma all_targets_NoDup (n1 n2 : nat) : NoDup (seq n1 n2 ++ seq 0 n1).
Proof.
  apply NoDup_app. split; [apply NoDup_seq|]. split; [| apply NoDup_seq].
  intros t Ht Ht'. apply elem_of_seq in Ht, Ht'. lia.
Qed.

Lemma sessionless_findExistingSessions (this : Encryption)
    (devices : list DeviceIdentity.t) :
  preserves (every_target sessionless) (_findExistingSessions this devices).
Proof.
  apply preserves_findExistingSessions.
  - by apply (preserves_heap_only (Forall sessionless)).
  - intros. by apply every_target_new.
Qed.

Lemma sessionless_claimOneTimeKeys (this : Encryption) (hsApi : HsApi)
    (deviceIdentities : list DeviceIdentity.t) :
  preserves (every_target sessionless)
    (_claimOneTimeKeys this hsApi deviceIdentities).
Proof.
  apply preserves_claimOneTimeKeys.
  - intros. by apply (preserves_heap_only (Forall sessionless)).
  - intros. by apply every_target_new.
Qed.

Lemma sessionless_held (w : World) (target : TargetRef) (s : SessionHandle) :
  every_target sessionless w -> session_of w target = Some s -> False.
Proof.
  intros Hw. unfold session_of.
  destruct (targets w !! target) as [o|] eqn:Ho; [| done].
  cbn. by rewrite (Forall_lookup_1 _ _ _ _ Hw Ho).
Qed.

Lemma session_of_valid (w : World) (target : TargetRef) (s : SessionHandle) :
  session_of w target = Some s -> target < length (targets w).
Proof.
  unfold session_of. intros H. apply lookup_lt_is_Some.
  by destruct (targets w !! target); [eexists |].
Qed.

(** X11: when [createOutboundOlmSession] never throws, every session that a
    target holds when [encrypt] is over has been freed exactly once,
    whether the call returns or throws, and wherever it throws. *)
Theorem sessions_freed_exactly_once (this : Encryption) (type : string)
    (content : JsValue) (devices : list DeviceIdentity.t) (hsApi : HsApi)
    (target : TargetRef) (s : SessionHandle) :
  (forall theirIdentityKey theirOneTimeKey,
     createOutbound_succeeds (_account this) theirIdentityKey theirOneTimeKey
     = true) ->
  session_of (encrypt this type content devices hsApi empty_world).2 target
  = Some s ->
  count_free s (trace (encrypt this type content devices hsApi empty_world).2)
  = 1.
Proof.
  intros Hcreate. rewrite encrypt_run.
  assert (clean empty_world) as Hclean0.
  { split; [done | done |]. intros s' Hin. by apply elem_of_nil in Hin. }
  assert (every_target sessionless empty_world) as Hnone0 by constructor.
  pose proof (clean_findExistingSessions this devices _ Hclean0) as Hclean1.
  pose proof (sessionless_findExistingSessions this devices _ Hnone0)
    as Hnone1.
  destruct (_findExistingSessions this devices empty_world)
    as [[[devicesWithoutSession existingEncryptionTargets]|err] w1] eqn:Hfind;
    cbn [snd] in *.
  2:{ intros H. by destruct (sessionless_held _ _ _ Hnone1 H). }
  destruct (findExistingSessions_spec this _ _ _ _ _ Hfind)
    as (Hw1 & _ & Hexisting & _).
  assert (length (targets w1) = length existingEncryptionTargets) as Hlen1.
  { rewrite Hexisting, length_seq, Hw1. cbn. done. }
  cbn [empty_world targets length] in Hexisting.
  pose proof (create_step_clean this Hcreate devicesWithoutSession hsApi
                (_now this) w1 Hclean1) as Hclean2.
  destruct (create_step this devicesWithoutSession hsApi (_now this) w1)
    as [[newEncryptionTargets|err] w2] eqn:Hstep; cbn [snd] in *.
  2:{ (* the claim has thrown: no target holds a session *)
    intros H. revert Hstep. unfold create_step. destruct (negb _); [| done].
    rewrite createNewSessions_run.
    pose proof (sessionless_claimOneTimeKeys this hsApi devicesWithoutSession
                  _ Hnone1) as Hnone2.
    destruct (_claimOneTimeKeys this hsApi devicesWithoutSession w1)
      as [[ts|err'] w1']; [done|]. intros [= _ <-].
    by destruct (sessionless_held _ _ _ Hnone2 H). }
  destruct (create_step_heap _ _ _ _ _ _ _ Hstep) as [Hnew Hlen2].
  assert (newEncryptionTargets ++ existingEncryptionTargets
          = seq (length existingEncryptionTargets)
              (length newEncryptionTargets)
            ++ seq 0 (length existingEncryptionTargets)) as Hall.
  { f_equal; [by rewrite <- Hlen1 |].
    rewrite Hexisting. by rewrite length_seq. }
  assert (Forall (fun t => t < length (targets w2))
            (newEncryptionTargets ++ existingEncryptionTargets)) as Hvalid.
  { rewrite Hall. apply Forall_forall. intros t Ht. rewrite Hlen2, Hlen1.
    apply elem_of_app in Ht as [Ht|Ht]; apply elem_of_seq in Ht; lia. }
  apply Forall_app in Hvalid as Hvalid'. destruct Hvalid' as [Hvalid_new Hvalid_ex].
  assert (forall w', length (targets w') = length (targets w2) ->
            session_of w' target = Some s ->
            target ∈ newEncryptionTargets ++ existingEncryptionTargets)
    as Hmember.
  { intros w' Hlen' H. rewrite Hall. apply all_targets_in.
    apply session_of_valid in H. lia. }
  assert (NoDup (newEncryptionTargets ++ existingEncryptionTargets)) as Hnodup.
  { rewrite Hall. apply all_targets_NoDup. }
  destruct (_loadSessions this existingEncryptionTargets w2)
    as [[[]|err] w3] eqn:Hload.
  - (* the sessions have been loaded *)
    pose proof (loadSessions_returns_clean this existingEncryptionTargets w2)
      as Hclean3.
    pose proof (heap_length_loadSessions this _ existingEncryptionTargets w2
                  eq_refl) as Hlen3.
    rewrite Hload in Hclean3, Hlen3. cbn [fst snd] in *.
    specialize (Hclean3 eq_refl Hclean2).
    destruct (newEncryptionTargets ++ existingEncryptionTargets)
      as [|t0 ts] eqn:Happ.
    + pose proof (heap_length_storeSessions this _ [] (_now this) w3 eq_refl)
        as Hlen4.
      intros H. exfalso.
      assert (length (targets (_storeSessions this [] (_now this) w3).2)
              = length (targets w2)) as Hlen5 by congruence.
      assert (session_of (_storeSessions this [] (_now this) w3).2 target
              = Some s) as H'.
      { by destruct (_storeSessions this [] (_now this) w3) as [[[]|err] w4]. }
      pose proof (Hmember _ Hlen5 H') as Hin. by apply elem_of_nil in Hin.
    + rewrite <- Happ in *. clear Happ t0 ts.
      rewrite finally_dispose_snd, dispose_all_run by (by rewrite Hlen3).
      cbn [snd add_events trace]. intros H.
      change (session_of w3 target = Some s) in H.
      apply (dispose_all_once w3 _ target s Hclean3); [done | | done].
      by apply (Hmember w3).
  - (* a session has failed to load *)
    destruct (loadSessions_throws_clean this existingEncryptionTargets w2 w3
                err Hvalid_ex Hclean2 Hload) as (wc & Hcleanc & Hlenc & ->).
    rewrite finally_dispose_snd, dispose_all_run by (cbn; by rewrite Hlenc).
    cbn [snd add_events trace targets]. intros H.
    change (session_of wc target = Some s) in H.
    assert (count_free s (trace wc ++
              frees (targets wc)
                (newEncryptionTargets ++ existingEncryptionTargets)) = 1)
      as Hone.
    { apply (dispose_all_once wc _ target s Hcleanc); [done | | done].
      by apply (Hmember wc). }
    rewrite !count_free_app in *. rewrite frees_app, count_free_app in Hone.
    lia.
Qed.

Lemma sessions_freed_exactly_once_witness :
  let this := example_encryption [] (example_storage known_sessions [] 0) in
  let run :=
    encrypt this "m.room_key" example_content [alice_phone; carol_tablet]
      (example_hsApi
         [("@carol:example.org",
           [claimed_key "signed_curve25519" carol_tablet])])
      empty_world in
  session_of run.2 1 = Some 0 /\ count_free 0 (trace run.2) = 1.
Proof.
  split; [reflexivity |].
  apply (sessions_freed_exactly_once
           (example_encryption [] (example_storage known_sessions [] 0))
           "m.room_key" example_content [alice_phone; carol_tablet]
           (example_hsApi
              [("@carol:example.org",
                [claimed_key "signed_curve25519" carol_tablet])]) 1 0).
  - intros theirIdentityKey theirOneTimeKey. reflexivity.
  - reflexivity.
Defined.

(** ** Sessions that fail to unpickle *)

Lemma session_of_alter (heap : list EncryptionTarget.t) (target t : TargetRef)
    (s0 s : SessionHandle) :
  alter (with_session s0) target heap !! t ≫= EncryptionTarget.session = Some s ->
  s = s0 \/ heap !! t ≫= EncryptionTarget.session = Some s.
Proof.
  destruct (decide (target = t)) as [<-|Hne].
  - rewrite list_lookup_alter_eq.
    destruct (heap !! target); cbn; [| done]. intros [= <-]. by left.
  - rewrite list_lookup_alter_ne by done. by right.
Qed.

Section Orphans.

Variable this : Encryption.

(** Events that are neither a [free()] nor an [unpickle]. *)
Lemma orphans_events (evs : list Event) (w w' : World) :
  targets w' = targets w -> next_session w' = next_session w ->
  trace w' = trace w ++ evs ->
  Forall (fun ev => (forall s, ev <> EvFree s) /\
                    forall s pickled, ev <> EvUnpickle s pickled) evs ->
  orphans_kept this w -> orphans_kept this w'.
Proof.
  intros Ht Hn He Hevs [[Hheap Hfreed] Hbelow Hlost].
  assert (forall s, EvFree s ∈ trace w' -> EvFree s ∈ trace w) as Hf.
  { intros s Hin. rewrite He in Hin. apply elem_of_app in Hin as [Hin|Hin];
      [done|]. by destruct (proj1 (proj1 (Forall_forall _ _) Hevs _ Hin) s). }
  assert (forall s p, EvUnpickle s p ∈ trace w' -> EvUnpickle s p ∈ trace w)
    as Hu.
  { intros s p Hin. rewrite He in Hin. apply elem_of_app in Hin as [Hin|Hin];
      [done|]. by destruct (proj2 (proj1 (Forall_forall _ _) Hevs _ Hin) s p). }
  split; [split|..].
  - intros t s. unfold session_of. rewrite Ht, Hn. apply Hheap.
  - intros s Hin. rewrite Hn. by apply Hfreed, Hf.
  - intros s p Hin. rewrite Hn. by apply (Hbelow s p), Hu.
  - intros s p Hin Hfail. destruct (Hlost s p (Hu _ _ Hin) Hfail) as [H1 H2].
    split.
    + intros t. unfold session_of. rewrite Ht. apply H1.
    + intros Hin'. by apply H2, Hf.
Qed.

Lemma orphans_log (ev : Event) :
  (forall s, ev <> EvFree s) -> (forall s pickled, ev <> EvUnpickle s pickled) ->
  preserves (orphans_kept this) (log ev).
Proof.
  intros H1 H2 w. apply (orphans_events [ev]); [done..|]. by constructor.
Qed.

Lemma orphans_fresh_txn (ev : TxnId -> Event) :
  (forall txn s, ev txn <> EvFree s) ->
  (forall txn s pickled, ev txn <> EvUnpickle s pickled) ->
  preserves (orphans_kept this) (fresh_txn ev).
Proof.
  intros H1 H2 w. apply (orphans_events [ev (next_txn w)]); [done..|].
  by constructor.
Qed.

Lemma orphans_new (device : DeviceIdentity.t)
    (oneTimeKey sessionId : option string) :
  preserves (orphans_kept this)
    (new_EncryptionTarget device oneTimeKey sessionId).
Proof.
  intros w [[Hheap Hfreed] Hbelow Hlost].
  assert (forall t s,
            session_of (new_EncryptionTarget device oneTimeKey sessionId w).2 t
            = Some s -> session_of w t = Some s) as Hold.
  { intros t s. unfold session_of. cbn.
    destruct (decide (t < length (targets w))) as [Ht|Ht].
    - by rewrite lookup_app_l.
    - rewrite lookup_app_r by lia.
      by destruct (t - length (targets w)) as [|k]. }
  split; [split|..]; cbn; try done.
  - intros t s H. by apply (Hheap t), Hold.
  - intros s p Hin Hfail. destruct (Hlost s p Hin Hfail) as [H1 H2].
    split; [| done]. intros t H. by apply (H1 t), Hold.
Qed.

Lemma orphans_dispose (target : TargetRef) :
  preserves (orphans_kept this) (dispose target).
Proof.
  intros w Hw. unfold dispose, deref. rewrite bind_snd.
  destruct (targets w !! target) as [o|] eqn:Ho; cbn; [| done].
  destruct (EncryptionTarget.session o) as [s0|] eqn:Hs; [| done].
  assert (session_of w target = Some s0) as Hheld.
  { unfold session_of. by rewrite Ho. }
  destruct Hw as [[Hheap Hfreed] Hbelow Hlost].
  split; [split|..]; cbn.
  - done.
  - intros s Hin. apply elem_of_app in Hin as [Hin|Hin]; [by apply Hfreed|].
    apply list_elem_of_singleton in Hin as [= ->]. by apply (Hheap target).
  - intros s p Hin. apply elem_of_app in Hin as [Hin|Hin];
      [by apply (Hbelow s p)|].
    by apply list_elem_of_singleton in Hin.
  - intros s p Hin Hfail. apply elem_of_app in Hin as [Hin|Hin];
      [| by apply list_elem_of_singleton in Hin].
    destruct (Hlost s p Hin Hfail) as [H1 H2]. split; [done|].
    intros Hin'. apply elem_of_app in Hin' as [Hin'|Hin']; [done|].
    apply list_elem_of_singleton in Hin' as [= ->]. by apply (H1 target).
Qed.

(** The next session is assigned to a target; [evs] are the events of
    the step. *)
Lemma orphans_assign (target : TargetRef) (evs : list Event) (w : World) :
  Forall (fun ev =>
            (forall s, ev <> EvFree s) /\
            forall s pickled,
              ev = EvUnpickle s pickled ->
              s = next_session w /\
              unpickle_succeeds (_olm this) (_pickleKey this) pickled = true)
    evs ->
  orphans_kept this w ->
  orphans_kept this
    {| targets := alter (with_session (next_session w)) target (targets w);
       next_session := S (next_session w); next_txn := next_txn w;
       trace := trace w ++ evs |}.
Proof.
  intros Hevs [[Hheap Hfreed] Hbelow Hlost].
  assert (forall s, EvFree s ∈ trace w ++ evs -> EvFree s ∈ trace w) as Hf.
  { intros s Hin. apply elem_of_app in Hin as [Hin|Hin]; [done|].
    by destruct (proj1 (proj1 (Forall_forall _ _) Hevs _ Hin) s). }
  split; [split|..]; cbn.
  - intros t s H. apply session_of_alter in H as [->|H]; [lia|].
    specialize (Hheap t s H). lia.
  - intros s Hin. specialize (Hfreed s (Hf s Hin)). lia.
  - intros s p Hin. apply elem_of_app in Hin as [Hin|Hin].
    + specialize (Hbelow s p Hin). lia.
    + destruct (proj2 (proj1 (Forall_forall _ _) Hevs _ Hin) s p eq_refl)
        as [-> _]. lia.
  - intros s p Hin Hfail. apply elem_of_app in Hin as [Hin|Hin].
    + destruct (Hlost s p Hin Hfail) as [H1 H2]. split.
      * intros t H. apply session_of_alter in H as [->|H]; [| by apply (H1 t)].
        specialize (Hbelow _ _ Hin). lia.
      * intros Hin'. by apply H2, Hf.
    + destruct (proj2 (proj1 (Forall_forall _ _) Hevs _ Hin) s p eq_refl)
        as [_ Hok]. congruence.
Qed.

Lemma orphans_create (target : TargetRef) :
  preserves (orphans_kept this) (create_body this target).
Proof.
  intros w Hw.
  destruct (create_body_run this target w) as [[err ->]|(o&_&->)]; [done|].
  apply orphans_assign; [| done].
  apply Forall_cons. split; [| done]. split; [done | by intros ? ? [=]].
Qed.

Lemma orphans_load (failed : bool) (target : TargetRef) :
  preserves (orphans_kept this) (load_callback this failed target).
Proof.
  intros w Hw.
  destruct (load_callback_run this failed target w)
    as [[r ->]|(o&entry&_&_&_&H)]; [done|]. cbv zeta in H.
  destruct (unpickle_succeeds _ _ _) eqn:Hu; rewrite H; cbn [snd].
  - apply orphans_assign; [| done].
    apply Forall_cons. split; [split; [done | by intros ? ? [=]] |].
    apply Forall_cons. split; [| done]. split; [done|].
    intros s' p' [= <- <-]. by split.
  - destruct Hw as [[Hheap Hfreed] Hbelow Hlost].
    assert (forall s, EvFree s ∈ trace w ++
              [EvNewSession (next_session w);
               EvUnpickle (next_session w) (SessionEntry.session entry)] ->
            EvFree s ∈ trace w) as Hf.
    { intros s Hin. apply elem_of_app in Hin as [Hin|Hin]; [done|].
      apply elem_of_cons in Hin as [Hin|Hin]; [done|].
      by apply list_elem_of_singleton in Hin. }
    split; [split|..]; cbn.
    + intros t s Hs. specialize (Hheap t s Hs). lia.
    + intros s Hin. specialize (Hfreed s (Hf s Hin)). lia.
    + intros s p Hin. apply elem_of_app in Hin as [Hin|Hin].
      * specialize (Hbelow s p Hin). lia.
      * apply elem_of_cons in Hin as [Hin|Hin]; [done|].
        apply list_elem_of_singleton in Hin as [= -> ->]. lia.
    + intros s p Hin Hfail. apply elem_of_app in Hin as [Hin|Hin].
      * destruct (Hlost s p Hin Hfail) as [H1 H2]. split; [done|].
        intros Hin'. by apply H2, Hf.
      * apply elem_of_cons in Hin as [Hin|Hin]; [done|].
        apply list_elem_of_singleton in Hin as [= -> ->]. split.
        -- intros t Hs. specialize (Hheap t _ Hs). lia.
        -- intros Hin'. specialize (Hfreed _ (Hf _ Hin')). lia.
Qed.

Lemma orphans_encrypt (type : string) (content : JsValue)
    (devices : list DeviceIdentity.t) (hsApi : HsApi) :
  preserves (orphans_kept this) (encrypt this type content devices hsApi).
Proof.
  apply preserves_encrypt.
  - by apply orphans_fresh_txn.
  - by apply orphans_fresh_txn.
  - intros ev Hev. apply orphans_log; by destruct ev.
  - intros payload. by apply orphans_log.
  - intros. apply orphans_new.
  - intros. apply orphans_new.
  - apply orphans_dispose.
  - apply orphans_create.
  - apply orphans_load.
Qed.

End Orphans.

(** X12: a native session that [_loadSessions] has made for a stored entry
    and that then fails to unpickle is never freed: when [encrypt] is
    over no target holds it, and [free()] has not been called on it. *)
Theorem failed_unpickle_leaks_the_session (this : Encryption) (type : string)
    (content : JsValue) (devices : list DeviceIdentity.t) (hsApi : HsApi)
    (s : SessionHandle) (pickled : string) :
  EvUnpickle s pickled
    ∈ trace (encrypt this type content devices hsApi empty_world).2 ->
  unpickle_succeeds (_olm this) (_pickleKey this) pickled = false ->
  count_free s (trace (encrypt this type content devices hsApi empty_world).2)
  = 0 /\
  forall target,
    session_of (encrypt this type content devices hsApi empty_world).2 target
    <> Some s.
Proof.
  intros Hin Hfail.
  assert (orphans_kept this empty_world) as H0.
  { split; [apply wf_empty | |]; intros s' p H; by apply elem_of_nil in H. }
  destruct (orphans_encrypt this type content devices hsApi _ H0)
    as [_ _ Hlost].
  destruct (Hlost s pickled Hin Hfail) as [H1 H2].
  split; [by apply count_free_absent | done].
Qed.

Lemma failed_unpickle_leaks_the_session_witness :
  let this := corrupt_encryption (example_storage known_sessions [] 0) in
  let run :=
    encrypt this "m.room_key" example_content [alice_phone] (example_hsApi [])
      empty_world in
  trace run.2 = [EvReadTxn 0; EvReadTxn 1; EvNewSession 0;
                 EvUnpickle 0 "pickled"] /\
  count_free 0 (trace run.2) = 0 /\
  forall target, session_of run.2 target <> Some 0.
Proof.
  split; [reflexivity |].
  apply (failed_unpickle_leaks_the_session
           (corrupt_encryption (example_storage known_sessions [] 0))
           "m.room_key" example_content [alice_phone] (example_hsApi []) 0
           "pickled").
  - vm_compute. do 3 apply list_elem_of_further. apply list_elem_of_here.
  - reflexivity.
Defined.

(** ** [_loadSessions] when every session loads *)

Section Load_answers.

Variable this : Encryption.

Lemma load_callback_answer (target : TargetRef) (o : EncryptionTarget.t)
    (w : World) :
  targets w !! target = Some o ->
  match load_answer this o with
  | Throw err => load_callback this false target w = (Throw err, w)
  | Ok None => load_callback this false target w = (Ok tt, w)
  | Ok (Some entry) =>
      let logged :=
        trace w ++ [EvNewSession (next_session w);
                    EvUnpickle (next_session w) (SessionEntry.session entry)] in
      if unpickle_succeeds (_olm this) (_pickleKey this)
           (SessionEntry.session entry)
      then
        load_callback this false target w
        = (Ok tt,
           {| targets :=
                alter (with_session (next_session w)) target (targets w);
              next_session := S (next_session w); next_txn := next_txn w;
              trace := logged |})
      else
        load_callback this false target w
        = (Throw OlmError,
           {| targets := targets w; next_session := S (next_session w);
              next_txn := next_txn w; trace := logged |})
  end.
Proof.
  intros Ho. unfold load_answer.
  destruct (load_callback_run this false target w)
    as [[r E]|(o'&entry&Ho'&Hget&_&H)].
  - revert E. unfold load_callback, deref. rewrite bind_run, Ho, bind_run.
    unfold lift at 1.
    destruct (olmSessions_get _ _ _) as [[entry|]|err]; [| done | done].
    cbn [negb]. rewrite !bind_run. cbn. unfold unpickle. rewrite !bind_run.
    cbn. destruct (unpickle_succeeds _ _ _); cbn; intros [= _ E];
      apply (f_equal next_session) in E; cbn in E; lia.
  - rewrite Ho in Ho'. injection Ho' as <-. by rewrite Hget.
Qed.

Lemma load_callback_loads (target : TargetRef) (w : World) :
  (load_callback this false target w).1 = Ok tt <-> loads this w target = true.
Proof.
  unfold loads. destruct (targets w !! target) as [o|] eqn:Ho.
  - pose proof (load_callback_answer target o w Ho) as H.
    destruct (load_answer this o) as [[entry|]|err]; cbv zeta in H.
    + destruct (unpickle_succeeds _ _ _); by rewrite H.
    + by rewrite H.
    + by rewrite H.
  - unfold load_callback, deref. rewrite bind_run, Ho. done.
Qed.

(** A callback changes the field [session] at most. *)
Lemma load_callback_fields (failed : bool) (target t : TargetRef) (w : World) :
  targets (load_callback this failed target w).2 !! t
  = targets w !! t \/
  exists o s,
    targets w !! t = Some o /\
    targets (load_callback this failed target w).2 !! t
    = Some (with_session s o).
Proof.
  destruct (load_callback_run this failed target w)
    as [[r ->]|(o&entry&Ho&_&_&H)]; [by left|]. cbv zeta in H.
  destruct (unpickle_succeeds _ _ _); rewrite H; cbn; [| by left].
  destruct (decide (target = t)) as [<-|Hne].
  - right. exists o, (next_session w). by rewrite list_lookup_alter_eq, Ho.
  - left. by rewrite list_lookup_alter_ne.
Qed.

Lemma loads_callback (failed : bool) (target t : TargetRef) (w : World) :
  loads this (load_callback this failed target w).2 t = loads this w t.
Proof.
  unfold loads.
  destruct (load_callback_fields failed target t w) as [->|(o&s&Ho&->)];
    [done|]. by rewrite Ho.
Qed.

Lemma settle_until_rejection_loads (in_flight : list TargetRef) (w : World) :
  (settle_until_rejection this in_flight w).1 = None <->
  Forall (fun t => loads this w t = true) in_flight.
Proof.
  revert w. induction in_flight as [|t rest IH]; intros w; cbn.
  - split; [by constructor | done].
  - pose proof (load_callback_loads t w) as Ht.
    pose proof (fun t' => loads_callback false t t' w) as Hsame.
    destruct (load_callback this false t w) as [[[]|err] w1];
      cbn [fst snd] in *.
    + rewrite IH, Forall_cons. split.
      * intros H. split; [by apply Ht|].
        eapply Forall_impl; [exact H|]. intros t' Ht'. by rewrite <- Hsame.
      * intros [_ H]. eapply Forall_impl; [exact H|].
        intros t' Ht'. by rewrite Hsame.
    + split; [done|]. intros H. apply Forall_cons in H as [H _].
      apply Ht in H. done.
Qed.

Lemma loadSessions_is_Ok (batch : list TargetRef) (w : World) :
  (_loadSessions this batch w).1 = Ok tt <->
  (settle_until_rejection this (load_order (_storage this) batch)
     (readTxn w).2).1 = None.
Proof.
  unfold _loadSessions. cbn [readTxn fresh_txn snd].
  destruct (settle_until_rejection this _ _) as [[[err in_flight]|] w1];
    cbn [fst]; [| done].
  by destruct (for_of batch dispose _) as [[[]|err'] w2].
Qed.

(** What the callbacks have done when all of them have fulfilled. *)
Lemma settle_assigns (in_flight : list TargetRef) (w w' : World) :
  NoDup in_flight ->
  settle_until_rejection this in_flight w = (None, w') ->
  (forall t, t ∉ in_flight -> targets w' !! t = targets w !! t) /\
  forall t o,
    t ∈ in_flight -> targets w !! t = Some o ->
    match load_answer this o with
    | Ok (Some _) => exists s, targets w' !! t = Some (with_session s o)
    | Ok None => targets w' !! t = Some o
    | Throw _ => False
    end.
Proof.
  revert w. induction in_flight as [|t0 rest IH]; intros w Hnodup; cbn.
  - intros [= <-]. split; [done|]. intros t o Hin. by apply elem_of_nil in Hin.
  - apply NoDup_cons in Hnodup as [Hnotin Hnodup].
    destruct (load_callback this false t0 w) as [[[]|err] w1] eqn:Hcb; [| done].
    intros Hrest. destruct (IH w1 Hnodup Hrest) as [Hframe Hassign].
    assert (forall t, t <> t0 -> targets w1 !! t = targets w !! t) as Hother.
    { intros t Hne.
      destruct (load_callback_run this false t0 w)
        as [[r E]|(o&entry&_&_&_&H)].
      - rewrite Hcb in E. by injection E as _ <-.
      - cbv zeta in H. rewrite Hcb in H.
        destruct (unpickle_succeeds _ _ _); [| done].
        injection H as ->. cbn. by rewrite list_lookup_alter_ne. }
    split.
    + intros t Ht. apply not_elem_of_cons in Ht as [Hne Ht].
      by rewrite Hframe, Hother.
    + intros t o Hin Ho. apply elem_of_cons in Hin as [->|Hin].
      * pose proof (load_callback_answer t0 o w Ho) as H.
        rewrite (Hframe t0 Hnotin).
        destruct (load_answer this o) as [[entry|]|err]; cbv zeta in H.
        -- destruct (unpickle_succeeds _ _ _); rewrite Hcb in H; [| done].
           injection H as ->. exists (next_session w). cbn.
           by rewrite list_lookup_alter_eq, Ho.
        -- rewrite Hcb in H. by injection H as ->.
        -- by rewrite Hcb in H.
      * apply (Hassign t o Hin). rewrite Hother; [done|]. by intros ->.
Qed.

End Load_answers.

Lemma loadSessions_resolved (this : Encryption)
    (encryptionTargets : list TargetRef) (w w' : World)
    (target : TargetRef) (o : EncryptionTarget.t) :
  load_order (_storage this) encryptionTargets ≡ₚ encryptionTargets ->
  NoDup encryptionTargets ->
  _loadSessions this encryptionTargets w = (Ok tt, w') ->
  target ∈ encryptionTargets -> targets w !! target = Some o ->
  match load_answer this o with
  | Ok (Some _) => exists s, targets w' !! target = Some (with_session s o)
  | Ok None => targets w' !! target = Some o
  | Throw _ => False
  end.
Proof.
  intros Hperm Hnodup Hrun Hin Ho.
  assert ((_loadSessions this encryptionTargets w).1 = Ok tt) as Hok
    by by rewrite Hrun.
  apply loadSessions_is_Ok in Hok. revert Hrun. unfold _loadSessions.
  cbn [readTxn fresh_txn snd] in *.
  match type of Hok with
  | (settle_until_rejection this ?o ?w1).1 = None =>
      destruct (settle_until_rejection this o w1)
        as [[[err in_flight]|] w2] eqn:Hsettle
  end; [done|]. intros [= <-].
  assert (NoDup (load_order (_storage this) encryptionTargets)) as Hnodup'
    by by rewrite Hperm.
  assert (target ∈ load_order (_storage this) encryptionTargets) as Hin'
    by by rewrite Hperm.
  destruct (settle_assigns this _ _ _ Hnodup' Hsettle) as [_ Hassign].
  by apply Hassign.
Qed.

(** X13: whether [_loadSessions] resolves does not depend on the order in
    which the store answers: it resolves exactly when, for every target,
    the store answers the read and the entry, if there is one, unpickles.
    A missing entry is not a failure. *)
Theorem loadSessions_resolves_iff_all_load (this : Encryption)
    (encryptionTargets : list TargetRef) (w : World) :
  load_order (_storage this) encryptionTargets ≡ₚ encryptionTargets ->
  (_loadSessions this encryptionTargets w).1 = Ok tt <->
  Forall (fun target => loads this w target = true) encryptionTargets.
Proof.
  intros Hperm. rewrite loadSessions_is_Ok, settle_until_rejection_loads.
  by rewrite Hperm.
Qed.

Lemma loadSessions_resolves_iff_all_load_witness :
  let this :=
    example_encryption [] (example_storage known_sessions ["curve-bob"] 0) in
  let found := _findExistingSessions this [alice_phone; bob_laptop] empty_world in
  (_loadSessions this [0; 1] found.2).1 = Ok tt <->
  Forall (fun target => loads this found.2 target = true) [0; 1].
Proof.
  apply (loadSessions_resolves_iff_all_load
           (example_encryption []
              (example_storage known_sessions ["curve-bob"] 0))
           [0; 1]).
  reflexivity.
Defined.

(** X14: when [_loadSessions] resolves for targets that hold no session
    yet, a target whose entry the store has holds a new session
    afterwards, no two targets hold the same session, and a target whose
    entry is missing still has [session = null]. *)
Theorem loadSessions_assigns_the_stored_sessions (this : Encryption)
    (encryptionTargets : list TargetRef) (w w' : World) :
  load_order (_storage this) encryptionTargets ≡ₚ encryptionTargets ->
  NoDup encryptionTargets ->
  (forall target, target ∈ encryptionTargets -> session_of w target = None) ->
  _loadSessions this encryptionTargets w = (Ok tt, w') ->
  (forall target o,
     target ∈ encryptionTargets -> targets w !! target = Some o ->
     match load_answer this o with
     | Ok (Some _) =>
         exists s, session_of w' target = Some s /\
                   next_session w <= s < next_session w'
     | Ok None => session_of w' target = None
     | Throw _ => False
     end) /\
  (forall target target' s,
     target ∈ encryptionTargets -> target' ∈ encryptionTargets ->
     session_of w' target = Some s -> session_of w' target' = Some s ->
     target = target').
Proof.
  intros Hperm Hnodup Hnone Hrun.
  assert (loading encryptionTargets w w') as Hloading.
  { assert ((_loadSessions this encryptionTargets w).1 = Ok tt) as Hok
      by by rewrite Hrun.
    apply loadSessions_is_Ok in Hok. revert Hrun. unfold _loadSessions.
    cbn [readTxn fresh_txn snd] in *.
    match type of Hok with
    | (settle_until_rejection this ?o ?w1).1 = None =>
        destruct (settle_until_rejection this o w1)
          as [[[err in_flight]|] w2] eqn:Hsettle
    end; [done|]. intros [= <-].
    assert (load_order (_storage this) encryptionTargets ⊆ encryptionTargets)
      as Hsub.
    { intros t Ht. by rewrite <- Hperm. }
    by destruct (loading_until_rejection this encryptionTargets _ w _ _ _ Hsub
                   (loading_start encryptionTargets w Hnone) Hsettle). }
  split.
  - intros target o Hin Ho.
    pose proof (loadSessions_resolved this encryptionTargets w w' target o
                  Hperm Hnodup Hrun Hin Ho) as Hassign.
    destruct (load_answer this o) as [[entry|]|err]; [| | done].
    + destruct Hassign as [s Hs]. exists s.
      assert (session_of w' target = Some s) as Hheld.
      { unfold session_of. by rewrite Hs. }
      split; [done|]. by apply (loading_sessions _ _ _ Hloading target).
    + unfold session_of. rewrite Hassign. cbn.
      specialize (Hnone target Hin). unfold session_of in Hnone.
      by rewrite Ho in Hnone.
  - intros target target' s Hin Hin'.
    by apply (loading_distinct _ _ _ Hloading).
Qed.

Lemma loadSessions_assigns_the_stored_sessions_witness :
  let this :=
    example_encryption [] (forgetful_storage known_sessions ["curve-bob"]) in
  let found := _findExistingSessions this [alice_phone; bob_laptop] empty_world in
  let loaded := _loadSessions this [0; 1] found.2 in
  loaded.1 = Ok tt /\
  (forall target o,
     target ∈ [0; 1] -> targets found.2 !! target = Some o ->
     match load_answer this o with
     | Ok (Some _) =>
         exists s, session_of loaded.2 target = Some s /\
                   next_session found.2 <= s < next_session loaded.2
     | Ok None => session_of loaded.2 target = None
     | Throw _ => False
     end) /\
  (forall target target' s,
     target ∈ [0; 1] -> target' ∈ [0; 1] ->
     session_of loaded.2 target = Some s ->
     session_of loaded.2 target' = Some s -> target = target').
Proof.
  split; [reflexivity |].
  apply (loadSessions_assigns_the_stored_sessions
           (example_encryption []
              (forgetful_storage known_sessions ["curve-bob"]))
           [0; 1]).
  - reflexivity.
  - apply (bool_decide_unpack _). vm_compute. exact I.
  - intros target Hin.
    apply elem_of_cons in Hin as [->|Hin]; [reflexivity |].
    apply list_elem_of_singleton in Hin as ->. reflexivity.
  - reflexivity.
Defined.

(** X15: a session id that the store lists while it has no entry for it
    goes unnoticed by [_loadSessions], which resolves and leaves the
    target without a session; [_encryptForDevice] then throws a
    [TypeError] for that target, before it calls olm. *)
Theorem missing_entry_makes_encryptForDevice_throw (this : Encryption)
    (type : string) (content : JsValue) (encryptionTargets : list TargetRef)
    (w w' : World) (target : TargetRef) (o : EncryptionTarget.t) :
  load_order (_storage this) encryptionTargets ≡ₚ encryptionTargets ->
  NoDup encryptionTargets ->
  _loadSessions this encryptionTargets w = (Ok tt, w') ->
  target ∈ encryptionTargets -> targets w !! target = Some o ->
  EncryptionTarget.session o = None ->
  load_answer this o = Ok None ->
  _encryptForDevice this type content target w' = (Throw TypeError, w').
Proof.
  intros Hperm Hnodup Hrun Hin Ho Hnone Hanswer.
  pose proof (loadSessions_resolved this encryptionTargets w w' target o
                Hperm Hnodup Hrun Hin Ho) as H.
  rewrite Hanswer in H.
  unfold _encryptForDevice, deref. rewrite bind_run, H. cbv zeta.
  by rewrite bind_run, Hnone.
Qed.

Lemma missing_entry_makes_encryptForDevice_throw_witness :
  let this :=
    example_encryption [] (forgetful_storage known_sessions ["curve-bob"]) in
  let found := _findExistingSessions this [alice_phone; bob_laptop] empty_world in
  let loaded := _loadSessions this [0; 1] found.2 in
  loaded.1 = Ok tt /\
  _encryptForDevice this "m.room_key" example_content 1 loaded.2
  = (Throw TypeError, loaded.2).
Proof.
  split; [reflexivity |].
  apply (missing_entry_makes_encryptForDevice_throw
           (example_encryption []
              (forgetful_storage known_sessions ["curve-bob"]))
           "m.room_key" example_content [0; 1]
           (_findExistingSessions
              (example_encryption []
                 (forgetful_storage known_sessions ["curve-bob"]))
              [alice_phone; bob_laptop] empty_world).2
           _ 1
           (EncryptionTarget.mk bob_laptop None (Some "s1") None)).
  - reflexivity.
  - apply (bool_decide_unpack _). vm_compute. exact I.
  - reflexivity.
  - apply list_elem_of_further, list_elem_of_here.
  - reflexivity.
  - reflexivity.
  - reflexivity.
Defined.

(** ** When the verification of a claim response throws *)

Lemma for_of_pushing_throws {A S : Type} (xs : list A) (body : A -> S -> M S)
    (bad : A -> Prop) :
  (forall x acc w, (exists err, (body x acc w).1 = Throw err) <-> bad x) ->
  forall acc w,
    (exists err, (for_of_pushing xs body acc w).1 = Throw err) <->
    Exists bad xs.
Proof.
  intros Hbody. induction xs as [|x xs IH]; intros acc w; cbn [for_of_pushing].
  - split; [by intros [err H] | by intros H; apply Exists_nil in H].
  - rewrite bind_run, Exists_cons. pose proof (Hbody x acc w) as Hx.
    destruct (body x acc w) as [[acc'|err] w'] eqn:Hrun; cbn [fst] in Hx.
    + rewrite IH. split; [by right|]. intros [Hbad|H]; [| done].
      apply Hx in Hbad as [err Herr]. done.
    + split; [intros _; left; apply Hx| intros _]; by exists err.
Qed.

Lemma for_of_pushing_error {A S : Type} (xs : list A) (body : A -> S -> M S)
    (e : JsError) :
  (forall x acc w err, (body x acc w).1 = Throw err -> err = e) ->
  forall acc w err, (for_of_pushing xs body acc w).1 = Throw err -> err = e.
Proof.
  intros Hbody. induction xs as [|x xs IH]; intros acc w err;
    cbn [for_of_pushing]; [done|].
  rewrite bind_run. pose proof (Hbody x acc w) as Hx.
  destruct (body x acc w) as [[acc'|err'] w']; cbn [fst] in *.
  - apply IH.
  - intros [= <-]. by apply Hx.
Qed.

Section Verify_throws.

Variable this : Encryption.
Variable devicesByUser : list (string * list (string * DeviceIdentity.t)).

Lemma verify_device_section_throws (userId deviceId : string)
    (deviceSection : DeviceSection) (acc : list TargetRef) (w : World) :
  ((exists err,
      (verify_device_section this devicesByUser userId deviceId deviceSection
         acc w).1 = Throw err) <-> deviceSection = []) /\
  forall err,
    (verify_device_section this devicesByUser userId deviceId deviceSection
       acc w).1 = Throw err -> err = TypeError.
Proof.
  destruct deviceSection as [|[firstPropName keySection] rest].
  - split; [split; [done | by exists TypeError] | by intros err [= <-]].
  - assert (exists ts w',
              verify_device_section this devicesByUser userId deviceId
                ((firstPropName, keySection) :: rest) acc w = (Ok ts, w'))
      as (ts & w' & E).
    { unfold verify_device_section. repeat case_match; by do 2 eexists. }
    rewrite E. cbn [fst].
    split; [split; [by intros [err H] | done] | done].
Qed.

Lemma user_section_throws (userId : string) (userSection : UserSection)
    (acc : list TargetRef) (w : World) :
  ((exists err,
      (for_of_pushing userSection
         (fun '(deviceId, deviceSection) =>
            verify_device_section this devicesByUser userId deviceId
              deviceSection) acc w).1 = Throw err) <->
   Exists (fun entry => entry.2 = []) userSection) /\
  forall err,
    (for_of_pushing userSection
       (fun '(deviceId, deviceSection) =>
          verify_device_section this devicesByUser userId deviceId
            deviceSection) acc w).1 = Throw err -> err = TypeError.
Proof.
  split.
  - apply for_of_pushing_throws. intros [deviceId deviceSection] acc' w'.
    apply verify_device_section_throws.
  - revert acc w. apply for_of_pushing_error.
    intros [deviceId deviceSection] acc' w'.
    apply verify_device_section_throws.
Qed.

End Verify_throws.

Lemma verify_returns (this : Encryption) (entries : UserKeyMap)
    (devicesByUser : list (string * list (string * DeviceIdentity.t)))
    (w : World) :
  Forall (fun entry => Forall (fun section => section.2 <> []) entry.2)
    entries ->
  exists ts,
    (_verifyAndCreateOTKTargets this (Some entries) devicesByUser w).1 = Ok ts.
Proof.
  intros Hfull. unfold _verifyAndCreateOTKTargets.
  match goal with
  | |- exists ts, ?run.1 = Ok ts => destruct run.1 as [ts|err] eqn:Hrun
  end; [by exists ts | exfalso].
  assert (exists err', (for_of_pushing entries
            (fun '(userId, userSection) =>
               for_of_pushing userSection
                 (fun '(deviceId, deviceSection) =>
                    verify_device_section this devicesByUser userId deviceId
                      deviceSection)) [] w).1 = Throw err') as Hbad
    by by exists err.
  revert Hbad.
  rewrite (for_of_pushing_throws entries _
             (fun entry => Exists (fun section => section.2 = []) entry.2)).
  2:{ intros [userId userSection] acc' w'.
      apply (user_section_throws this devicesByUser). }
  intros Hbad.
  apply Exists_exists in Hbad as (entry & Hin & Hex).
  apply Exists_exists in Hex as (section & Hin' & Hnil).
  pose proof (proj1 (Forall_forall _ _) Hfull _ Hin) as Hentry.
  by pose proof (proj1 (Forall_forall _ _) Hentry _ Hin').
Qed.

(** X16: [_verifyAndCreateOTKTargets] throws exactly when the response
    has no [one_time_keys] at all or holds, for some device, a section
    without a property; what it throws is a [TypeError].  A key that fails
    its checks never makes it throw. *)
Theorem verifyAndCreateOTKTargets_throws_iff (this : Encryption)
    (userKeyMap : option UserKeyMap)
    (devicesByUser : list (string * list (string * DeviceIdentity.t)))
    (w : World) :
  ((exists err,
      (_verifyAndCreateOTKTargets this userKeyMap devicesByUser w).1
      = Throw err) <->
   (userKeyMap = None \/
    exists entries userId userSection deviceId,
      userKeyMap = Some entries /\ (userId, userSection) ∈ entries /\
      (deviceId, []) ∈ userSection)) /\
  forall err,
    (_verifyAndCreateOTKTargets this userKeyMap devicesByUser w).1 = Throw err ->
    err = TypeError.
Proof.
  unfold _verifyAndCreateOTKTargets. destruct userKeyMap as [entries|].
  2:{ split; [split; [by left | by exists TypeError] | by intros err [= <-]]. }
  split.
  - rewrite (for_of_pushing_throws entries _
               (fun entry => Exists (fun section => section.2 = []) entry.2)).
    2:{ intros [userId userSection] acc' w'.
        apply (user_section_throws this devicesByUser). }
    rewrite Exists_exists. split.
    + intros ([userId userSection] & Hin & Hex). right.
      apply Exists_exists in Hex as ([deviceId deviceSection] & Hin' & Hnil).
      cbn in Hnil. subst deviceSection.
      by exists entries, userId, userSection, deviceId.
    + intros [H|(entries' & userId & userSection & deviceId & [= <-] & Hin & Hin')];
        [done|].
      exists (userId, userSection). split; [done|].
      apply Exists_exists. by exists (deviceId, []).
  - apply for_of_pushing_error. intros [userId userSection] acc' w'.
    apply (user_section_throws this devicesByUser).
Qed.

(** ** A key that passes its checks *)

Section Verified_key.

Variable this : Encryption.
Variable devicesByUser : list (string * list (string * DeviceIdentity.t)).
Variables (userId deviceId keyId : string).
Variable keySection : KeySection.t.
Variable rest : DeviceSection.
Variable device : DeviceIdentity.t.

Hypothesis requested : lookup_device devicesByUser userId deviceId = Some device.
Hypothesis signed :
  verifyEd25519Signature (_olmUtil this) userId deviceId
    (DeviceIdentity.ed25519Key device) keySection = true.

Lemma verify_device_section_accepts (acc : list TargetRef) (w : World) :
  verify_device_section this devicesByUser userId deviceId
    ((OTK_ALGORITHM +:+ ":" +:+ keyId, keySection) :: rest) acc w
  = (Ok (acc ++ [length (targets w)]),
     alloc [EncryptionTarget.mk device (Some (KeySection.key keySection))
              None None] w).
Proof using requested signed.
  unfold verify_device_section.
  change (before_colon (OTK_ALGORITHM +:+ ":" +:+ keyId)) with OTK_ALGORITHM.
  cbn [String.eqb OTK_ALGORITHM]. unfold lookup_device in requested.
  change (String.eqb "signed_curve25519" "signed_curve25519") with true.
  cbv iota. rewrite requested, signed. done.
Qed.

Lemma user_section_accepts (userSection : UserSection)
    (acc ts : list TargetRef) (w w' : World) :
  (deviceId, (OTK_ALGORITHM +:+ ":" +:+ keyId, keySection) :: rest)
    ∈ userSection ->
  for_of_pushing userSection
    (fun '(deviceId, deviceSection) =>
       verify_device_section this devicesByUser userId deviceId
         deviceSection) acc w = (Ok ts, w') ->
  exists target,
    target ∈ ts /\ length (targets w) <= target /\
    targets w' !! target
    = Some (EncryptionTarget.mk device (Some (KeySection.key keySection))
              None None).
Proof using requested signed.
  intros Hin. apply list_elem_of_split in Hin as (before & after & ->).
  rewrite for_of_pushing_app, bind_run.
  destruct (user_section_spec this devicesByUser userId before acc w)
    as (objs1 & Hw1 & _ & Hts1). cbv zeta in Hw1, Hts1.
  revert Hw1 Hts1.
  destruct (for_of_pushing _ _ _ _) as [[acc1|err] w1]; [| done].
  intros Hw1 Hts1. cbn [fst snd] in *. subst w1. cbn [for_of_pushing]. rewrite bind_run.
  rewrite verify_device_section_accepts.
  match goal with
  | |- for_of_pushing after ?body ?acc2 ?w2 = _ -> _ =>
      destruct (user_section_spec this devicesByUser userId after acc2 w2)
        as (objs2 & Hw2 & _ & Hts2); cbv zeta in Hw2, Hts2
  end.
  intros Hrun. rewrite Hrun in Hw2, Hts2. cbn [fst snd] in *.
  rewrite (Hts2 _ eq_refl), Hw2.
  exists (length (targets w ++ objs1)). split; [|split].
  - apply elem_of_app. left. apply elem_of_app. right.
    apply list_elem_of_singleton. done.
  - rewrite length_app. lia.
  - cbn. rewrite <- !app_assoc. rewrite (app_assoc (targets w)).
    rewrite lookup_app_r by done. by rewrite Nat.sub_diag.
Qed.

End Verified_key.

(** X17: a key that passes its checks gives a target.  Let no device
    section of the response be empty, and let the section of a device start
    with a property named [signed_curve25519:<key id>], for any key id,
    whose signature checks against the key of the requested device with
    that user and device id.  Then [_verifyAndCreateOTKTargets] returns,
    and among the targets it returns is a new one for that device with the
    claimed key as its one-time key and no session yet. *)
Theorem verified_key_gives_a_target (this : Encryption)
    (devicesByUser : list (string * list (string * DeviceIdentity.t)))
    (entries : UserKeyMap) (userId deviceId keyId : string)
    (userSection : UserSection) (keySection : KeySection.t)
    (rest : DeviceSection) (device : DeviceIdentity.t) (w : World) :
  Forall (fun entry => Forall (fun section => section.2 <> []) entry.2)
    entries ->
  (userId, userSection) ∈ entries ->
  (deviceId, (OTK_ALGORITHM +:+ ":" +:+ keyId, keySection) :: rest)
    ∈ userSection ->
  lookup_device devicesByUser userId deviceId = Some device ->
  verifyEd25519Signature (_olmUtil this) userId deviceId
    (DeviceIdentity.ed25519Key device) keySection = true ->
  exists ts target,
    (_verifyAndCreateOTKTargets this (Some entries) devicesByUser w).1 = Ok ts /\
    target ∈ ts /\ length (targets w) <= target /\
    targets (_verifyAndCreateOTKTargets this (Some entries) devicesByUser w).2
      !! target
    = Some (EncryptionTarget.mk device (Some (KeySection.key keySection))
              None None).
Proof.
  intros Hfull Hin Hin' Hdevice Hsigned.
  destruct (_verifyAndCreateOTKTargets this (Some entries) devicesByUser w)
    as [[ts|err] w'] eqn:Hrun.
  2:{ destruct (verify_returns this entries devicesByUser w Hfull)
        as [ts Hts].
      rewrite Hrun in Hts. done. }
  exists ts. cbn [fst snd]. revert Hrun. unfold _verifyAndCreateOTKTargets.
  apply list_elem_of_split in Hin as (before & after & ->).
  rewrite for_of_pushing_app, bind_run.
  destruct (user_key_map_spec this devicesByUser before [] w)
    as (objs1 & Hw1 & _ & Hts1). cbv zeta in Hw1, Hts1.
  revert Hw1 Hts1.
  destruct (for_of_pushing _ _ _ _) as [[acc1|err] w1]; [| done].
  intros Hw1 Hts1. cbn [fst snd] in *. subst w1. cbn [for_of_pushing]. rewrite bind_run.
  match goal with
  | |- context [for_of_pushing userSection ?body acc1 ?w1] =>
      destruct (for_of_pushing userSection body acc1 w1)
        as [[acc2|err] w2] eqn:Hsection; [| done];
      destruct (user_section_accepts this devicesByUser userId deviceId keyId
                  keySection rest device Hdevice Hsigned userSection acc1 acc2
                  w1 w2 Hin' Hsection) as (target & Htarget & Hnew & Hlookup);
      destruct (user_section_spec this devicesByUser userId userSection acc1 w1)
        as (objs2 & Hw2 & _ & _); cbv zeta in Hw2; rewrite Hsection in Hw2;
      cbn [snd] in Hw2
  end.
  destruct (user_key_map_spec this devicesByUser after acc2 w2)
    as (objs3 & Hw3 & _ & Hts3). cbv zeta in Hw3, Hts3.
  intros Hrun. rewrite Hrun in Hw3, Hts3. cbn [fst snd] in *.
  exists target. rewrite (Hts3 _ eq_refl), Hw3. split; [done|]. split; [|split].
  - apply elem_of_app. by left.
  - cbn in Hnew. rewrite length_app in Hnew. lia.
  - cbn. rewrite lookup_app_l; [done|]. by apply lookup_lt_is_Some.
Qed.

Lemma verified_key_gives_a_target_witness :
  let this := example_encryption [] (example_storage [] [] 0) in
  let run :=
    _verifyAndCreateOTKTargets this
      (Some [("@carol:example.org",
              [claimed_key "signed_curve25519" carol_tablet])])
      (devicesByUser_of [carol_tablet]) empty_world in
  exists ts target,
    run.1 = Ok ts /\ target ∈ ts /\ length (targets empty_world) <= target /\
    targets run.2 !! target
    = Some (EncryptionTarget.mk carol_tablet (Some "otk-CAROLTABLET")
              None None).
Proof.
  apply (verified_key_gives_a_target
           (example_encryption [] (example_storage [] [] 0))
           (devicesByUser_of [carol_tablet])
           [("@carol:example.org",
             [claimed_key "signed_curve25519" carol_tablet])]
           "@carol:example.org" "CAROLTABLET" "AAAAAQ"
           [claimed_key "signed_curve25519" carol_tablet]
           (KeySection.mk "otk-CAROLTABLET"
              [("@carol:example.org",
                [("ed25519:CAROLTABLET", "ed-carol")])])
           [] carol_tablet empty_world).
  - repeat constructor; discriminate.
  - apply list_elem_of_here.
  - apply list_elem_of_here.
  - reflexivity.
  - reflexivity.
Defined.

(** ** Devices that share their ids *)

Lemma lookup_device_step
    (map : list (string * list (string * DeviceIdentity.t)))
    (device : DeviceIdentity.t) (u d : string) :
  lookup_device
    (obj_set (DeviceIdentity.userId device)
       (obj_set (DeviceIdentity.deviceId device) device
          (default [] (obj_get (DeviceIdentity.userId device) map)))
       map) u d
  = if same_ids u d device then Some device else lookup_device map u d.
Proof.
  unfold lookup_device, same_ids. rewrite obj_get_set, (String.eqb_sym u).
  destruct (String.eqb (DeviceIdentity.userId device) u) eqn:Hu;
    cbn [mbind option_bind andb]; [| done].
  apply String.eqb_eq in Hu. subst u. rewrite obj_get_set, (String.eqb_sym d).
  destruct (String.eqb (DeviceIdentity.deviceId device) d); [done|].
  by destruct (obj_get (DeviceIdentity.userId device) map).
Qed.

(** X18: when several of the devices handed to [_claimOneTimeKeys] have
    the same user id and device id, the map it builds keeps the last of
    them: that is the device whose key the signature is checked against,
    and the device of the target. *)
Theorem devicesByUser_keeps_the_last_device
    (deviceIdentities : list DeviceIdentity.t) (userId deviceId : string) :
  lookup_device (devicesByUser_of deviceIdentities) userId deviceId
  = last (List.filter (same_ids userId deviceId) deviceIdentities).
Proof.
  unfold devicesByUser_of, groupByWithCreator.
  enough (forall l map,
            lookup_device
              (fold_left
                 (fun map value =>
                    let key := DeviceIdentity.userId value in
                    let collection := default [] (obj_get key map) in
                    obj_set key
                      (obj_set (DeviceIdentity.deviceId value) value collection)
                      map) l map) userId deviceId
            = match last (List.filter (same_ids userId deviceId) l) with
              | Some device => Some device
              | None => lookup_device map userId deviceId
              end) as H.
  { rewrite H. by destruct (last _). }
  induction l as [|device l IH]; intros map; cbn [fold_left List.filter];
    [done|].
  rewrite IH, lookup_device_step.
  destruct (same_ids userId deviceId device); [| done].
  rewrite last_cons. by destruct (last _).
Qed.

(** ** The text of the tile of an encrypted event *)

(** X19: the tile of an encrypted event always has a text to show, as long
    as the translation of a text that is not empty is not empty: a
    decryption error without a message, or with the empty message, gets the
    text for an unknown reason. *)
Theorem text_is_never_empty (i18n : string -> string) (_entry : EventEntry.t) :
  (forall s, s <> "" -> i18n s <> "") ->
  EncryptedEventTile.text i18n _entry <> "".
Proof.
  intros Hi18n. unfold EncryptedEventTile.text.
  destruct (bool_decide _); [by apply Hi18n|].
  destruct (EventEntry.decryptionError _entry ≫= DecryptionError.message)
    as [message|]; [| by apply Hi18n].
  destruct (String.eqb message "") eqn:Hm; [by apply Hi18n|].
  by apply String.eqb_neq.
Qed.

Lemma text_is_never_empty_witness :
  EncryptedEventTile.text (fun s => s)
    (EventEntry.mk "m.room.encrypted"
       (Some (DecryptionError.mk (Some "MEGOLM_UNKNOWN") (Some ""))))
  <> "".
Proof.
  apply (text_is_never_empty (fun s => s)). intros s Hs. exact Hs.
Defined.

(** ** Write transactions are ended *)

(** A step that opens no write transaction. *)
Lemma write_txns_ended_quiet {A : Type} (m : M A) :
  (forall log,
     preserves (emitted (fun ev => is_readWriteTxn ev = false) log) m) ->
  preserves write_txns_ended m.
Proof.
  intros Hm w Hw txn Hin.
  destruct (Hm (trace w) w (emitted_start _ w)) as (evs & E & Hevs).
  rewrite E in *. apply elem_of_app in Hin as [Hin|Hin].
  - destruct (Hw txn Hin); [left | right]; apply elem_of_app; by left.
  - by pose proof (proj1 (Forall_forall _ _) Hevs _ Hin).
Qed.

Section Write_txns.

Variable this : Encryption.

Lemma write_txns_ended_txn (txn0 : TxnId) (sets : list Event)
    (closing : Event) (w w' : World) :
  trace w' = trace w ++ EvReadWriteTxn txn0 :: sets ++ [closing] ->
  Forall (fun ev => exists owner sessionEntry,
            ev = EvSet txn0 owner sessionEntry) sets ->
  closing = EvAbort txn0 \/ closing = EvComplete txn0 ->
  write_txns_ended w -> write_txns_ended w'.
Proof.
  intros E Hsets Hclosing Hw txn. rewrite E.
  rewrite !elem_of_app, !elem_of_cons, !elem_of_app, !list_elem_of_singleton.
  intros [Hin|[[= ->]|[Hin|Hin]]].
  - destruct (Hw txn Hin); [by left; left | by right; left].
  - destruct Hclosing as [->| ->]; [left | right]; right; right; by right.
  - by destruct (proj1 (Forall_forall _ _) Hsets _ Hin) as (? & ? & [=]).
  - by destruct Hclosing as [->| ->].
Qed.

Lemma write_txns_ended_prefix (encryptionTargets : list TargetRef)
    (timestamp : Z) :
  preserves write_txns_ended
    (_storeSessions_prefix this encryptionTargets timestamp).
Proof.
  intros w Hw.
  destruct (storeSessions_prefix_run this timestamp encryptionTargets w)
    as (sets & Hsets & [[_ [err ->]]|[_ ->]]); cbn [snd];
    (eapply write_txns_ended_txn; [done | | | exact Hw]);
    [| by left | | by right];
    (eapply Forall_impl; [exact Hsets|]);
    intros ev (owner & sessionEntry & _ & ->); by do 2 eexists.
Qed.

Lemma write_txns_ended_storeSessions (encryptionTargets : list TargetRef)
    (timestamp : Z) :
  preserves write_txns_ended (_storeSessions this encryptionTargets timestamp).
Proof.
  unfold _storeSessions.
  apply preserves_bind; [apply write_txns_ended_prefix | intros txn].
  unfold await_complete. case_match; [| apply preserves_throw].
  apply write_txns_ended_quiet. intros log. by apply emitted_log.
Qed.

Lemma write_txns_ended_findExistingSessions (devices : list DeviceIdentity.t) :
  preserves write_txns_ended (_findExistingSessions this devices).
Proof.
  apply write_txns_ended_quiet. intros log.
  apply preserves_findExistingSessions.
  - by apply emitted_fresh_txn.
  - intros. apply emitted_new.
Qed.

Lemma write_txns_ended_loadSessions (encryptionTargets : list TargetRef) :
  preserves write_txns_ended (_loadSessions this encryptionTargets).
Proof.
  apply write_txns_ended_quiet. intros log. apply preserves_loadSessions.
  - by apply emitted_fresh_txn.
  - intros. by apply emitted_dispose.
  - intros. apply emitted_load. intros ev Hev. by destruct ev.
Qed.

Lemma write_txns_ended_dispose (target : TargetRef) :
  preserves write_txns_ended (dispose target).
Proof.
  apply write_txns_ended_quiet. intros log. by apply emitted_dispose.
Qed.

Lemma write_txns_ended_create_step
    (devicesWithoutSession : list DeviceIdentity.t) (hsApi : HsApi)
    (timestamp : Z) :
  preserves write_txns_ended
    (create_step this devicesWithoutSession hsApi timestamp).
Proof.
  intros w Hw. unfold create_step. destruct (negb _); [| done].
  rewrite createNewSessions_run.
  assert (preserves write_txns_ended
            (_claimOneTimeKeys this hsApi devicesWithoutSession)) as Hclaim.
  { apply write_txns_ended_quiet. intros log.
    apply preserves_claimOneTimeKeys.
    - intros. by apply emitted_log.
    - intros. apply emitted_new. }
  specialize (Hclaim w Hw).
  destruct (_claimOneTimeKeys this hsApi devicesWithoutSession w)
    as [[ts|err] w1]; cbn [snd] in *; [| done].
  revert w1 Hclaim. apply preserves_try_catch.
  - apply preserves_bind.
    + apply preserves_for_of. intros target.
      apply write_txns_ended_quiet. intros log. by apply emitted_create.
    + intros _. apply preserves_unawaited, write_txns_ended_prefix.
  - intros err. apply preserves_for_of, write_txns_ended_dispose.
Qed.

End Write_txns.

(** X20: [encrypt] leaves no write transaction open: every read-write
    transaction that a call opens, the one of the write that is not
    awaited included, is ended by [abort()] or by [complete()] before the
    call is over, whether it returns or throws. *)
Theorem encrypt_ends_its_write_transactions (this : Encryption)
    (type : string) (content : JsValue) (devices : list DeviceIdentity.t)
    (hsApi : HsApi) (w : World) :
  write_txns_ended w ->
  write_txns_ended (encrypt this type content devices hsApi w).2.
Proof.
  intros Hw.
  pose proof
    (encrypt_phases this write_txns_ended (fun _ => write_txns_ended)
       (write_txns_ended_findExistingSessions this)
       (write_txns_ended_create_step this)
       (fun _ => write_txns_ended_loadSessions this)
       (fun _ => write_txns_ended_storeSessions this)
       (fun _ => write_txns_ended_dispose)
       type content devices hsApi w Hw) as H.
  by destruct (_findExistingSessions this devices w).1 as [[dws ex]|err].
Qed.

Lemma encrypt_ends_its_write_transactions_witness :
  write_txns_ended empty_world /\
  write_txns_ended
    (encrypt (example_encryption ["curve-bob"] (example_storage [] [] 0))
       "m.room_key" example_content [alice_phone; bob_laptop]
       (example_hsApi
          [("@alice:example.org", [claimed_key "signed_curve25519" alice_phone]);
           ("@bob:example.org", [claimed_key "signed_curve25519" bob_laptop])])
       empty_world).2.
Proof.
  assert (write_txns_ended empty_world) as H0.
  { intros txn Hin. by apply elem_of_nil in Hin. }
  split; [exact H0 |].
  apply encrypt_ends_its_write_transactions. exact H0.
Defined.

(** ** The content of the message, and the targets it would go to *)

(** X21: [encrypt] never looks at the type and the content of the message:
    two calls that differ in them only have the same outcome and the same
    effects. *)
Theorem encrypt_ignores_type_and_content (this : Encryption)
    (type type' : string) (content content' : JsValue)
    (devices : list DeviceIdentity.t) (hsApi : HsApi) (w : World) :
  encrypt this type content devices hsApi w
  = encrypt this type' content' devices hsApi w.
Proof. by rewrite !encrypt_run. Qed.

(** X22: when [encrypt] has a target to encrypt for, after the sessions
    were created and loaded, it throws a [ReferenceError]: the callback of
    [encryptionTargets.map] reads its own [const content] before the
    declaration has been evaluated. *)
Theorem encrypt_throws_with_a_target (this : Encryption) (type : string)
    (content : JsValue) (devices devicesWithoutSession : list DeviceIdentity.t)
    (existingEncryptionTargets newEncryptionTargets : list TargetRef)
    (hsApi : HsApi) (w w1 w2 w3 : World) :
  _findExistingSessions this devices w
    = (Ok (devicesWithoutSession, existingEncryptionTargets), w1) ->
  create_step this devicesWithoutSession hsApi (_now this) w1
    = (Ok newEncryptionTargets, w2) ->
  _loadSessions this existingEncryptionTargets w2 = (Ok tt, w3) ->
  newEncryptionTargets ++ existingEncryptionTargets <> [] ->
  (encrypt this type content devices hsApi w).1 = Throw ReferenceError.
Proof.
  intros Hfind Hstep Hload Hne. rewrite encrypt_run, Hfind, Hstep, Hload.
  destruct (findExistingSessions_spec this _ _ _ _ _ Hfind)
    as (Hw1 & _ & Hexisting & _).
  destruct (create_step_heap _ _ _ _ _ _ _ Hstep) as [Hnew Hlen2].
  pose proof (heap_length_loadSessions this _ existingEncryptionTargets w2
                eq_refl) as Hlen3.
  rewrite Hload in Hlen3. cbn [snd] in Hlen3.
  assert (Forall (fun t => t < length (targets w3))
            (newEncryptionTargets ++ existingEncryptionTargets)) as Hvalid.
  { rewrite Hlen3, Hlen2, Hw1. cbn. rewrite length_app.
    apply Forall_app. split; apply Forall_forall; intros t Ht.
    - rewrite Hnew, Hw1 in Ht. cbn in Ht. rewrite length_app in Ht.
      apply elem_of_seq in Ht. lia.
    - rewrite Hexisting in Ht. apply elem_of_seq in Ht. lia. }
  destruct (newEncryptionTargets ++ existingEncryptionTargets) as [|t ts];
    [done|].
  unfold finally_dispose. by rewrite dispose_all_run.
Qed.

Lemma encrypt_throws_with_a_target_witness :
  let this := example_encryption [] (example_storage known_sessions [] 0) in
  let found := _findExistingSessions this [alice_phone; carol_tablet] empty_world in
  let hsApi :=
    example_hsApi
      [("@carol:example.org", [claimed_key "signed_curve25519" carol_tablet])] in
  let created := create_step this [carol_tablet] hsApi (_now this) found.2 in
  created.1 = Ok [1] /\
  (encrypt this "m.room_key" example_content [alice_phone; carol_tablet]
     hsApi empty_world).1 = Throw ReferenceError.
Proof.
  split; [vm_compute; reflexivity |].
  set (this := example_encryption [] (example_storage known_sessions [] 0)).
  set (hsApi :=
         example_hsApi
           [("@carol:example.org",
             [claimed_key "signed_curve25519" carol_tablet])]).
  set (found :=
         _findExistingSessions this [alice_phone; carol_tablet] empty_world).
  set (created := create_step this [carol_tablet] hsApi (_now this) found.2).
  apply (encrypt_throws_with_a_target this "m.room_key" example_content
           [alice_phone; carol_tablet] [carol_tablet] [0] [1] hsApi
           empty_world found.2 created.2
           (_loadSessions this [0] created.2).2).
  - vm_compute. reflexivity.
  - vm_compute. reflexivity.
  - vm_compute. reflexivity.
  - discriminate.
Defined.

(** ** Disposing of a target more than once *)

Lemma frees_replicate (heap : list EncryptionTarget.t) (target : TargetRef)
    (s : SessionHandle) (n : nat) :
  heap !! target ≫= EncryptionTarget.session = Some s ->
  frees heap (replicate n target) = replicate n (EvFree s).
Proof.
  intros Hs. induction n as [|n IH]; [done|].
  cbn [replicate]. unfold frees in *. cbn [omap list_omap].
  by rewrite Hs, IH.
Qed.

Lemma count_free_replicate (s : SessionHandle) (n : nat) :
  count_free s (replicate n (EvFree s)) = n.
Proof.
  induction n as [|n IH]; [done|].
  unfold count_free in *. cbn. rewrite Nat.eqb_refl. cbn. by rewrite IH.
Qed.

(** X23: [dispose] does not clear the field [session]: a target that
    holds a session still holds it after [dispose], and every further call
    of [dispose] calls [free()] on that session again. *)
Theorem dispose_frees_on_every_call (target : TargetRef) (s : SessionHandle)
    (n : nat) (w : World) :
  session_of w target = Some s ->
  (for_of (replicate n target) dispose w).1 = Ok tt /\
  session_of (for_of (replicate n target) dispose w).2 target = Some s /\
  count_free s (trace (for_of (replicate n target) dispose w).2)
  = count_free s (trace w) + n.
Proof.
  intros Hs. rewrite dispose_all_run.
  2:{ apply Forall_replicate. by apply (session_of_valid _ _ s). }
  cbn [fst snd add_events trace]. split; [done|]. split; [done|].
  by rewrite count_free_app, (frees_replicate _ _ s), count_free_replicate.
Qed.

Lemma dispose_frees_on_every_call_witness :
  let w :=
    {| targets := [EncryptionTarget.mk alice_phone None (Some "s1") (Some 0)];
       next_session := 1; next_txn := 0; trace := [] |} in
  session_of w 0 = Some 0 /\
  (for_of (replicate 2 0) dispose w).1 = Ok tt /\
  session_of (for_of (replicate 2 0) dispose w).2 0 = Some 0 /\
  count_free 0 (trace (for_of (replicate 2 0) dispose w).2)
  = count_free 0 (trace w) + 2.
Proof.
  split; [reflexivity |].
  apply dispose_frees_on_every_call. reflexivity.
Defined.

(** ** The error that [_storeSessions] throws *)

Section Store_failure.

Variable this : Encryption.
Variable timestamp : Z.

(** The loop runs up to the first write that fails and throws the error
    of that write. *)
Lemma store_loop_first_failure (txn : TxnId) (before after : list TargetRef)
    (target : TargetRef) (sets : list Event) (err : JsError) (w : World)
    (evs : list Event) :
  Forall2 (fun t ev =>
             exists sessionEntry,
               write_outcome this timestamp w t = Ok sessionEntry /\
               ev = EvSet txn t sessionEntry) before sets ->
  write_outcome this timestamp w target = Throw err ->
  for_of (before ++ target :: after) (store_body this timestamp txn)
    (add_events evs w)
  = (Throw err, add_events (evs ++ sets) w).
Proof.
  intros Hbefore Herr. revert evs.
  induction Hbefore as [|t ev before sets (e & He & ->) _ IH]; intros evs;
    cbn [app for_of]; rewrite bind_run, store_body_run,
      write_outcome_add_events.
  - by rewrite Herr, app_nil_r.
  - by rewrite He, add_events_app, IH, <- app_assoc.
Qed.

Lemma store_loop_all (txn : TxnId) (encryptionTargets : list TargetRef)
    (sets : list Event) (w : World) (evs : list Event) :
  Forall2 (fun t ev =>
             exists sessionEntry,
               write_outcome this timestamp w t = Ok sessionEntry /\
               ev = EvSet txn t sessionEntry) encryptionTargets sets ->
  for_of encryptionTargets (store_body this timestamp txn) (add_events evs w)
  = (Ok tt, add_events (evs ++ sets) w).
Proof.
  intros Hall. revert evs.
  induction Hall as [|t ev ts sets (e & He & ->) _ IH]; intros evs;
    cbn [for_of].
  - by rewrite app_nil_r.
  - rewrite bind_run, store_body_run, write_outcome_add_events, He.
    by rewrite add_events_app, IH, <- app_assoc.
Qed.

Lemma storeSessions_prefix_loop (encryptionTargets : list TargetRef)
    (w : World) :
  _storeSessions_prefix this encryptionTargets timestamp w =
  match for_of encryptionTargets (store_body this timestamp (next_txn w))
          (add_events [EvReadWriteTxn (next_txn w)] (txn_opened w)) with
  | (Ok _, w1) => (Ok (next_txn w), add_events [EvComplete (next_txn w)] w1)
  | (Throw err, w1) => (Throw err, add_events [EvAbort (next_txn w)] w1)
  end.
Proof.
  unfold _storeSessions_prefix. rewrite bind_run.
  cbn [readWriteTxn fresh_txn]. rewrite bind_run. unfold try_catch.
  match goal with
  | |- context [for_of encryptionTargets ?body ?w1] =>
      change (for_of encryptionTargets body w1)
        with (for_of encryptionTargets
                (store_body this timestamp (next_txn w))
                (add_events [EvReadWriteTxn (next_txn w)] (txn_opened w)))
  end.
  destruct (for_of encryptionTargets _ _) as [[[]|err] w1]; by rewrite bind_run.
Qed.

End Store_failure.

(** X24: [_storeSessions], called and awaited, rethrows the error of the
    first write that fails: when the writes for the targets [before]
    succeed and the write for the next target throws [err], the call throws
    [err]; what it has logged is the opening of the transaction, the
    entries of [before], and [abort()] on that transaction, without
    [complete()]; none of the entries is durably written. *)
Theorem storeSessions_rethrows_the_first_failure (this : Encryption)
    (before after : list TargetRef) (target : TargetRef) (timestamp : Z)
    (w : World) (sets : list Event) (err : JsError) :
  let txn := next_txn w in
  let run := _storeSessions this (before ++ target :: after) timestamp w in
  Forall2 (fun t ev =>
             exists sessionEntry,
               write_outcome this timestamp w t = Ok sessionEntry /\
               ev = EvSet txn t sessionEntry) before sets ->
  write_outcome this timestamp w target = Throw err ->
  run.1 = Throw err /\
  trace run.2 = trace w ++ EvReadWriteTxn txn :: sets ++ [EvAbort txn] /\
  durable_writes (_storage this)
    (EvReadWriteTxn txn :: sets ++ [EvAbort txn]) = [].
Proof.
  cbn zeta. intros Hbefore Herr. unfold _storeSessions.
  rewrite bind_run, storeSessions_prefix_loop.
  rewrite (store_loop_first_failure this timestamp (next_txn w) before after
             target sets err (txn_opened w)) by done.
  split; [done|]. split.
  - cbn. by rewrite <- !app_assoc.
  - apply durable_writes_aborted. clear -Hbefore.
    induction Hbefore as [|t ev ts evs (e & _ & ->) _ IH]; constructor; eauto.
Qed.

(** The store rejects the write of the session of the second target of
    three. *)
Lemma storeSessions_rethrows_the_first_failure_witness :
  let run :=
    _storeSessions (example_encryption [] (picky_storage ["curve-bob"]))
      ([0] ++ 1 :: [2]) 1600000000000 three_new_sessions in
  run.1 = Throw StorageError /\
  trace run.2 =
    [] ++ EvReadWriteTxn 0 ::
      [EvSet 0 0 (SessionEntry.mk "pickle-0" "sid-0" "curve-alice" 1600000000000)]
      ++ [EvAbort 0] /\
  durable_writes (picky_storage ["curve-bob"])
    (EvReadWriteTxn 0 ::
       [EvSet 0 0 (SessionEntry.mk "pickle-0" "sid-0" "curve-alice" 1600000000000)]
       ++ [EvAbort 0]) = [].
Proof.
  apply (storeSessions_rethrows_the_first_failure
           (example_encryption [] (picky_storage ["curve-bob"])) [0] [2] 1
           1600000000000 three_new_sessions
           [EvSet 0 0 (SessionEntry.mk "pickle-0" "sid-0" "curve-alice"
                         1600000000000)] StorageError).
  - repeat constructor. by eexists.
  - reflexivity.
Defined.

(** X25: when the write fails for no target, [_storeSessions] sets the
    entry of every target, in the order of the array and in one
    transaction, calls [complete()] on it, and returns or throws as the
    commit does. *)
Theorem storeSessions_completes_without_failure (this : Encryption)
    (encryptionTargets : list TargetRef) (timestamp : Z) (w : World)
    (sets : list Event) :
  let txn := next_txn w in
  let run := _storeSessions this encryptionTargets timestamp w in
  Forall2 (fun t ev =>
             exists sessionEntry,
               write_outcome this timestamp w t = Ok sessionEntry /\
               ev = EvSet txn t sessionEntry) encryptionTargets sets ->
  trace run.2 =
    trace w ++ EvReadWriteTxn txn :: sets ++ EvComplete txn ::
      (if complete_succeeds (_storage this) txn then [EvCommitted txn]
       else []) /\
  run.1 = (if complete_succeeds (_storage this) txn then Ok tt
           else Throw StorageError).
Proof.
  cbn zeta. intros Hall. unfold _storeSessions.
  rewrite bind_run, storeSessions_prefix_loop.
  rewrite (store_loop_all this timestamp (next_txn w) encryptionTargets sets
             (txn_opened w)) by done.
  unfold await_complete.
  destruct (complete_succeeds _ _); cbn; by rewrite <- !app_assoc.
Qed.

Lemma storeSessions_completes_without_failure_witness :
  let run :=
    _storeSessions (example_encryption [] (picky_storage []))
      [0; 1; 2] 1600000000000 three_new_sessions in
  trace run.2 =
    [] ++ EvReadWriteTxn 0 ::
      [EvSet 0 0 (SessionEntry.mk "pickle-0" "sid-0" "curve-alice" 1600000000000);
       EvSet 0 1 (SessionEntry.mk "pickle-n" "sid-n" "curve-bob" 1600000000000);
       EvSet 0 2 (SessionEntry.mk "pickle-n" "sid-n" "curve-carol" 1600000000000)]
      ++ EvComplete 0 :: [EvCommitted 0] /\
  run.1 = Ok tt.
Proof.
  apply (storeSessions_completes_without_failure
           (example_encryption [] (picky_storage [])) [0; 1; 2]
           1600000000000 three_new_sessions
           [EvSet 0 0 (SessionEntry.mk "pickle-0" "sid-0" "curve-alice"
                         1600000000000);
            EvSet 0 1 (SessionEntry.mk "pickle-n" "sid-n" "curve-bob"
                         1600000000000);
            EvSet 0 2 (SessionEntry.mk "pickle-n" "sid-n" "curve-carol"
                         1600000000000)]).
  repeat constructor; by eexists.
Defined.

(** ** The payload of the key claim *)

(** X26: [_createNewSessions] sends exactly one key claim, for any array
    of devices, the empty one included; the claim is the first thing it
    does.  The payload is the object
    [{timeout: 10000, one_time_keys: users}], where [users] has, for every
    device of the array whose user id and device id are not the name
    [__proto__], a property named by the user id whose value has a
    property named by the device id with the value "signed_curve25519",
    where no name occurs twice at either level, and where every pair of
    names comes from a device of the array. *)
Theorem createNewSessions_claims_once (this : Encryption)
    (devicesWithoutSession : list DeviceIdentity.t) (hsApi : HsApi)
    (timestamp : Z) (w : World) :
  let run := _createNewSessions this devicesWithoutSession hsApi timestamp w in
  exists users evs,
    trace run.2 =
      trace w ++
      EvClaimKeys
        (JsObj [("timeout", JsNum 10000); ("one_time_keys", JsObj users)])
      :: evs /\
    Forall (fun ev => forall payload, ev <> EvClaimKeys payload) evs /\
    NoDup (users.*1) /\
    (forall device, device ∈ devicesWithoutSession ->
       DeviceIdentity.userId device <> "__proto__" ->
       DeviceIdentity.deviceId device <> "__proto__" ->
       exists devs,
         obj_get (DeviceIdentity.userId device) users = Some (JsObj devs) /\
         obj_get (DeviceIdentity.deviceId device) devs
           = Some (JsStr "signed_curve25519")) /\
    (forall userId value, (userId, value) ∈ users ->
       exists devs,
         value = JsObj devs /\ NoDup (devs.*1) /\
         forall deviceId algorithm, (deviceId, algorithm) ∈ devs ->
           algorithm = JsStr "signed_curve25519" /\
           exists device,
             device ∈ devicesWithoutSession /\
             DeviceIdentity.userId device = userId /\
             DeviceIdentity.deviceId device = deviceId).
Proof.
  cbn zeta.
  destruct (createNewSessions_events this devicesWithoutSession hsApi
              timestamp w) as (evs & Htrace & Hevs). cbn zeta in *.
  exists (users_obj (devicesByUser_of devicesWithoutSession)), evs.
  split; [now rewrite Htrace, claim_payload_eq|].
  split; [eapply Forall_impl; [exact Hevs|]; now intros ev [? _]|].
  split; [apply users_obj_NoDup|].
  split; [apply users_obj_requested | apply users_obj_only_requested].
Qed.

(** X27: the payload of the key claim has no property named [__proto__],
    neither under [one_time_keys] nor in the object of a user: the
    assignments [usersObj[userId] = ...] and [devicesObj[device.deviceId] =
    ...] make no property of that name.  A device whose device id is
    [__proto__] is left out of the claim, and so are the devices of a user
    whose id is [__proto__]. *)
Theorem claim_payload_has_no_proto
    (deviceIdentities : list DeviceIdentity.t) :
  exists users,
    claim_payload (devicesByUser_of deviceIdentities)
    = JsObj [("timeout", JsNum 10000); ("one_time_keys", JsObj users)] /\
    obj_get "__proto__" users = None /\
    forall userId devs,
      (userId, JsObj devs) ∈ users -> obj_get "__proto__" devs = None.
Proof.
  exists (users_obj (devicesByUser_of deviceIdentities)).
  split; [apply claim_payload_eq | apply users_obj_proto].
Qed.

(** X28: in the payload the device ids that are array indices come first
    in the object of their user, in ascending order, and the other ids
    follow in the order of the devices; asked twice, a device is listed
    once; a device id [__proto__] is not listed. *)
Theorem claim_payload_order :
  claim_payload
    (devicesByUser_of
       [DeviceIdentity.mk "@alice:example.org" "PHONE" "curve-1" "ed-1";
        DeviceIdentity.mk "@alice:example.org" "10" "curve-2" "ed-2";
        DeviceIdentity.mk "@alice:example.org" "__proto__" "curve-3" "ed-3";
        DeviceIdentity.mk "@alice:example.org" "9" "curve-4" "ed-4";
        DeviceIdentity.mk "@bob:example.org" "007" "curve-5" "ed-5";
        DeviceIdentity.mk "@alice:example.org" "PHONE" "curve-1" "ed-1";
        DeviceIdentity.mk "@bob:example.org" "7" "curve-6" "ed-6"])
  = JsObj
      [("timeout", JsNum 10000);
       ("one_time_keys",
        JsObj
          [("@alice:example.org",
            JsObj
              [("9", JsStr "signed_curve25519");
               ("10", JsStr "signed_curve25519");
               ("PHONE", JsStr "signed_curve25519")]);
           ("@bob:example.org",
            JsObj
              [("7", JsStr "signed_curve25519");
               ("007", JsStr "signed_curve25519")])])].
Proof. reflexivity. Qed.
